(** * Pulse demo: decision core of the screen-driven automation assistant

    A shallow embedding of the algorithmic parts of the repository:
    the reliability classifier ([codex/learning_to_codex.py]), the map
    fusion engine and the target resolver ([reading/vision_fusion.py]),
    the line reconstructor ([reading/run_ocr_mac_native.py]) and the
    execution guard ([action/sprint_agent.py]).

    Conventions of the embedding:
    - A Python float is the rational it stands for ([Q]).  Where a
      result of the code depends on the rounding of floating-point
      arithmetic (the line reconstructor, the pixel of a click), the
      operations round to the nearest double ([b64]); elsewhere
      sums, products and comparisons are those of the rationals.
      [int(x)] truncates toward zero; [d ** 0.5 <= c] on a non-negative
      integer [d] is [d <= c * c].
    - Python [str] is [string], restricted to ASCII text: [lower],
      [strip], [title] and the regular-expression classes act on ASCII.
    - A Python [dict] whose iteration order is observable is an
      association list with unique keys kept in insertion order.
    - A function that can raise returns a [result]. *)

From Stdlib Require Import Ascii String QArith Qround Qabs Qpower Lqa Sorted.
From stdpp Require Import gmap strings list pretty.

Open Scope Z_scope.
Open Scope string_scope.

(** ** Exceptions *)

Inductive exn : Type :=
| KeyError (key : string)
| NameError (name : string)
| IndexError
| AttributeError
| TypeError
| ValueError (msg : string)
| RuntimeError (msg : string)
| FileNotFoundError (msg : string).

Inductive result (A : Type) : Type :=
| Ok (a : A)
| Raise (e : exn).
Arguments Ok {A} a.
Arguments Raise {A} e.

Definition rbind {A B : Type} (r : result A) (k : A -> result B) : result B :=
  match r with
  | Ok a => k a
  | Raise e => Raise e
  end.

Declare Scope result_scope.
Delimit Scope result_scope with result.
Notation "'let*' x ':=' r 'in' k" := (rbind r (fun x => k))
  (at level 10, x pattern, r at level 100, k at level 200) : result_scope.
Open Scope result_scope.

Definition is_Ok {A : Type} (r : result A) : bool :=
  match r with Ok _ => true | Raise _ => false end.

(** ** Rational helpers *)

Definition Qltb (x y : Q) : bool := negb (Qle_bool y x).
Definition Qleb (x y : Q) : bool := Qle_bool x y.

(** [int(x)]: truncation toward zero. *)
Definition py_int (x : Q) : Z := Z.quot (Qnum x) (Zpos (Qden x)).

(** ** Python string operations (ASCII) *)

Module PyStr.

(** [str.isspace] on one ASCII character. *)
Definition is_space (c : ascii) : bool :=
  let n := nat_of_ascii c in
  ((9 <=? n) && (n <=? 13) || (28 <=? n) && (n <=? 32))%nat.

Definition is_upper (c : ascii) : bool :=
  let n := nat_of_ascii c in ((65 <=? n) && (n <=? 90))%nat.
Definition is_lower (c : ascii) : bool :=
  let n := nat_of_ascii c in ((97 <=? n) && (n <=? 122))%nat.
Definition is_digit (c : ascii) : bool :=
  let n := nat_of_ascii c in ((48 <=? n) && (n <=? 57))%nat.
Definition is_alpha (c : ascii) : bool := is_upper c || is_lower c.
(** The class [\w]. *)
Definition is_word (c : ascii) : bool :=
  is_alpha c || is_digit c || Ascii.eqb c "_"%char.

Definition lower_char (c : ascii) : ascii :=
  if is_upper c then ascii_of_nat (nat_of_ascii c + 32) else c.
Definition upper_char (c : ascii) : ascii :=
  if is_lower c then ascii_of_nat (nat_of_ascii c - 32) else c.

Fixpoint map_chars (f : ascii -> ascii) (s : string) : string :=
  match s with
  | EmptyString => EmptyString
  | String c r => String (f c) (map_chars f r)
  end.

Definition lower (s : string) : string := map_chars lower_char s.

Fixpoint filter_chars (p : ascii -> bool) (s : string) : string :=
  match s with
  | EmptyString => EmptyString
  | String c r => if p c then String c (filter_chars p r) else filter_chars p r
  end.

Fixpoint lstrip (s : string) : string :=
  match s with
  | EmptyString => EmptyString
  | String c r => if is_space c then lstrip r else s
  end.

(** [rstrip] keeps a character when it, or something after it, is not
    white space. *)
Fixpoint rstrip (s : string) : string :=
  match s with
  | EmptyString => EmptyString
  | String c r =>
      match rstrip r with
      | EmptyString => if is_space c then EmptyString else String c EmptyString
      | r' => String c r'
      end
  end.

Definition strip (s : string) : string := rstrip (lstrip s).

Definition startswith (s p : string) : bool := String.prefix p s.

(** [sub in s]. *)
Fixpoint contains (sub s : string) : bool :=
  String.prefix sub s ||
  match s with
  | EmptyString => false
  | String _ r => contains sub r
  end.

Fixpoint drop (n : nat) (s : string) : string :=
  match n, s with
  | O, _ => s
  | S _, EmptyString => EmptyString
  | S m, String _ r => drop m r
  end.

Fixpoint take (n : nat) (s : string) : string :=
  match n, s with
  | O, _ => EmptyString
  | S _, EmptyString => EmptyString
  | S m, String c r => String c (take m r)
  end.

(** [s.replace(old, new)] for a non-empty [old]: leftmost,
    non-overlapping occurrences.  [skip] counts the characters of an
    occurrence that remain to be consumed. *)
Fixpoint replace_from (old new : string) (skip : nat) (s : string) : string :=
  match s with
  | EmptyString => EmptyString
  | String c r =>
      match skip with
      | S k => replace_from old new k r
      | O =>
          if String.prefix old s
          then new ++ replace_from old new (String.length old - 1) r
          else String c (replace_from old new O r)
      end
  end.

Fixpoint intersperse (new s : string) : string :=
  match s with
  | EmptyString => EmptyString
  | String c r => String c (new ++ intersperse new r)
  end.

Definition replace (old new s : string) : string :=
  match old with
  | EmptyString => new ++ intersperse new s
  | _ => replace_from old new O s
  end.

(** [s.split()]: maximal runs of non-space characters.  [cur] is the
    run being read, in order. *)
Fixpoint split_ws_from (cur : string) (s : string) : list string :=
  match s with
  | EmptyString =>
      match cur with EmptyString => [] | _ => [cur] end
  | String c r =>
      if is_space c
      then match cur with
           | EmptyString => split_ws_from EmptyString r
           | _ => cur :: split_ws_from EmptyString r
           end
      else split_ws_from (cur ++ String c EmptyString) r
  end.

Definition split_ws (s : string) : list string := split_ws_from EmptyString s.

(** [sep.join(parts)]. *)
Fixpoint join (sep : string) (parts : list string) : string :=
  match parts with
  | [] => EmptyString
  | [p] => p
  | p :: rest => p ++ sep ++ join sep rest
  end.

(** [s.split(sep)] for a one-character separator. *)
Fixpoint split_char_from (sep : ascii) (cur : string) (s : string)
  : list string :=
  match s with
  | EmptyString => [cur]
  | String c r =>
      if Ascii.eqb c sep
      then cur :: split_char_from sep EmptyString r
      else split_char_from sep (cur ++ String c EmptyString) r
  end.

Definition split_char (sep : ascii) (s : string) : list string :=
  split_char_from sep EmptyString s.

(** [s.title()]: a letter that follows a non-letter is upper-cased,
    every other letter is lower-cased. *)
Fixpoint title_from (prev_alpha : bool) (s : string) : string :=
  match s with
  | EmptyString => EmptyString
  | String c r =>
      String (if prev_alpha then lower_char c else upper_char c)
             (title_from (is_alpha c) r)
  end.

Definition title (s : string) : string := title_from false s.

(** Truthiness of a string. *)
Definition truthy (s : string) : bool :=
  match s with EmptyString => false | _ => true end.

(** Every character of the string passes the test. *)
Fixpoint all_chars (p : ascii -> bool) (s : string) : Prop :=
  match s with
  | EmptyString => True
  | String c r => p c = true /\ all_chars p r
  end.

End PyStr.

(** Rounding to the nearest integer, ties to even: [round(x)] and the
    rounding of the [.0%] format. *)
Definition round_half_even (q : Q) : Z :=
  let f := Qfloor q in
  let r := (q - inject_Z f)%Q in
  if Qltb r (1 # 2) then f
  else if Qltb (1 # 2) r then f + 1
  else if Z.even f then f else f + 1.

(** ** Floating point

    The doubles of CPython, as rationals.  [b64 q] is the double
    nearest to [q], ties going to the even significand of 53 bits; the
    exponent is not bounded (no overflow to infinity, no subnormal
    numbers), which is exact for the magnitudes of screen coordinates. *)

(** [2 ** e] *)
Definition pow2 (e : Z) : Q := Qpower 2 e.

(** The exponent of a positive number: the greatest [k] with
    [2 ** k <= q]. *)
Definition ilog2 (q : Q) : Z :=
  let k := Z.log2 (Qnum q) - Z.log2 (Zpos (Qden q)) in
  if Qleb (pow2 k) q then k else k - 1.

Definition b64 (q : Q) : Q :=
  if Qeq_bool q 0 then 0%Q
  else
    let a := Qabs q in
    let ulp := pow2 (ilog2 a - 52) in
    let r := Qred (inject_Z (round_half_even (a / ulp)) * ulp) in
    if Qltb q 0 then (- r)%Q else r.

(** [float(x)], and a float literal of the source. *)
Definition py_float (x : Q) : Q := b64 x.

(** [a + b], [a - b] and [a * b] on doubles. *)
Definition fadd (a b : Q) : Q := b64 (a + b).
Definition fsub (a b : Q) : Q := b64 (a - b).
Definition fmul (a b : Q) : Q := b64 (a * b).

(** [a * b] on two numbers of a JSON document or of the screen size:
    each is first taken as a double. *)
Definition float_product (a b : Q) : Q := fmul (py_float a) (py_float b).

(** [round(x, 3)] on a double: the double nearest to the decimal
    with three digits that is nearest to [x] (ties to the even
    digit). *)
Definition round3 (x : Q) : Q :=
  b64 (inject_Z (round_half_even (x * 1000)) / 1000).

(** The relative error of one rounding: [2 ** -53]. *)
Definition unit_roundoff : Q := 1 # 9007199254740992.

(** [f"{q:.0%}"]. *)
Definition percent0 (q : Q) : string := pretty (round_half_even (q * 100)) ++ "%".

(** [l[n]] on a list. *)
Definition idx {A : Type} (l : list A) (n : nat) : result A :=
  match l !! n with
  | Some x => Ok x
  | None => Raise IndexError
  end.

(** ** Reliability classifier ([codex/learning_to_codex.py]) *)

Module Classifier.

(** The [window] sub-dictionary of a recorded action. *)
Record window : Type := {
  app : option string;
  title : option string;
  alpha : option Q;
  width : option Q;
  height : option Q }.

(** A recorded action (ActionRecord), with the keys the converter reads.
    [None] is an absent key. *)
Record action : Type := {
  event : option string;
  rel_position : option (list Q);
  a_window : option window;
  a_text : option string;
  a_key : option string;
  crop_screenshot : option string }.

Definition no_window : window :=
  {| app := None; title := None; alpha := None; width := None; height := None |}.

(** [action.get("window", {})] *)
Definition get_window (a : action) : window := default no_window (a_window a).

Record detection : Type := {
  detected_text : option string;
  ocr_confidence : string;
  d_crop_screenshot : option string }.

Record check : Type := { passed : bool; note : string }.

Record summary : Type := {
  checks_passed : nat;
  total_checks : nat;
  success_rate : Q;
  reliable : bool;
  confidence : string }.

Record check_results : Type := {
  target : string;
  detection_info : detection;
  checks : list (string * check);
  summary_of : summary }.

(** [sum(checks_passed)] over a list of booleans. *)
Definition sum_bools (l : list bool) : nat := length (filter (fun b => b = true) l).

(** [any(word in text for word in words)] *)
Definition any_in (words : list string) (text : string) : bool :=
  existsb (fun w => PyStr.contains w text) words.

(** [_clean_target_name]: drop everything but word characters, white
    space and hyphens, normalise white space, keep 30 characters. *)
Definition _clean_target_name (text : string) : string :=
  let cleaned :=
    PyStr.filter_chars
      (fun c => PyStr.is_word c || PyStr.is_space c || Ascii.eqb c "-"%char) text in
  PyStr.take 30 (PyStr.join " " (PyStr.split_ws cleaned)).

Definition _generate_fallback_target_name (a : action) : string :=
  let action_type := default "element" (event a) in
  let app_name := default "Unknown" (app (get_window a)) in
  if PyStr.contains "localhost" (default "" (title (get_window a)))
  then PyStr.title action_type ++ " Element"
  else app_name ++ " " ++ PyStr.title action_type.

Definition _suggest_target_from_ocr (ocr_text : string) (a : action) : string :=
  let cleaned := _clean_target_name ocr_text in
  let lower_text := PyStr.lower cleaned in
  if any_in ["button"; "btn"; "click"] lower_text
  then PyStr.strip (PyStr.replace "btn" "" (PyStr.replace "button" "" cleaned))
  else if any_in ["menu"; "nav"; "link"] lower_text then cleaned
  else if any_in ["input"; "field"; "text"] lower_text then "text_input"
  else cleaned.

(** [max(results, key=lambda x: x[2])]: the first entry of greatest
    confidence. *)
Fixpoint max_by_conf (best : string * Q) (rest : list (string * Q)) : string * Q :=
  match rest with
  | [] => best
  | r :: rest' => max_by_conf (if Qltb (snd best) (snd r) then r else best) rest'
  end.

Section Checks.

(** The collaborators of the OCR step: the file system
    ([os.path.exists]) and the OCR library ([easyocr]), which yields
    the recognised texts with their confidences, or raises. *)
Variable path_exists : string -> bool.
Variable easyocr_readtext : string -> result (list (string * Q)).

Definition extract_target_text_from_coordinates (a : action) : result string :=
  match crop_screenshot a with
  | None => Ok (_generate_fallback_target_name a)
  | Some crop_path =>
      if negb (PyStr.truthy crop_path) || negb (path_exists crop_path)
      then Ok (_generate_fallback_target_name a)
      else
        match easyocr_readtext crop_path with
        | Ok (r :: rest) =>
            let extracted_text := PyStr.strip (fst (max_by_conf r rest)) in
            if PyStr.truthy extracted_text && (1 <? String.length extracted_text)%nat
            then Ok (_clean_target_name extracted_text)
            else Ok (_generate_fallback_target_name a)
        | Ok [] => Ok (_generate_fallback_target_name a)
        | Raise _ => Ok (_generate_fallback_target_name a)
        end
  end.

(** The position-based fallback of [check_coordinates] for clicks. *)
Definition click_fallback (a : action) (det : detection)
  : result (bool * string * string * detection) :=
  let window_title := default "" (title (get_window a)) in
  let pos := default [0%Q; 0%Q] (rel_position a) in
  let* target :=
    if PyStr.contains "Learning Loop" window_title then
      let* p1 := idx pos 1 in
      if Qltb p1 (3 # 10) then Ok "top_area"
      else if Qltb (8 # 10) p1 then Ok "bottom_button"
      else
        let* p0 := idx pos 0 in
        if Qltb p0 (1 # 2) && Qltb (3 # 10) p1 && Qltb p1 (7 # 10)
        then Ok "left_control" else Ok "main_area"
    else Ok (_generate_fallback_target_name a) in
  let seen :=
    match detected_text det with
    | Some t => if PyStr.truthy t then t else target
    | None => target
    end in
  Ok (true, target, "Coordinates look reasonable",
      {| detected_text := Some seen;
         ocr_confidence := ocr_confidence det;
         d_crop_screenshot := d_crop_screenshot det |}).

Definition check_coordinates (a : action)
  : result (bool * string * string * detection) :=
  let det0 := {| detected_text := None; ocr_confidence := "none";
                 d_crop_screenshot := crop_screenshot a |} in
  match event a with
  | None => Raise (KeyError "event")
  | Some ev =>
      if String.eqb ev "click" then
        match extract_target_text_from_coordinates a with
        | Ok ocr_result =>
            if PyStr.truthy ocr_result
               && (2 <? String.length (PyStr.strip ocr_result))%nat
               && negb (PyStr.startswith (PyStr.lower ocr_result) "something")
            then
              Ok (true, _suggest_target_from_ocr ocr_result a,
                  "OCR extracted target name",
                  {| detected_text := Some ocr_result; ocr_confidence := "high";
                     d_crop_screenshot := crop_screenshot a |})
            else
              click_fallback a
                {| detected_text := Some ocr_result; ocr_confidence := "none";
                   d_crop_screenshot := crop_screenshot a |}
        | Raise _ =>
            click_fallback a
              {| detected_text := None; ocr_confidence := "failed";
                 d_crop_screenshot := crop_screenshot a |}
        end
      else if String.eqb ev "type" then
        Ok (true, "text_input", "Text field",
            {| detected_text := Some (default "" (a_text a));
               ocr_confidence := "none";
               d_crop_screenshot := crop_screenshot a |})
      else if String.eqb ev "key" then
        let key_name := default (default "unknown" (a_text a)) (a_key a) in
        Ok (true, "key_" ++ key_name, "Key press: " ++ key_name,
            {| detected_text := Some key_name; ocr_confidence := "none";
               d_crop_screenshot := crop_screenshot a |})
      else
        (* the last return names [detection_inf], which is not bound *)
        Raise (NameError "detection_inf")
  end.

Definition verify_window (a : action) (target : string) : bool * string :=
  let w := get_window a in
  let app_name := default "Unknown" (app w) in
  let window_title := default "Unknown" (title w) in
  if String.eqb app_name "Google Chrome" then
    if PyStr.contains "localhost" window_title
    then (true, "Local dev environment - " ++ target)
    else if PyStr.contains "Claude" window_title
    then (true, "Claude interface - " ++ target)
    else (true, "Browser window - " ++ target)
  else if String.eqb app_name "Control Center"
  then (true, "System control - " ++ target)
  else (true, "App context - " ++ target).

Definition test_compatibility (a : action) (target : string)
  : result (bool * string) :=
  let w := get_window a in
  if Qltb (default 1%Q (alpha w)) (1 # 10) then Ok (false, "Window too transparent")
  else
    let rel_pos := default [0%Q; 0%Q] (rel_position a) in
    let* x := idx rel_pos 0 in
    let* outside :=
      if Qltb x 0 || Qltb 1 x then Ok true
      else let* y := idx rel_pos 1 in Ok (Qltb y 0 || Qltb 1 y) in
    if (outside : bool) then Ok (false, "Position outside window")
    else if Qltb (default 0%Q (width w)) 100 || Qltb (default 0%Q (height w)) 100
    then Ok (false, "Window too small")
    else Ok (true, "Should work fine").

Definition test_sizes : list (Q * Q) :=
  [(1920%Q, 1080%Q); (2560%Q, 1440%Q); (3840%Q, 2160%Q)].

(** One turn of the loop over [test_sizes]. *)
Definition size_works (rel_pos : list Q) (size : Q * Q) : result bool :=
  let* x := idx rel_pos 0 in
  let test_x := (x * fst size)%Q in
  let* y := idx rel_pos 1 in
  let test_y := (y * snd size)%Q in
  Ok (Qltb 10 test_x && Qltb test_x (fst size - 10)
      && Qltb 10 test_y && Qltb test_y (snd size - 10)).

Fixpoint count_working (rel_pos : list Q) (sizes : list (Q * Q)) (count : nat)
  : result nat :=
  match sizes with
  | [] => Ok count
  | size :: rest =>
      let* ok := size_works rel_pos size in
      count_working rel_pos rest (if (ok : bool) then S count else count)
  end.

Definition analyze_resolution (a : action) (target : string)
  : result (bool * string) :=
  let rel_pos := default [0%Q; 0%Q] (rel_position a) in
  let* working_count := count_working rel_pos test_sizes 0 in
  let success_rate :=
    (inject_Z (Z.of_nat working_count) / inject_Z (Z.of_nat (length test_sizes)))%Q in
  if Qleb (8 # 10) success_rate
  then Ok (true, "Works on most screens (" ++ percent0 success_rate ++ ")")
  else if Qleb (6 # 10) success_rate
  then Ok (true, "Might work on some screens (" ++ percent0 success_rate ++ ")")
  else Ok (false, "Probably won't work well (" ++ percent0 success_rate ++ ")").

Definition validate_position (a : action) (target : string) : bool * string :=
  let w := get_window a in
  let app_name := default "" (app w) in
  let targeting_options : list string :=
    ((match rel_position a with
      | Some (_ :: _) => ["coordinates"] | _ => [] end)
     ++ (if PyStr.truthy app_name && negb (String.eqb app_name "Unknown")
         then ["app"] else [])
     ++ (match title w with
         | Some t => if PyStr.truthy t && negb (String.eqb t "Unknown")
                     then ["window"] else []
         | None => [] end)
     ++ (match event a with
         | Some ev => if PyStr.truthy ev then ["action_type"] else []
         | None => [] end))%list in
  let option_count := length targeting_options in
  let confidence_level : Q :=
    if (3 <=? option_count)%nat then 9 # 10
    else if (option_count =? 2)%nat then 7 # 10 else 4 # 10 in
  if Qleb (7 # 10) confidence_level
  then (true, "Multiple targeting options (" ++ pretty option_count ++ ")")
  else (false, "Limited targeting options (" ++ pretty option_count ++ ")").

Definition mk_summary (flags : list bool) (threshold : nat) (conf : string)
  : summary :=
  let passed_count := sum_bools flags in
  {| checks_passed := passed_count;
     total_checks := length flags;
     success_rate :=
       (inject_Z (Z.of_nat passed_count) / inject_Z (Z.of_nat (length flags)))%Q;
     reliable := (threshold <=? passed_count)%nat;
     confidence := conf |}.

Definition run_checks (a : action) : result check_results :=
  let action_type := default "unknown" (event a) in
  let* (coords_ok, target, coords_reason, det) := check_coordinates a in
  let '(window_ok, window_reason) := verify_window a target in
  if String.eqb action_type "click" then
    let* (compat_ok, compat_reason) := test_compatibility a target in
    let* (resolution_ok, resolution_reason) := analyze_resolution a target in
    let '(position_ok, position_reason) := validate_position a target in
    let flags := [coords_ok; window_ok; compat_ok; resolution_ok; position_ok] in
    let passed_count := sum_bools flags in
    Ok {| target := target;
          detection_info := det;
          checks :=
            [("coordinates", {| passed := coords_ok; note := coords_reason |});
             ("window", {| passed := window_ok; note := window_reason |});
             ("compatibility", {| passed := compat_ok; note := compat_reason |});
             ("resolution", {| passed := resolution_ok; note := resolution_reason |});
             ("position", {| passed := position_ok; note := position_reason |})];
          summary_of :=
            mk_summary flags 4
              (if (passed_count =? 5)%nat then "high"
               else if (4 <=? passed_count)%nat then "medium" else "low") |}
  else if String.eqb action_type "type" || String.eqb action_type "key" then
    let '(text_ok, text_reason) :=
      if String.eqb action_type "type" then
        let text_content := default "" (a_text a) in
        if negb (PyStr.truthy text_content)
           || (String.length (PyStr.strip text_content) =? 0)%nat
        then (false, "No text content") else (true, "Text input available")
      else
        let key_value := default (default "" (a_text a)) (a_key a) in
        if negb (PyStr.truthy key_value)
        then (false, "No key specified") else (true, "Text input available") in
    let flags := [coords_ok; window_ok; text_ok] in
    let passed_count := sum_bools flags in
    Ok {| target := target;
          detection_info := det;
          checks :=
            [("coordinates", {| passed := coords_ok; note := coords_reason |});
             ("window", {| passed := window_ok; note := window_reason |});
             ("text_content", {| passed := text_ok; note := text_reason |})];
          summary_of :=
            mk_summary flags 2
              (if (passed_count =? 3)%nat then "high"
               else if (2 <=? passed_count)%nat then "medium" else "low") |}
  else
    let flags := [coords_ok; window_ok] in
    let passed_count := sum_bools flags in
    Ok {| target := target;
          detection_info := det;
          checks :=
            [("coordinates", {| passed := coords_ok; note := coords_reason |});
             ("window", {| passed := window_ok; note := window_reason |})];
          summary_of :=
            mk_summary flags 1
              (if (2 <=? passed_count)%nat then "medium" else "low") |}.

(** *** Steps and conversion *)

Inductive payload : Type :=
| ClickPayload (coordinates : list Q) (click_type : string)
| TextPayload (text : string) (input_type : string)
| KeyPayload (key : string) (input_type : string)
| NoPayload.

Record reliability : Type := {
  r_confidence : string;
  r_checks_passed : nat;
  verified : bool }.

(** An AutomationStep. *)
Record automation_step : Type := {
  step : nat;
  s_action : string;
  s_target : string;
  s_detected_text : option string;
  actor : string;
  s_app : string;
  window_title : string;
  notes : string;
  s_reliability : reliability;
  s_crop_screenshot : option string;
  s_ocr_confidence : option string;
  s_payload : payload }.

Definition create_step (a : action) (step_number : nat) (results : check_results)
  : result (option automation_step) :=
  if negb (reliable (summary_of results)) then Ok None
  else
    let det := detection_info results in
    let w := get_window a in
    match event a with
    | None => Raise (KeyError "event")
    | Some ev =>
        Ok (Some
          {| step := step_number;
             s_action := ev;
             s_target := target results;
             s_detected_text := detected_text det;
             actor := "automation";
             s_app := default "Unknown" (app w);
             window_title := default "Unknown" (title w);
             notes := "Auto-generated step " ++ pretty step_number;
             s_reliability :=
               {| r_confidence := confidence (summary_of results);
                  r_checks_passed := checks_passed (summary_of results);
                  verified := true |};
             s_crop_screenshot :=
               match d_crop_screenshot det with
               | Some c => if PyStr.truthy c then Some c else None
               | None => None
               end;
             s_ocr_confidence :=
               if PyStr.truthy (ocr_confidence det)
               then Some (ocr_confidence det) else None;
             s_payload :=
               if String.eqb ev "click"
               then ClickPayload (default [0%Q; 0%Q] (rel_position a)) "left_click"
               else if String.eqb ev "type"
               then TextPayload (default "" (a_text a)) "text_entry"
               else if String.eqb ev "key"
               then KeyPayload (default (default "unknown" (a_text a)) (a_key a))
                               "keyboard"
               else NoPayload |})
    end.

(** The QualityReport; [failed_checks] is a dictionary from check
    name to count, in insertion order. *)
Record quality_report : Type := {
  total_actions : nat;
  reliable_steps : nat;
  unreliable_steps : nat;
  failed_checks : list (string * nat) }.

(** [d[name] = d.get(name, 0) + 1] *)
Fixpoint bump (name : string) (d : list (string * nat)) : list (string * nat) :=
  match d with
  | [] => [(name, 1%nat)]
  | (k, n) :: rest =>
      if String.eqb k name then (k, S n) :: rest else (k, n) :: bump name rest
  end.

Definition tally_failures (cs : list (string * check)) (d : list (string * nat))
  : list (string * nat) :=
  fold_left (fun acc c => if passed (snd c) then acc else bump (fst c) acc) cs d.

(** The loop of [convert_to_automation] over [enumerate(actions, 1)]:
    [i] is the number of the first action of [actions]. *)
Fixpoint classify_all (actions : list action) (i : nat)
    (steps : list automation_step) (report : quality_report)
  : result (list automation_step * quality_report) :=
  match actions with
  | [] => Ok (steps, report)
  | a :: rest =>
      let* results := run_checks a in
      let* made := create_step a i results in
      match made with
      | Some st =>
          classify_all rest (S i) (steps ++ [st])%list
            {| total_actions := total_actions report;
               reliable_steps := S (reliable_steps report);
               unreliable_steps := unreliable_steps report;
               failed_checks := failed_checks report |}
      | None =>
          classify_all rest (S i) steps
            {| total_actions := total_actions report;
               reliable_steps := reliable_steps report;
               unreliable_steps := S (unreliable_steps report);
               failed_checks := tally_failures (checks results) (failed_checks report) |}
      end
  end.

Record automation : Type := {
  au_name : string;
  description : string;
  created : string;
  source : string;
  au_steps : list automation_step;
  au_quality_report : quality_report }.

(** [convert_to_automation].  [session] is what
    [load_learning_session] yields for [learning_id]; [stamp] and
    [iso] are the two readings of the clock. *)
Definition convert_to_automation (session : result (list action))
    (learning_id : string) (name : option string) (stamp iso : string)
  : result automation :=
  let* actions := session in
  match actions with
  | [] => Raise (ValueError "No actions found")
  | _ =>
      let name' :=
        match name with
        | Some n => if PyStr.truthy n then n else "automation_" ++ stamp
        | None => "automation_" ++ stamp
        end in
      let* (reliable_list, report) :=
        classify_all actions 1 []
          {| total_actions := length actions; reliable_steps := 0;
             unreliable_steps := 0; failed_checks := [] |} in
      Ok {| au_name := name';
            description :=
              "Learned automation with " ++ pretty (length reliable_list) ++ " steps";
            created := iso;
            source := learning_id;
            au_steps := reliable_list;
            au_quality_report := report |}
  end.

End Checks.

(** *** Sample recorded actions *)

Definition chrome : window :=
  {| app := Some "Google Chrome"; title := Some "localhost:3000";
     alpha := Some 1%Q; width := Some 1280%Q; height := Some 800%Q |}.

Definition click_at (pos : list Q) (w : window) : action :=
  {| event := Some "click"; rel_position := Some pos; a_window := Some w;
     a_text := None; a_key := None; crop_screenshot := None |}.

Definition no_files : string -> bool := fun _ => false.
Definition no_ocr : string -> result (list (string * Q)) :=
  fun _ => Raise (RuntimeError "easyocr unavailable").

Definition transparent_chrome : window :=
  {| app := Some "Google Chrome"; title := Some "localhost:3000";
     alpha := Some (5 # 100); width := Some 1280%Q;
     height := Some 800%Q |}.

(** A click in the middle of the window, a click on its left edge, and
    a click on the left edge of a nearly transparent window. *)
Definition click_centre : action :=
  click_at [1 # 2; 1 # 2] chrome.
Definition click_edge : action :=
  click_at [1 # 1000; 1 # 2] chrome.
Definition click_edge_transparent : action :=
  click_at [1 # 1000; 1 # 2] transparent_chrome.
(** A click recorded with a single coordinate. *)
Definition click_short : action :=
  click_at [1 # 2] chrome.
Definition scroll_action : action :=
  {| event := Some "scroll"; rel_position := Some [1 # 2; 1 # 2];
     a_window := Some chrome; a_text := None;
     a_key := None; crop_screenshot := None |}.

Definition sample_checks : action -> result check_results :=
  run_checks no_files no_ocr.

Definition passed_and_tier (r : result check_results)
  : option (nat * bool * string) :=
  match r with
  | Ok c => Some (checks_passed (summary_of c),
                  reliable (summary_of c),
                  confidence (summary_of c))
  | Raise _ => None
  end.

(** A typed text, and a recorded session of three actions. *)
Definition type_hello : action :=
  {| event := Some "type"; rel_position := None; a_window := Some chrome;
     a_text := Some "hello"; a_key := None; crop_screenshot := None |}.

Definition sample_session : list action :=
  [click_centre; click_edge_transparent; type_hello].

Definition sample_conversion : result automation :=
  convert_to_automation no_files no_ocr (Ok sample_session)
    "session" None "20250101_0900" "2025-01-01T09:00:00".

(** *** Vocabulary of the further statements *)

(** The position keeps the margins of a 2560 x 1440 screen: more than
    10 pixels from each edge. *)
Definition inside_margins (x y : Q) : Prop :=
  (1 # 256 < x /\ x < 255 # 256 /\ 1 # 144 < y /\ y < 143 # 144)%Q.

(** The click lands more than 10 pixels inside a screen of the given
    size. *)
Definition works_on (x y : Q) (size : Q * Q) : bool :=
  Qltb 10 (x * fst size) && Qltb (x * fst size) (fst size - 10)
  && Qltb 10 (y * snd size) && Qltb (y * snd size) (snd size - 10).

(** The characters of a cleaned target name: word characters, the
    hyphen and the space. *)
Definition name_char (c : ascii) : bool :=
  PyStr.is_word c || Ascii.eqb c "-"%char || Ascii.eqb c " "%char.

(** The names of the checks with their outcomes. *)
Definition check_flags (cs : list (string * check)) : list (string * bool) :=
  map (fun nc => (fst nc, passed (snd nc))) cs.

(** The checks that only a click goes through after the coordinate and
    window checks. *)
Definition click_only_checks : list string :=
  ["compatibility"; "resolution"; "position"].

(** The sum of the counts of [failed_checks]. *)
Definition tally_total (d : list (string * nat)) : nat :=
  foldr (fun kn acc => (snd kn + acc)%nat) 0%nat d.

(** A recorded action the classifier has an answer for: a type or key
    action, or a click whose recorded position, if any, has both
    coordinates. *)
Definition well_recorded (a : action) : Prop :=
  event a = Some "type" \/ event a = Some "key"
  \/ (event a = Some "click"
      /\ forall pos, rel_position a = Some pos -> (2 <= length pos)%nat).

(** What the conversion promises of an emitted step: it is the step of
    the action at position [step - first] of the session, of a known
    kind, marked verified, with confidence "high" or "medium". *)
Definition emitted_from (actions : list action) (first : nat) (st : automation_step)
  : Prop :=
  exists k a,
    actions !! k = Some a
    /\ step st = (first + k)%nat
    /\ event a = Some (s_action st)
    /\ s_action st ∈ ["click"; "type"; "key"]
    /\ verified (s_reliability st) = true
    /\ r_confidence (s_reliability st) ∈ ["high"; "medium"].

End Classifier.

(** ** Export endpoints ([api/quality_check_api.py]) *)

Module QualityApi.
Import Classifier.

Local Open Scope Q_scope.

Record export_request : Type := {
  learning_id : string;
  automation_name : option string;
  quality_threshold : Q }.

(** An ExportResponse; [None] is a field left at its default. *)
Record export_response : Type := {
  success : bool;
  r_automation_name : option string;
  file_path : option string;
  r_quality_report : option quality_report;
  reliability_rating : option string;
  r_reliable_steps : option nat;
  r_unreliable_steps : option nat;
  error : option string }.

(** What an endpoint answers: a body, or an HTTPException. *)
Inductive reply (A : Type) : Type :=
| Reply (body : A)
| HTTPException (status_code : nat) (detail : string).
Arguments Reply {A} body.
Arguments HTTPException {A} status_code detail.

(** [reliable_steps / total_actions] of a quality report. *)
Definition reliable_share (q : quality_report) : Q :=
  inject_Z (Z.of_nat (reliable_steps q)) / inject_Z (Z.of_nat (total_actions q)).

(** The ladder of ratings, shared by the two endpoints. *)
Definition rate (quality : Q) : string :=
  if Qleb (9 # 10) quality then "very_reliable"
  else if Qleb (75 # 100) quality then "mostly_reliable"
  else if Qleb (5 # 10) quality then "somewhat_reliable"
  else "needs_improvement".

(** One entry of the preview. *)
Record sample_check : Type := {
  sc_action : nat;
  sc_type : string;
  sc_target : string;
  sc_checks_passed : nat;
  sc_confidence : string;
  sc_reliable : bool }.

Record preview : Type := {
  p_learning_id : string;
  p_total_actions : nat;
  sample_size : nat;
  estimated_reliability : Q;
  estimated_rating : string;
  sample_results : list sample_check }.

Section Endpoints.

(** The collaborators: the file system and the OCR library of the
    converter, the loader of recorded sessions, the two readings of the
    clock, the writer of automation files, and the renderings of the
    refusal message and of an exception. *)
Variable path_exists : string -> bool.
Variable easyocr_readtext : string -> result (list (string * Q)).
Variable load_learning_session : string -> result (list action).
Variable stamp iso : string.
Variable save_automation : automation -> string -> result string.
Variable quality_message : Q -> Q -> string.
Variable str_exn : exn -> string.

(** The two [except] clauses of the export endpoint. *)
Definition export_handler {A : Type} (id : string) (e : exn) : reply A :=
  match e with
  | FileNotFoundError _ =>
      HTTPException 404 ("Learning session '" ++ id ++ "' not found")
  | _ => HTTPException 500 ("Quality check failed: " ++ str_exn e)
  end.

Definition export_with_quality_checks (request : export_request)
  : reply export_response :=
  let id := learning_id request in
  match convert_to_automation path_exists easyocr_readtext
          (load_learning_session id) id (automation_name request) stamp iso with
  | Raise e => export_handler id e
  | Ok automation =>
      let quality_report := au_quality_report automation in
      if (total_actions quality_report =? 0)%nat
      then HTTPException 500 "Quality check failed: division by zero"
      else
        let reliability_rate :=
          inject_Z (Z.of_nat (reliable_steps quality_report))
          / inject_Z (Z.of_nat (total_actions quality_report)) in
        let rating := rate reliability_rate in
        if Qltb reliability_rate (quality_threshold request)
        then Reply
          {| success := false;
             r_automation_name := None;
             file_path := None;
             r_quality_report := Some quality_report;
             reliability_rating := Some rating;
             r_reliable_steps := None;
             r_unreliable_steps := None;
             error :=
               Some (quality_message reliability_rate (quality_threshold request)) |}
        else
          let name :=
            match automation_name request with
            | Some n => if PyStr.truthy n then n else "checked_" ++ id
            | None => "checked_" ++ id
            end in
          match save_automation automation name with
          | Raise e => export_handler id e
          | Ok path =>
              Reply
                {| success := true;
                   r_automation_name := Some name;
                   file_path := Some path;
                   r_quality_report := Some quality_report;
                   reliability_rating := Some rating;
                   r_reliable_steps := Some (reliable_steps quality_report);
                   r_unreliable_steps := Some (unreliable_steps quality_report);
                   error := None |}
          end
  end.

(** The loop of the preview over [enumerate(actions[:5])]; [i] is the
    index of the first action of [sample]. *)
Fixpoint sample_checks_from (sample : list action) (i : nat)
    (sample_checks : list sample_check) : result (list sample_check) :=
  match sample with
  | [] => Ok sample_checks
  | a :: rest =>
      let* check_results := run_checks path_exists easyocr_readtext a in
      let* ev :=
        match event a with
        | Some ev => Ok ev
        | None => Raise (KeyError "event")
        end in
      sample_checks_from rest (S i)
        (sample_checks ++
         [{| sc_action := (i + 1)%nat;
             sc_type := ev;
             sc_target := target check_results;
             sc_checks_passed := checks_passed (summary_of check_results);
             sc_confidence := confidence (summary_of check_results);
             sc_reliable := reliable (summary_of check_results) |}])%list
  end.

Definition preview_handler {A : Type} (id : string) (e : exn) : reply A :=
  match e with
  | FileNotFoundError _ =>
      HTTPException 404 ("Learning session '" ++ id ++ "' not found")
  | _ => HTTPException 500 ("Preview failed: " ++ str_exn e)
  end.

Definition preview_quality_checks (id : string) : reply preview :=
  match load_learning_session id with
  | Raise e => preview_handler id e
  | Ok actions =>
      match sample_checks_from (take 5 actions) 0 [] with
      | Raise e => preview_handler id e
      | Ok sample_checks =>
          let sample_reliable :=
            length (filter (fun c => sc_reliable c = true) sample_checks) in
          let estimated_quality :=
            match sample_checks with
            | [] => 0
            | _ => inject_Z (Z.of_nat sample_reliable)
                   / inject_Z (Z.of_nat (length sample_checks))
            end in
          Reply
            {| p_learning_id := id;
               p_total_actions := length actions;
               sample_size := length sample_checks;
               estimated_reliability := estimated_quality;
               estimated_rating := rate estimated_quality;
               sample_results := sample_checks |}
      end
  end.

End Endpoints.

(** *** A sample deployment *)

Definition sample_store (id : string) : result (list action) :=
  if String.eqb id "session" then Ok sample_session
  else if String.eqb id "scrolling" then Ok [click_centre; scroll_action]
  else if String.eqb id "long" then
    Ok [click_centre; type_hello; click_centre; type_hello; click_centre;
        scroll_action]
  else if String.eqb id "typing" then Ok [type_hello; type_hello]
  else if String.eqb id "empty" then Ok []
  else Raise (FileNotFoundError ("Learning session " ++ id ++ " not found")).

Definition sample_save (au : automation) (name : string) : result string :=
  Ok ("codex/" ++ name ++ ".json").

Definition sample_export : export_request -> reply export_response :=
  export_with_quality_checks no_files no_ocr sample_store
    "20250101_0900" "2025-01-01T09:00:00" sample_save
    (fun _ _ => "Quality too low") (fun _ => "error").

Definition sample_preview : string -> reply preview :=
  preview_quality_checks no_files no_ocr sample_store (fun _ => "error").

Definition ask (id : string) (threshold : Q) : export_request :=
  {| learning_id := id; automation_name := None; quality_threshold := threshold |}.

End QualityApi.


(** ** Map fusion engine ([reading/vision_fusion.py]) *)

Module Fusion.
Local Open Scope Q_scope.

(** A box [x, y, w, h]. *)
Record box : Type := { bx : Q; by_ : Q; bw : Q; bh : Q }.

(** An entry of a treasure map. *)
Record block : Type := {
  b_type : string;
  label : string;
  position : box;
  source : string }.

(** A raw text detection of the OCR result: [bbox] is the list the
    recogniser returned. *)
Record text_block : Type := { text : string; bbox : list Q }.

Definition VISION_ENABLED : bool := false.

Definition _build_ocr_blocks (ocr_result : list text_block) (normalize_topdown : bool)
  : list block :=
  flat_map
    (fun tb =>
       let t := PyStr.strip (text tb) in
       match bbox tb with
       | [x; y; w; h] =>
           if PyStr.truthy t then
             [{| b_type := "text"; label := t;
                 position :=
                   if normalize_topdown
                   then {| bx := x; by_ := 1 - y - h; bw := w; bh := h |}
                   else {| bx := x; by_ := y; bw := w; bh := h |};
                 source := "ocr" |}]
           else []
       | _ => []
       end)
    ocr_result.

(** [max(a, b)] and [min(a, b)]: the first argument wins a tie. *)
Definition qmax (a b : Q) : Q := if Qltb a b then b else a.
Definition qmin (a b : Q) : Q := if Qltb b a then b else a.

Definition iou (boxA boxB : box) : Q :=
  let xA := qmax (bx boxA) (bx boxB) in
  let yA := qmax (by_ boxA) (by_ boxB) in
  let xB := qmin (bx boxA + bw boxA) (bx boxB + bw boxB) in
  let yB := qmin (by_ boxA + bh boxA) (by_ boxB + bh boxB) in
  let interWidth := qmax 0 (xB - xA) in
  let interHeight := qmax 0 (yB - yA) in
  let interArea := interWidth * interHeight in
  let boxAArea := bw boxA * bh boxA in
  let boxBArea := bw boxB * bh boxB in
  interArea / (boxAArea + boxBArea - interArea + (1 # 1000000)).

(** The square of the distance between the centres of two boxes. *)
Definition center_dist2 (boxA boxB : box) : Q :=
  let cax := bx boxA + bw boxA / 2 in
  let cay := by_ boxA + bh boxA / 2 in
  let cbx := bx boxB + bw boxB / 2 in
  let cby := by_ boxB + bh boxB / 2 in
  (cax - cbx) * (cax - cbx) + (cay - cby) * (cay - cby).

(** [dist < threshold], where [dist] is the square root of
    [center_dist2]: the squares are compared. *)
Definition is_center_near (boxA boxB : box) (threshold : Q) : bool :=
  Qltb 0 threshold && Qltb (center_dist2 boxA boxB) (threshold * threshold).

Fixpoint enumerate_from {A : Type} (i : nat) (l : list A) : list (nat * A)%type :=
  match l with
  | [] => []
  | x :: r => (i, x) :: enumerate_from (S i) r
  end.
Definition enumerate {A : Type} (l : list A) : list (nat * A)%type := enumerate_from 0%nat l.

Section Loop.

(** The size of the screenshot in pixels. *)
Variables width height : positive.

Definition fw : Q := inject_Z (Zpos width).
Definition fh : Q := inject_Z (Zpos height).

(** The component box, given in pixels, in normalised coordinates. *)
Definition cv_norm (cv_bbox : box) : box :=
  {| bx := bx cv_bbox / fw; by_ := by_ cv_bbox / fh;
     bw := bw cv_bbox / fw; bh := bh cv_bbox / fh |}.

(** The text box, given in normalised coordinates, in pixels. *)
Definition ocr_pix (ocr_bbox : box) : box :=
  {| bx := bx ocr_bbox * fw; by_ := by_ ocr_bbox * fh;
     bw := bw ocr_bbox * fw; bh := bh ocr_bbox * fh |}.

(** The test of the inner loop for one text entry and one component
    entry. *)
Definition pair_matches (ocr cv : block) : bool :=
  let iou_val := iou (position ocr) (cv_norm (position cv)) in
  Qltb (5 # 100) iou_val || is_center_near (ocr_pix (position ocr)) (position cv) 30.

Definition overlapping_of (ocr : block) : block :=
  {| b_type := "block"; label := label ocr; position := position ocr;
     source := "overlapping" |}.

(** The state of the two nested loops: [matched_ocr], [matched_cv],
    [final_blocks]. *)
Definition fstate : Type := (gset nat * gset nat * list block)%type.

Definition inner_step (i : nat) (ocr : block) (st : fstate) (jc : nat * block)
  : fstate :=
  let '(matched_ocr, matched_cv, final_blocks) := st in
  if pair_matches ocr (snd jc)
  then ({[ i ]} ∪ matched_ocr, {[ fst jc ]} ∪ matched_cv,
        (final_blocks ++ [overlapping_of ocr])%list)
  else st.

Definition outer_step (cv_blocks : list block) (st : fstate) (io : nat * block)
  : fstate :=
  fold_left (inner_step (fst io) (snd io)) (enumerate cv_blocks) st.

Definition unmatched (matched : gset nat) (l : list block) : list block :=
  map snd (filter (fun ib => fst ib ∉ matched) (enumerate l)).

(** The fusion of [generate_combined_treasure_map], from the two
    lists of blocks to [final_blocks]. *)
Definition fuse (ocr_blocks cv_blocks : list block) : list block :=
  let '(matched_ocr, matched_cv, final_blocks) :=
    fold_left (outer_step cv_blocks) (enumerate ocr_blocks) (∅, ∅, []) in
  (final_blocks ++ unmatched matched_ocr ocr_blocks
                ++ unmatched matched_cv cv_blocks)%list.

Definition cv_only (ui_blocks : list block) : list block :=
  filter (fun b => source b = "cv") ui_blocks.

(** [generate_treasure_map]: the component layer contributes only
    when [VISION_ENABLED]. *)
Definition generate_treasure_map (image_exists : bool)
    (ocr_result : list text_block) (ui_blocks : list block)
  : result (list block) :=
  if negb image_exists then Raise (FileNotFoundError "Image not found")
  else
    Ok (_build_ocr_blocks ocr_result false
          ++ (if VISION_ENABLED then ui_blocks else []))%list.

(** [generate_combined_treasure_map]: with [VISION_ENABLED] off the
    text blocks are returned as they are, converted to a top-left
    origin.  The fusion branch is the one the source keeps for the full
    vision stack (its image library import is commented out in this
    build). *)
Definition generate_combined_treasure_map (image_exists : bool)
    (ocr_result : list text_block) (ui_blocks : list block)
  : result (list block) :=
  if negb image_exists then Raise (FileNotFoundError "Image not found")
  else if negb VISION_ENABLED then Ok (_build_ocr_blocks ocr_result true)
  else Ok (fuse (_build_ocr_blocks ocr_result true) (cv_only ui_blocks)).

End Loop.

(** [abs(x)] *)
Definition py_abs (q : Q) : Q := if Qltb q 0 then - q else q.

(** [match_blocks_to_click]: the entries whose centre is less than
    [threshold] away from the click on both axes.  The click is given
    with its Y counted from the bottom, the entries with theirs from
    the top. *)
Definition match_blocks_to_click (click_pos : option (Q * Q))
    (treasure_map : list block) (threshold : Q) : list block :=
  match click_pos, treasure_map with
  | None, _ => []
  | _, [] => []
  | Some (click_x, click_y0), _ =>
      let click_y := 1 - click_y0 in
      filter
        (fun b =>
           let center_x := bx (position b) + bw (position b) / 2 in
           let center_y := by_ (position b) + bh (position b) / 2 in
           let dx := py_abs (center_x - click_x) in
           let dy := py_abs (center_y - click_y) in
           Qltb dx threshold && Qltb dy threshold = true)
        treasure_map
  end.

(** [generate_pixel_treasure_map]: every entry of the stored map with
    the [pixel_position] the loop attaches to it; [width] and [height]
    are the size of the image. *)
Definition pixel_position (width height : positive) (b : box) : list Z :=
  [py_int (bx b * inject_Z (Zpos width)); py_int (by_ b * inject_Z (Zpos height));
   py_int (bw b * inject_Z (Zpos width)); py_int (bh b * inject_Z (Zpos height))].

Definition generate_pixel_treasure_map (image_exists : bool) (width height : positive)
    (treasure_map : list block) : result (list (block * list Z)) :=
  if negb image_exists then Raise (FileNotFoundError "Image not found")
  else Ok (map (fun b => (b, pixel_position width height (position b))) treasure_map).

(** *** Vocabulary of the statements about boxes *)

(** The same box with its Y counted from the other edge. *)
Definition flip_box (b : box) : box :=
  {| bx := bx b; by_ := 1 - by_ b - bh b; bw := bw b; bh := bh b |}.

Definition flip_block (b : block) : block :=
  {| b_type := b_type b; label := label b; position := flip_box (position b);
     source := source b |}.

(** Two boxes that share no area: one ends before the other begins,
    on one axis. *)
Definition apart (a b : box) : Prop :=
  bx a + bw a <= bx b \/ bx b + bw b <= bx a
  \/ by_ a + bh a <= by_ b \/ by_ b + bh b <= by_ a.

(** A box that lies in the frame: it starts at or after the origin, has
    positive width and height, and ends at or before the far edges. *)
Definition box_in_frame (b : box) : Prop :=
  0 <= bx b /\ 0 <= by_ b /\ 0 < bw b /\ 0 < bh b
  /\ bx b + bw b <= 1 /\ by_ b + bh b <= 1.

(** A box of non-negative width and height. *)
Definition proper_box (b : box) : Prop := 0 <= bw b /\ 0 <= bh b.


Definition in_unit (q : Q) : Prop := 0 <= q /\ q <= 1.

(** Each of [x, y, w, h] lies in [[0, 1]]. *)
Definition unit_box (b : box) : Prop :=
  in_unit (bx b) /\ in_unit (by_ b) /\ in_unit (bw b) /\ in_unit (bh b).

(** A raw box of four coordinates in [[0, 1]]. *)
Definition unit_bbox (l : list Q) : Prop :=
  match l with
  | [x; y; w; h] => in_unit x /\ in_unit y /\ in_unit w /\ in_unit h
  | _ => True
  end.

(** A raw box of four coordinates in [[0, 1]] whose top edge [y + h]
    does not leave the frame. *)
Definition inside_frame (l : list Q) : Prop :=
  match l with
  | [x; y; w; h] => in_unit x /\ in_unit y /\ in_unit w /\ in_unit h /\ y + h <= 1
  | _ => True
  end.

(** The component entries, with their indices, that match a text entry. *)
Definition matching (width height : positive) (o : block) (cvE : list (nat * block))
  : list (nat * block) :=
  filter (fun jc => pair_matches width height o (snd jc) = true) cvE.

(** The matching pairs, in the order of the two loops. *)
Definition matching_pairs (width height : positive) (ocrE cvE : list (nat * block))
  : list ((nat * block) * (nat * block)) :=
  flat_map (fun io => map (fun jc => (io, jc)) (matching width height (snd io) cvE)) ocrE.

(** *** Sample detections *)

Definition save_text : text_block :=
  {| text := "Save"; bbox := [1 # 10; 8 # 10; 1 # 10; 5 # 100] |}.
(** A text box whose coordinates are in [[0, 1]] but whose top edge is
    above the frame. *)
Definition tall_text : text_block :=
  {| text := "OK"; bbox := [1 # 10; 8 # 10; 2 # 10; 5 # 10] |}.
Definition cv_button : block :=
  {| b_type := "button"; label := ""; source := "cv";
     position := {| bx := 100; by_ := 150; bw := 100; bh := 50 |} |}.
Definition cv_far : block :=
  {| b_type := "icon"; label := ""; source := "cv";
     position := {| bx := 800; by_ := 800; bw := 50; bh := 50 |} |}.

End Fusion.

(** ** Target resolver ([reading/vision_fusion.py]) *)

Module Resolver.
Import Fusion.
Local Open Scope Q_scope.

(** *** [difflib.SequenceMatcher(None, a, b).ratio()]

    Modelled from the library's documentation: the longest matching
    block is the longest common run, the earliest in [a] and then the
    earliest in [b] among the longest; the blocks to its left and to
    its right are matched in the same way; the ratio is twice the
    number of matched characters over the total length, and 1 for two
    empty strings.  The automatic junk heuristic of the library only
    applies to a second sequence of 200 or more characters and is left
    out. *)

Fixpoint common_prefix (a b : string) : nat :=
  match a, b with
  | String x a', String y b' => if Ascii.eqb x y then S (common_prefix a' b') else O
  | _, _ => O
  end.

(** The best [(i, j, k)] over the start positions, scanned in order;
    only a strictly longer run replaces the current best. *)
Definition find_longest_match (a b : string) : nat * nat * nat :=
  fold_left
    (fun best i =>
       fold_left
         (fun best j =>
            let k := common_prefix (PyStr.drop i a) (PyStr.drop j b) in
            if (snd best <? k)%nat then (i, j, k) else best)
         (seq 0%nat (String.length b)) best)
    (seq 0%nat (String.length a)) (O, O, O).

Fixpoint matched_chars (fuel : nat) (a b : string) : nat :=
  match fuel with
  | O => O
  | S fuel' =>
      let '(i, j, k) := find_longest_match a b in
      if (k =? 0)%nat then O
      else (matched_chars fuel' (PyStr.take i a) (PyStr.take j b)
            + k
            + matched_chars fuel' (PyStr.drop (i + k) a) (PyStr.drop (j + k) b))%nat
  end.

Definition difflib_ratio (a b : string) : Q :=
  let total := (String.length a + String.length b)%nat in
  if (total =? 0)%nat then 1
  else (2 * inject_Z (Z.of_nat (matched_chars (S (String.length a)) a b))
        / inject_Z (Z.of_nat total)).

(** The share [len(target) / len(label)]. *)
Definition length_share (target label : string) : Q :=
  (inject_Z (Z.of_nat (String.length target))
   / inject_Z (Z.of_nat (String.length label)))%Q.

Section Match.

(** The sequence-similarity ratio of the standard library. *)
Variable SequenceMatcher_ratio : string -> string -> Q.

Definition calculate_match_quality (target label : string) : Q :=
  if String.eqb target label then 1
  else if PyStr.contains target label
  then (9 # 10) + (inject_Z (Z.of_nat (String.length target))
                   / inject_Z (Z.of_nat (String.length label))) * (1 # 10)
  else SequenceMatcher_ratio target label.

(** A candidate: [{"block", "similarity", "label"}]. *)
Record candidate : Type := {
  c_block : block;
  similarity : Q;
  c_label : string }.

Definition score_match_generically (m : candidate) (target : string) : Q :=
  let lbl := c_label m in
  let '{| bx := x; by_ := y; bw := w; bh := h |} := position (c_block m) in
  let src := source (c_block m) in
  let score := 0 + similarity m * 40 in
  let element_area := w * h in
  let size_score := qmin (element_area * 100) 10 in
  let score := score + size_score * 2 in
  let position_score :=
    if Qltb (2 # 10) x && Qltb x (8 # 10) && Qltb (2 # 10) y && Qltb y (8 # 10)
    then 8
    else if Qltb (1 # 10) x && Qltb x (9 # 10) && Qltb (1 # 10) y && Qltb y (9 # 10)
    then 5 else 2 in
  let position_score :=
    if Qltb (3 # 10) y then position_score + 2 else position_score in
  let score := score + position_score in
  let ui_score := 0 in
  let ui_score :=
    if Classifier.any_in ["button"; "•"; ">"; "→"; "click"] lbl
    then ui_score + 8 else ui_score in
  let ui_score :=
    if Classifier.any_in ["label:"; "title:"; "header:"; "breadcrumb"] lbl
    then ui_score - 5 else ui_score in
  let ui_score :=
    if Classifier.any_in ["search"; "input"; "|"; "type here"; "enter "] lbl
    then ui_score - 3 else ui_score in
  let score := score + ui_score * (3 # 2) in
  let source_score :=
    if String.eqb src "ocr" then 3
    else if String.eqb src "overlapping" then 5
    else if String.eqb src "cv" then 4 else 0 in
  let score := score + source_score in
  qmax score 0.

(** The candidates of [match_target_in_treasure_map]. *)
Definition candidates (treasure_map : list block) (target_lower : string)
  : list candidate :=
  flat_map
    (fun b =>
       let lbl := PyStr.strip (PyStr.lower (label b)) in
       if PyStr.contains target_lower lbl || PyStr.contains lbl target_lower then
         let sim := calculate_match_quality target_lower lbl in
         if Qltb (1 # 2) sim
         then [{| c_block := b; similarity := sim; c_label := lbl |}] else []
       else [])
    treasure_map.

(** [max(scored, key=lambda x: x[0])]: the first of greatest score. *)
Fixpoint max_scored (best : Q * candidate) (rest : list (Q * candidate))
  : Q * candidate :=
  match rest with
  | [] => best
  | r :: rest' => max_scored (if Qltb (fst best) (fst r) then r else best) rest'
  end.

(** [match_target_in_treasure_map(treasure_map, target)] with
    [return_all] left at [False]. *)
Definition match_target_in_treasure_map (treasure_map : list block) (target : string)
  : option block :=
  match treasure_map with
  | [] => None
  | _ =>
      if negb (PyStr.truthy target) then None
      else
        let target_lower := PyStr.strip (PyStr.lower target) in
        match candidates treasure_map target_lower with
        | [] => None
        | [m] => Some (c_block m)
        | m :: rest =>
            let scored :=
              map (fun m => (score_match_generically m target_lower, m)) (m :: rest) in
            match scored with
            | [] => None
            | s :: srest => Some (c_block (snd (max_scored s srest)))
            end
        end
  end.

End Match.

(** *** A sample entry *)

Definition send_entry : block :=
  {| b_type := "text"; label := "Send";
     position := {| bx := 4 # 10; by_ := 8 # 10;
                           bw := 1 # 10; bh := 5 # 100 |};
     source := "ocr" |}.

Definition send_button : block :=
  {| b_type := "block"; label := "Send message button";
     position := {| bx := 3 # 10; by_ := 4 # 10;
                           bw := 5 # 10; bh := 5 # 10 |};
     source := "overlapping" |}.

(** *** Vocabulary of the further statements *)

Section MatchVocabulary.

Variable SequenceMatcher_ratio : string -> string -> Q.

(** [s.lower().strip()] *)
Definition normalized (s : string) : string := PyStr.strip (PyStr.lower s).

(** The candidate the resolver builds for an entry. *)
Definition candidate_of (target : string) (b : block) : candidate :=
  {| c_block := b;
     similarity :=
       calculate_match_quality SequenceMatcher_ratio
         (normalized target) (normalized (label b));
     c_label := normalized (label b) |}.

(** The entry passes the two filters of the resolver: one of target
    and label contains the other, and the match quality is above
    0.5. *)
Definition decent_match (target : string) (b : block) : Prop :=
  (PyStr.contains (normalized target) (normalized (label b)) = true
   \/ PyStr.contains (normalized (label b)) (normalized target) = true)
  /\ 1 # 2 < similarity (candidate_of target b).

End MatchVocabulary.

End Resolver.

(** ** Line reconstructor ([reading/run_ocr_mac_native.py]) *)

Module Lines.
Import Fusion.
Local Open Scope Q_scope.

(** A filtered, normalised detection: [{"text", "x", "y"}]. *)
Record lblock : Type := { l_text : string; l_x : Q; l_y : Q }.

(** A line under construction: [{"y", "blocks"}]; [line_y] is the [y]
    of the detection that opened the line. *)
Record line : Type := { line_y : Q; line_blocks : list lblock }.

(** The list comprehension that filters and normalises the raw
    detections. *)
Fixpoint normalize_blocks (raw_blocks : list text_block) : result (list lblock) :=
  match raw_blocks with
  | [] => Ok []
  | b :: rest =>
      if PyStr.truthy (text b) && PyStr.truthy (PyStr.strip (text b)) then
        let* x := idx (bbox b) 0 in
        let* y := idx (bbox b) 1 in
        let* rest' := normalize_blocks rest in
        Ok ({| l_text := PyStr.strip (text b);
               l_x := round3 (py_float x);
               l_y := round3 (py_float y) |}
              :: rest')
      else normalize_blocks rest
  end.

(** [sorted(l, key=key)]: stable, ascending in [key]. *)
Fixpoint insert_by {A : Type} (key : A -> Q) (x : A) (l : list A) : list A :=
  match l with
  | [] => [x]
  | y :: l' => if Qltb (key y) (key x) then y :: insert_by key x l' else x :: y :: l'
  end.

Definition sorted_by {A : Type} (key : A -> Q) (l : list A) : list A :=
  foldr (insert_by key) [] l.

(** Order of two elements by their keys. *)
Definition key_le {A : Type} (key : A -> Q) (a b : A) : Prop := key a <= key b.

Definition qabs (q : Q) : Q := if Qltb q 0 then - q else q.

(** [math.isclose(a, b, abs_tol=abs_tol)] on doubles, with the
    default relative tolerance [1e-09]: the difference and the two
    products are rounded. *)
Definition isclose (a b abs_tol : Q) : bool :=
  let rel_tol := py_float (1 # 1000000000) in
  let diff := qabs (fsub b a) in
  Qeq_bool a b
  || Qleb diff (qabs (fmul rel_tol b))
  || Qleb diff (qabs (fmul rel_tol a))
  || Qleb diff abs_tol.

(** The inner [for line in lines] with its [break]: the block goes to
    the first line that is close enough; [None] when no line is. *)
Fixpoint place (y_tolerance : Q) (block : lblock) (lines : list line)
  : option (list line) :=
  match lines with
  | [] => None
  | ln :: rest =>
      if isclose (l_y block) (line_y ln) y_tolerance
      then Some ({| line_y := line_y ln;
                    line_blocks := (line_blocks ln ++ [block])%list |} :: rest)
      else option_map (cons ln) (place y_tolerance block rest)
  end.

Definition group_step (y_tolerance : Q) (lines : list line) (block : lblock)
  : list line :=
  match place y_tolerance block lines with
  | Some lines' => lines'
  | None => (lines ++ [{| line_y := l_y block; line_blocks := [block] |}])%list
  end.

Definition group_lines (y_tolerance : Q) (blocks : list lblock) : list line :=
  fold_left (group_step y_tolerance) (sorted_by (fun b => - l_y b) blocks) [].

(** The loop that merges the blocks of one line; the state is
    [(line_text, prev_x)]. *)
Definition merge_step (x_tolerance : Q) (st : string * option Q) (block : lblock)
  : string * option Q :=
  let '(line_text, prev_x) := st in
  let line_text :=
    match prev_x with
    | Some px => if Qltb x_tolerance (fsub (l_x block) px)
                 then (line_text ++ " ")%string else line_text
    | None => line_text
    end in
  ((line_text ++ l_text block)%string,
   Some (fadd (l_x block)
              (fmul (inject_Z (Z.of_nat (String.length (l_text block))))
                    (py_float (1 # 100))))).

Definition render_line (x_tolerance : Q) (ln : line) : string :=
  fst (fold_left (merge_step x_tolerance) (sorted_by l_x (line_blocks ln))
                 (EmptyString, None)).

Definition reconstruct_with (y_tolerance x_tolerance : Q)
    (raw_blocks : list text_block) : result (list string) :=
  let* blocks := normalize_blocks raw_blocks in
  Ok (map (render_line x_tolerance) (group_lines y_tolerance blocks)).

(** [reconstruct_text_from_ocr(raw_blocks)] with the default
    tolerances. *)
Definition reconstruct_text_from_ocr (raw_blocks : list text_block)
  : result (list string) :=
  reconstruct_with (py_float (15 # 1000)) (py_float (2 # 100)) raw_blocks.

(** *** Vocabulary of the statements about lines *)

(** Where a detection is taken to end: its [x] plus 0.01 per character
    of its text, in floating point. *)
Definition est_right (b : lblock) : Q :=
  fadd (l_x b) (fmul (inject_Z (Z.of_nat (String.length (l_text b))))
                     (py_float (1 # 100))).

(** The text of the detections that follow [prev] on a line: a space
    comes before a detection exactly when it starts more than
    [x_tolerance] after the estimated end of the one before it. *)
Fixpoint join_after (x_tolerance : Q) (prev : lblock) (rest : list lblock) : string :=
  match rest with
  | [] => EmptyString
  | b :: r =>
      ((if Qltb x_tolerance (fsub (l_x b) (est_right prev)) then " " else "")
         ++ l_text b ++ join_after x_tolerance b r)%string
  end.

Definition join_blocks (x_tolerance : Q) (l : list lblock) : string :=
  match l with
  | [] => EmptyString
  | b :: r => (l_text b ++ join_after x_tolerance b r)%string
  end.

(** First fit: every block of a line is close to the [y] that opened
    the line and not above it, and it is not close to the [y] that
    opened any line before, none of which lies below it. *)
Definition first_fit (tol : Q) (lines : list line) : Prop :=
  forall i ln b,
    lines !! i = Some ln -> b ∈ line_blocks ln ->
    isclose (l_y b) (line_y ln) tol = true
    /\ l_y b <= line_y ln
    /\ forall j ln',
         (j < i)%nat -> lines !! j = Some ln' ->
         isclose (l_y b) (line_y ln') tol = false /\ l_y b <= line_y ln'.

(** The [y] of a line is that of its first block. *)
Definition opened_by_first (ln : line) : Prop :=
  exists b rest, line_blocks ln = b :: rest /\ line_y ln = l_y b.

(** What holds of the lines built from the blocks [P] read so far. *)
Definition lines_inv (tol : Q) (lines : list line) (P : list lblock) : Prop :=
  concat (map line_blocks lines) ≡ₚ P
  /\ first_fit tol lines
  /\ Forall opened_by_first lines.

(** The test of the comprehension: the detection has a text that is
    not blank. *)
Definition legible (tb : text_block) : bool :=
  PyStr.truthy (text tb) && PyStr.truthy (PyStr.strip (text tb)).

(** The raw detections whose [y] lies in the unit interval. *)
Definition y_in_frame (tb : text_block) : Prop :=
  forall y, bbox tb !! 1%nat = Some y -> 0 <= y /\ y <= 1.

(** A detection that has both coordinates of its corner. *)
Definition has_corner (tb : text_block) : Prop := (2 <= length (bbox tb))%nat.

(** What the comprehension makes of a detection it keeps. *)
Definition normal_form (tb : text_block) : lblock :=
  {| l_text := PyStr.strip (text tb);
     l_x := round3 (py_float (default 0 (bbox tb !! 0%nat)));
     l_y := round3 (py_float (default 0 (bbox tb !! 1%nat))) |}.

(** The two tolerances of the source, as doubles. *)
Definition y_tol : Q := py_float (15 # 1000).
Definition x_tol : Q := py_float (2 # 100).

(** How far the rounding of the subtraction and of the tolerance can
    move the threshold 0.015 of the closeness test: less than
    [1e-17]. *)
Definition slack : Q := 1 # 100000000000000000.

(** *** Sample detections *)

Definition detection (t : string) (x y w : Q) : text_block :=
  {| text := t; bbox := [x; y; w; 2 # 100] |}.

(** Three detections, each 0.01 below the one before. *)
Definition staircase : list text_block :=
  [detection "a" (10 # 100) (50 # 100) (1 # 100);
   detection "b" (30 # 100) (49 # 100) (1 # 100);
   detection "c" (50 # 100) (48 # 100) (1 # 100)].

(** Two words in small print: the first box is 0.02 wide and the second
    starts 0.025 after its end. *)
Definition small_print : list text_block :=
  [detection "Hello" (100 # 1000) (50 # 100) (20 # 1000);
   detection "World" (145 # 1000) (50 # 100) (20 # 1000)].

(** Two detections whose [y] are written 0.015 apart, and two whose
    [x] are written 0.03 apart, the first with a text of one
    character. *)
Definition boundary_pair : list text_block :=
  [detection "a" (10 # 100) (500 # 1000) (1 # 100);
   detection "b" (30 # 100) (485 # 1000) (1 # 100)].

Definition tight_pair : list text_block :=
  [detection "a" (10 # 100) (50 # 100) (1 # 100);
   detection "b" (13 # 100) (50 # 100) (1 # 100)].

End Lines.

(** ** Execution guard ([action/sprint_agent.py]) *)

Module Guard.
Import Fusion.

(** The values held by steps and by the task context. *)
Inductive pyval : Type :=
| VNone
| VStr (s : string)
| VInt (z : Z)
| VFloat (q : Q)
| VList (l : list Q)
| VTuple (l : list Z)
| VDict (d : list (string * string)).

(** A dictionary with string keys, in insertion order. *)
Abbreviation dict := (list (string * pyval)).

Fixpoint dict_get (d : dict) (k : string) : option pyval :=
  match d with
  | [] => None
  | (k', v) :: rest => if String.eqb k' k then Some v else dict_get rest k
  end.

(** [d[k] = v]: an existing key keeps its place. *)
Fixpoint dict_set (d : dict) (k : string) (v : pyval) : dict :=
  match d with
  | [] => [(k, v)]
  | (k', v') :: rest =>
      if String.eqb k' k then (k', v) :: rest else (k', v') :: dict_set rest k v
  end.

(** [d.get(k)] *)
Definition get (d : dict) (k : string) : pyval := default VNone (dict_get d k).

(** [k in d] *)
Definition has_key (d : dict) (k : string) : bool :=
  match dict_get d k with Some _ => true | None => false end.

Definition truthy (v : pyval) : bool :=
  match v with
  | VNone => false
  | VStr s => PyStr.truthy s
  | VInt z => negb (Z.eqb z 0)
  | VFloat q => negb (Qeq_bool q 0)
  | VList l => match l with [] => false | _ => true end
  | VTuple l => match l with [] => false | _ => true end
  | VDict d => match d with [] => false | _ => true end
  end.

(** A string method called on a value: only strings have it. *)
Definition as_str (v : pyval) : result string :=
  match v with
  | VStr s => Ok s
  | _ => Raise AttributeError
  end.

(** *** Placeholder resolution *)

Section Resolve.

(** [str(v)] for the values that are neither strings nor [None]. *)
Variable py_repr : pyval -> string.

(** [str(ctx_val) if ctx_val is not None else ""] *)
Definition safe_val (v : pyval) : string :=
  match v with
  | VNone => ""
  | VStr s => s
  | _ => py_repr v
  end.

(** Method 1: one direct replacement per context entry, in the order
    of the context. *)
Definition direct_pass (task_context : dict) (val : string) : string :=
  fold_left
    (fun new_val kv =>
       let placeholder := "{" ++ fst kv ++ "}" in
       if PyStr.contains placeholder new_val
       then PyStr.replace placeholder (safe_val (snd kv)) new_val
       else new_val)
    task_context val.

(** The text up to the first closing brace, if there is one. *)
Fixpoint until_close (s : string) : option string :=
  match s with
  | EmptyString => None
  | String c r =>
      if Ascii.eqb c "}"%char then Some EmptyString
      else option_map (String c) (until_close r)
  end.

(** [regex_replace]: the replacement of one match whose group is
    [content]. *)
Definition regex_replace (task_context : dict) (content : string) : string :=
  let placeholder_content := PyStr.strip content in
  match dict_get task_context placeholder_content with
  | Some ctx_val => safe_val ctx_val
  | None => "{" ++ content ++ "}"
  end.

(** Method 2: [re.sub(r"\{\s*([^}]+)\s*\}", regex_replace, s)].  A
    match starts at an opening brace followed by at least one
    character other than a closing brace and then a closing brace;
    the scan resumes after the match.  [skip] counts the characters
    of the current match still to be consumed. *)
Fixpoint regex_pass_from (task_context : dict) (skip : nat) (s : string) : string :=
  match s with
  | EmptyString => EmptyString
  | String c r =>
      match skip with
      | S k => regex_pass_from task_context k r
      | O =>
          if Ascii.eqb c "{"%char then
            match until_close r with
            | Some (String c' content') =>
                regex_replace task_context (String c' content')
                  ++ regex_pass_from task_context (S (S (String.length content'))) r
            | _ => String c (regex_pass_from task_context O r)
            end
          else String c (regex_pass_from task_context O r)
      end
  end.

Definition regex_pass (task_context : dict) (s : string) : string :=
  regex_pass_from task_context O s.

Definition resolve_value (task_context : dict) (val : pyval) : pyval :=
  match val with
  | VStr s => VStr (regex_pass task_context (direct_pass task_context s))
  | _ => val
  end.

Definition resolve_step_placeholders (step : dict) (task_context : dict) : dict :=
  map (fun kv => (fst kv, resolve_value task_context (snd kv))) step.

(** The refusal test of the replay loop: some string field still
    holds an opening and a closing brace. *)
Definition has_unresolved (step : dict) : bool :=
  existsb
    (fun kv =>
       match snd kv with
       | VStr s => PyStr.contains "{" s && PyStr.contains "}" s
       | _ => false
       end)
    step.

(** A step none of whose string fields holds an opening brace. *)
Definition plain_step (step : dict) : Prop :=
  forall k s, (k, VStr s) ∈ step -> PyStr.contains "{" s = false.

(** *** Vocabulary of the statements about placeholders *)

(** A text with placeholders, cut at the braces: pieces of plain text
    and placeholders [{content}]. *)
Inductive segment : Type :=
| Text (t : string)
| Hole (content : string).

Definition render_segment (g : segment) : string :=
  match g with
  | Text t => t
  | Hole c => "{" ++ c ++ "}"
  end.

Fixpoint render (segs : list segment) : string :=
  match segs with
  | [] => EmptyString
  | g :: rest => render_segment g ++ render rest
  end.

Definition no_brace (c : ascii) : bool :=
  negb (Ascii.eqb c "{") && negb (Ascii.eqb c "}").

(** A string that holds no brace. *)
Definition brace_free (s : string) : Prop := PyStr.all_chars no_brace s.

(** The pieces of text hold no brace, and a placeholder holds at least
    one character and no brace. *)
Definition well_formed (g : segment) : Prop :=
  match g with
  | Text t => brace_free t
  | Hole c => c <> EmptyString /\ brace_free c
  end.

Definition template (segs : list segment) : Prop := Forall well_formed segs.

(** A context whose names, and whose values once written out, hold no
    brace. *)
Definition tidy_context (task_context : dict) : Prop :=
  Forall (fun kv => brace_free (fst kv) /\ brace_free (safe_val (snd kv))) task_context.

(** What a placeholder stands for: the value under its content taken
    as it is, else the value under its content without the
    surrounding white space, else the placeholder itself. *)
Definition fill_segment (task_context : dict) (g : segment) : string :=
  match g with
  | Text t => t
  | Hole c =>
      match dict_get task_context c with
      | Some v => safe_val v
      | None =>
          match dict_get task_context (PyStr.strip c) with
          | Some v => safe_val v
          | None => "{" ++ c ++ "}"
          end
      end
  end.

Fixpoint fill (task_context : dict) (segs : list segment) : string :=
  match segs with
  | [] => EmptyString
  | g :: rest => fill_segment task_context g ++ fill task_context rest
  end.

(** One segment after the replacement of [{k}] by [v], and after the
    whole direct pass. *)
Definition subst1 (k v : string) (g : segment) : segment :=
  match g with
  | Hole c => if String.eqb c k then Text v else g
  | Text _ => g
  end.

Definition direct_segment (task_context : dict) (g : segment) : segment :=
  match g with
  | Hole c =>
      match dict_get task_context c with
      | Some v => Text (safe_val v)
      | None => g
      end
  | Text _ => g
  end.

(** A string that holds no opening brace. *)
Definition no_open (s : string) : Prop :=
  PyStr.all_chars (fun c => negb (Ascii.eqb c "{")) s.

(** A placeholder of the text that the context cannot fill. *)
Definition unknown_hole (task_context : dict) (segs : list segment) (c : string) : Prop :=
  Hole c ∈ segs
  /\ dict_get task_context c = None
  /\ dict_get task_context (PyStr.strip c) = None.

End Resolve.

(** *** The adapter and [execute_action] *)

(** The calls made on the automation adapter. *)
Inductive effect : Type :=
| EOpenUrl (url : string)
| EMoveMouse (x y : Z) (duration : pyval)
| EClick (x y : Z)
| EKeyCombo (modifiers : list string) (key : string)
| EArrowKey (direction : string)
| ETabKey
| EPressKey (key : string)
| EPasteText (text : string).

Definition as_list (v : pyval) : result (list Q) :=
  match v with
  | VList l => Ok l
  | _ => Raise TypeError
  end.

(** The renaming of modifier keys. *)
Definition map_key (k : string) : string :=
  if String.eqb k "cmd" || String.eqb k "command" then "command"
  else if String.eqb k "ctrl" || String.eqb k "control" then "ctrl"
  else if String.eqb k "shift" then "shift"
  else if String.eqb k "opt" || String.eqb k "option" || String.eqb k "alt" then "option"
  else k.

(** [l[:-1]] and [l[-1]] of a non-empty list. *)
Fixpoint init_last {A : Type} (x : A) (l : list A) : list A * A :=
  match l with
  | [] => ([], x)
  | y :: l' => let '(i, z) := init_last y l' in (x :: i, z)
  end.

(** The squared distance in pixels between two points. *)
Definition dist2 (x1 y1 x2 y2 : Z) : Z :=
  (x1 - x2) * (x1 - x2) + (y1 - y2) * (y1 - y2).

Section Exec.

Variable py_repr : pyval -> string.
Variable SequenceMatcher_ratio : string -> string -> Q.
(** Whether the two optional libraries were imported, and the size
    the screen reports. *)
Variable pyautogui_loaded : bool.
Variable pyperclip_loaded : bool.
Variable screen_size : Z * Z.
(** The product of a coordinate and a screen dimension as the
    interpreter computes it: [float_product] on CPython. *)
Variable float_mul : Q -> Q -> Q.

Definition get_screen_size : result (Z * Z) :=
  if pyautogui_loaded then Ok screen_size
  else Raise (RuntimeError "PyAutoGUI not available; cannot get screen size").

Definition adapter_click (x y : Z) : result (list effect) :=
  if pyautogui_loaded then Ok [EClick x y]
  else Raise (RuntimeError "PyAutoGUI not available on this platform").

Definition move_mouse (x y : Z) (duration : pyval) : result (list effect) :=
  if pyautogui_loaded then Ok [EMoveMouse x y duration]
  else Raise (RuntimeError "PyAutoGUI not available on this platform").

Definition paste_text (text : string) : result (list effect) :=
  if negb pyautogui_loaded
  then Raise (RuntimeError "PyAutoGUI not available; cannot paste text")
  else if negb pyperclip_loaded
  then Raise (RuntimeError "Pyperclip not available; cannot access clipboard")
  else Ok [EPasteText text].

(** A key call placed inside [try ... except Exception]: without the
    library nothing is pressed and nothing is raised. *)
Definition guarded_key (e : effect) : list effect :=
  if pyautogui_loaded then [e] else [].

(** [int(c[0] * screen_w), int(c[1] * screen_h)] *)
Definition direct_pixels (direct_coords : pyval) : result (Z * Z) :=
  let* (screen_w, screen_h) := get_screen_size in
  let* l := as_list direct_coords in
  let* c0 := idx l 0 in
  let final_x := py_int (float_mul c0 (inject_Z screen_w)) in
  let* c1 := idx l 1 in
  let final_y := py_int (float_mul c1 (inject_Z screen_h)) in
  Ok (final_x, final_y).

(** The centre, in pixels, of a matched block. *)
Definition center_pixels (b : block) : result (Z * Z) :=
  let '{| bx := x; by_ := y; bw := w; bh := h |} := position b in
  let* (screen_w, screen_h) := get_screen_size in
  let x_px := py_int (float_mul x (inject_Z screen_w)) in
  let y_px := py_int (float_mul y (inject_Z screen_h)) in
  let w_px := py_int (float_mul w (inject_Z screen_w)) in
  let h_px := py_int (float_mul h (inject_Z screen_h)) in
  Ok (x_px + w_px / 2, y_px + h_px / 2)%Z.

(** [a.lower().strip() == b.lower().strip()] *)
Definition same_target (a b : pyval) : result bool :=
  let* sa := as_str a in
  let* sb := as_str b in
  Ok (String.eqb (PyStr.strip (PyStr.lower sa)) (PyStr.strip (PyStr.lower sb))).

(** The duplicate-click test, written twice in the source (direct
    coordinates and matched target) with the same text: the value of
    [should_click]. *)
Definition should_click (task_context : option dict) (final_x final_y : Z)
    (target : pyval) : result bool :=
  match task_context with
  | None => Ok true
  | Some tc =>
      match tc with [] => Ok true | _ =>
        match dict_get tc "last_click_coords", dict_get tc "last_click_target" with
        | Some last_coords, Some last_target =>
            match last_coords with
            | VTuple (last_x_px :: last_y_px :: _) =>
                let d2 := dist2 final_x final_y last_x_px last_y_px in
                if (d2 <=? 4)%Z then Ok false
                else if (d2 <? 225)%Z then
                  let* same := same_target target last_target in
                  Ok (negb same)
                else Ok true
            | _ => Ok true
            end
        | _, _ => Ok true
        end
      end
  end.

(** What follows the test: the click and the update of the context. *)
Definition click_or_skip (now : Q) (task_context : option dict)
    (final_x final_y : Z) (target : pyval)
  : result (option dict * list effect) :=
  let* go := should_click task_context final_x final_y target in
  if (go : bool) then
    let* effects := adapter_click final_x final_y in
    Ok (option_map
          (fun tc =>
             dict_set
               (dict_set
                  (dict_set tc "last_click_coords" (VTuple [final_x; final_y]))
                  "last_click_target" target)
               "last_click_time" (VFloat now))
          task_context,
        effects)
  else
    Ok (option_map (fun tc => dict_set tc "last_skipped_target" target) task_context,
        []).

(** [match_target_in_treasure_map(treasure_map, target)] for a truthy
    [target]: an empty map answers [None] before the target is read as
    a string. *)
Definition match_target (treasure_map : list block) (target : pyval)
  : result (option block) :=
  match treasure_map with
  | [] => Ok None
  | _ =>
      let* t := as_str target in
      Ok (Resolver.match_target_in_treasure_map SequenceMatcher_ratio treasure_map t)
  end.

Definition store_move (task_context : option dict) (final_x final_y : Z)
    (target : pyval) : option dict :=
  option_map
    (fun tc =>
       dict_set (dict_set tc "last_move_coords" (VTuple [final_x; final_y]))
                "last_move_target" target)
    task_context.

(** [execute_action(parsed_action, treasure_map, task_context)];
    [now] is the reading of the clock.  The result is the context
    after the call and the adapter calls made. *)
Definition execute_action (now : Q) (parsed_action : dict)
    (treasure_map : list block) (task_context : option dict)
  : result (option dict * list effect) :=
  let action_type := default (VStr "") (dict_get parsed_action "type") in
  let is_type (name : string) :=
    match action_type with VStr s => String.eqb s name | _ => false end in
  if is_type "open" then
    let* target := as_str (default (VStr "") (dict_get parsed_action "target")) in
    if PyStr.startswith target "http"
    then Ok (task_context, [EOpenUrl target])
    else Ok (task_context, [])
  else if is_type "move" || is_type "hover" then
    let target := get parsed_action "target" in
    let direct_coords := get parsed_action "coordinates" in
    let duration := default (VFloat (1 # 2)) (dict_get parsed_action "duration") in
    if truthy direct_coords then
      let* (final_x, final_y) := direct_pixels direct_coords in
      let* effects := move_mouse final_x final_y duration in
      Ok (store_move task_context final_x final_y target, effects)
    else if truthy target then
      let* found := match_target treasure_map target in
      match found with
      | Some b =>
          let* (final_x, final_y) := center_pixels b in
          let* effects := move_mouse final_x final_y duration in
          Ok (store_move task_context final_x final_y target, effects)
      | None => Ok (task_context, [])
      end
    else Ok (task_context, [])
  else if is_type "click" then
    let target := get parsed_action "target" in
    let direct_coords := get parsed_action "coordinates" in
    if truthy direct_coords then
      let* (final_x, final_y) := direct_pixels direct_coords in
      click_or_skip now task_context final_x final_y target
    else if truthy target then
      let* found := match_target treasure_map target in
      match found with
      | Some b =>
          let* (final_x, final_y) := center_pixels b in
          click_or_skip now task_context final_x final_y target
      | None => Ok (task_context, [])
      end
    else Ok (task_context, [])
  else if is_type "key" then
    let* raw := as_str (default (VStr "") (dict_get parsed_action "text")) in
    let key := PyStr.strip (PyStr.lower raw) in
    if negb (PyStr.truthy key) then Ok (task_context, [])
    else if PyStr.contains "+" key then
      let keys := map (fun k => PyStr.lower (PyStr.strip k)) (PyStr.split_char "+" key) in
      match map map_key keys with
      | [] => Ok (task_context, [])
      | k :: ks =>
          let '(modifiers, main_key) := init_last k ks in
          Ok (task_context, guarded_key (EKeyCombo modifiers main_key))
      end
    else if existsb (String.eqb key) ["up"; "down"; "left"; "right"]
    then Ok (task_context, guarded_key (EArrowKey key))
    else if String.eqb key "tab" then Ok (task_context, guarded_key ETabKey)
    else Ok (task_context, guarded_key (EPressKey key))
  else if is_type "type" then
    match default (VStr "") (dict_get parsed_action "text") with
    | VStr text =>
        if PyStr.truthy text then
          let* effects := paste_text text in Ok (task_context, effects)
        else Ok (task_context, [])
    | v =>
        if truthy v then
          (* the adapter receives a value that is not a string *)
          let* effects := paste_text (py_repr v) in Ok (task_context, effects)
        else Ok (task_context, [])
    end
  else Ok (task_context, []).

(** The pixel a click step aims at: from its direct coordinates when it
    has some, otherwise from the centre of the entry its target name
    resolves to. *)
Definition aims_at (parsed_action : dict) (treasure_map : list block)
    (final_x final_y : Z) : Prop :=
  (truthy (get parsed_action "coordinates") = true
   /\ direct_pixels (get parsed_action "coordinates") = Ok (final_x, final_y))
  \/ (truthy (get parsed_action "coordinates") = false
      /\ exists t b,
          get parsed_action "target" = VStr t /\ PyStr.truthy t = true
          /\ Resolver.match_target_in_treasure_map SequenceMatcher_ratio treasure_map t
             = Some b
          /\ center_pixels b = Ok (final_x, final_y)).

(** The context after a click that was issued, and after one that was
    suppressed. *)
Definition after_click (now : Q) (tc : dict) (final_x final_y : Z) (target : pyval)
  : dict :=
  dict_set
    (dict_set (dict_set tc "last_click_coords" (VTuple [final_x; final_y]))
              "last_click_target" target)
    "last_click_time" (VFloat now).

Definition after_skip (tc : dict) (target : pyval) : dict :=
  dict_set tc "last_skipped_target" target.

(** The margin that four roundings cannot cross: [2 ** -51].  A box
    that stays this far inside the frame. *)
Definition frame_margin : Q := 1 # 2251799813685248.

Definition box_well_inside (b : box) : Prop :=
  (0 <= bx b /\ 0 <= by_ b /\ 0 <= bw b /\ 0 <= bh b
   /\ bx b + bw b <= 1 - frame_margin /\ by_ b + bh b <= 1 - frame_margin)%Q.

(** Target names compared as the guard compares them. *)
Definition same_name (a b : string) : Prop :=
  PyStr.strip (PyStr.lower a) = PyStr.strip (PyStr.lower b).

(** *** The replay loop *)

(** What the surroundings of one pulse deliver, by item and step
    index: the treasure map of the visual stack ([None] when the
    stack fails or reads no text), the text the language model
    produces ([None] when it fails) and the clock. *)
Variable visual_stack : nat -> nat -> option (list block).
Variable qwen_text : nat -> nat -> option string.
Variable clock : nat -> nat -> Q.

(** Why the loop over the steps of one item ended. *)
Inductive stop : Type :=
| Completed
| VisualStackFailed
| UnresolvedPlaceholder
| QwenFailed
| StepFailed (e : exn).

(** One step handed to [execute_action] that returned. *)
Record executed : Type := {
  x_item : nat;
  x_step_index : nat;
  x_step : dict;
  x_effects : list effect }.

(** The [while step_index < len(steps)] loop for one item;
    [remaining] is [steps[step_index:]]. *)
Fixpoint run_steps (item_idx : nat) (remaining : list dict) (step_index : nat)
    (task_context : dict) : list executed * stop :=
  match remaining with
  | [] => ([], Completed)
  | st :: rest =>
      match visual_stack item_idx step_index with
      | None => ([], VisualStackFailed)
      | Some treasure_map =>
          let current_step := resolve_step_placeholders py_repr st task_context in
          if has_unresolved current_step then ([], UnresolvedPlaceholder)
          else
            let artificial :=
              match get current_step "actor" with
              | VStr s => String.eqb s "artificial"
              | _ => false
              end in
            let generated :=
              if artificial && negb (truthy (get current_step "text")) then
                option_map (fun t => dict_set current_step "text" (VStr t))
                           (qwen_text item_idx step_index)
              else Some current_step in
            match generated with
            | None => ([], QwenFailed)
            | Some current_step =>
                match execute_action (clock item_idx step_index) current_step
                        treasure_map (Some task_context) with
                | Raise e => ([], StepFailed e)
                | Ok (tc', effects) =>
                    let '(log, why) :=
                      run_steps item_idx rest (S step_index)
                                (default task_context tc') in
                    ({| x_item := item_idx; x_step_index := step_index;
                        x_step := current_step; x_effects := effects |} :: log,
                     why)
                end
            end
      end
  end.

(** The main loop of [ping_pong_loop] over the items, in list mode
    (the spreadsheet mode is switched off in the source): every item
    starts from a copy of the original context with [variable_1] set
    to the item. *)
Definition ping_pong_loop (steps : list dict) (items : list pyval)
    (original_task_context : dict) : list (list executed * stop) :=
  match steps with
  | [] => []
  | _ =>
      imap
        (fun i item =>
           run_steps i steps 0 (dict_set original_task_context "variable_1" item))
        items
  end.

End Exec.

(** *** A sample run: a 1000 x 1000 screen, the products of CPython and
    a context that records a click on "Save" at pixel (100, 100) *)

Definition plain_repr (v : pyval) : string :=
  match v with
  | VInt z => pretty z
  | _ => "<value>"
  end.

Definition sample_execute : Q -> dict -> list block -> option dict
                            -> result (option dict * list effect) :=
  execute_action plain_repr Resolver.difflib_ratio true true (1000, 1000) float_product.

Definition last_click_ctx : dict :=
  [("variable_1", VStr "item");
   ("last_click_coords", VTuple [100; 100]);
   ("last_click_target", VStr "Save");
   ("last_click_time", VFloat 0)].

Definition click_step (x y : Q) (t : string) : dict :=
  [("type", VStr "click"); ("target", VStr t); ("coordinates", VList [x; y])].

(** A replay whose visual stack always succeeds with an empty map. *)
Definition sample_loop : list dict -> list pyval -> dict -> list (list executed * stop) :=
  ping_pong_loop plain_repr Resolver.difflib_ratio true true (1000, 1000) float_product
    (fun _ _ => Some []) (fun _ _ => None) (fun _ _ => 0%Q).

Definition greeting_steps : list dict :=
  [click_step (1 # 2) (1 # 2) "Send";
   [("type", VStr "type"); ("text", VStr "Hello {unknown}")]].

Definition greeting_context : dict :=
  [("variable_1", VNone); ("name", VStr "Mia")].

End Guard.
(** * Properties *)

(** ** Arithmetic and string helpers *)

Lemma Qltb_lt (x y : Q) : Qltb x y = true <-> (x < y)%Q.
Proof.
  unfold Qltb. rewrite negb_true_iff. split.
  - intros H. apply Qnot_le_lt. intros Hle.
    apply Qle_bool_iff in Hle. congruence.
  - intros H. destruct (Qle_bool y x) eqn:E; [|reflexivity].
    apply Qle_bool_iff in E. exfalso. eapply Qlt_not_le; eauto.
Qed.

Lemma Qleb_le (x y : Q) : Qleb x y = true <-> (x <= y)%Q.
Proof. apply Qle_bool_iff. Qed.

Lemma Qltb_ge (x y : Q) : Qltb x y = false <-> (y <= x)%Q.
Proof.
  unfold Qltb. rewrite negb_false_iff. apply Qle_bool_iff.
Qed.

Lemma Qleb_gt (x y : Q) : Qleb x y = false <-> (y < x)%Q.
Proof.
  unfold Qleb. split.
  - intros H. apply Qnot_le_lt. intros Hle.
    apply Qle_bool_iff in Hle. congruence.
  - intros H. destruct (Qle_bool x y) eqn:E; [|reflexivity].
    apply Qle_bool_iff in E. exfalso. eapply Qlt_not_le; eauto.
Qed.

Example strip_ex : PyStr.strip "  Save As " = "Save As".
Proof. reflexivity. Qed.
Example replace_ex : PyStr.replace "{name}" "Mia" "Hello {name}, {name}!" = "Hello Mia, Mia!".
Proof. reflexivity. Qed.
Example replace_empty_ex : PyStr.replace "" "-" "abc" = "-a-b-c-".
Proof. reflexivity. Qed.
Example split_ex : PyStr.split_ws "  a  bc d " = ["a"; "bc"; "d"].
Proof. reflexivity. Qed.
Example title_ex : PyStr.title "click element_x" = "Click Element_X".
Proof. reflexivity. Qed.
Example contains_ex : PyStr.contains "save" "saving" = false /\ PyStr.contains "sav" "saving" = true.
Proof. split; reflexivity. Qed.
Example split_char_ex : PyStr.split_char "+" "cmd+shift+" = ["cmd"; "shift"; ""].
Proof. reflexivity. Qed.

Example percent0_third : percent0 (1 # 3) = "33%" /\ percent0 (2 # 3) = "67%" /\ percent0 1 = "100%".
Proof. repeat split; vm_compute; reflexivity. Qed.


(** ** Reliability classifier *)

Section ClassifierFacts.
Import Classifier.

Variable path_exists : string -> bool.
Variable easyocr_readtext : string -> result (list (string * Q)).

Local Abbreviation run_checks := (run_checks path_exists easyocr_readtext).
Local Abbreviation check_coordinates := (check_coordinates path_exists easyocr_readtext).
Local Abbreviation extract := (extract_target_text_from_coordinates path_exists easyocr_readtext).

(** Every return of the click branch of the coordinate check reports
    a pass. *)
Lemma click_fallback_passes a det ok t why det' :
  click_fallback a det = Ok (ok, t, why, det') -> ok = true.
Proof.
  unfold click_fallback.
  destruct (PyStr.contains "Learning Loop" _).
  - destruct (idx _ 1) as [p1|]; simpl; [|discriminate].
    destruct (Qltb p1 _); simpl; [congruence|].
    destruct (Qltb _ p1); simpl; [congruence|].
    destruct (idx _ 0) as [p0|]; simpl; [|discriminate].
    destruct (_ && _); simpl; congruence.
  - simpl. congruence.
Qed.

Lemma check_coordinates_passes a ok t why det :
  check_coordinates a = Ok (ok, t, why, det) -> ok = true.
Proof.
  unfold Classifier.check_coordinates.
  destruct (event a) as [ev|]; [|discriminate].
  destruct (String.eqb ev "click").
  - destruct extract as [ocr|e].
    + destruct (_ && _); [congruence|]. apply click_fallback_passes.
    + apply click_fallback_passes.
  - destruct (String.eqb ev "type"); [congruence|].
    destruct (String.eqb ev "key"); [congruence|discriminate].
Qed.

Lemma check_coordinates_event a v :
  check_coordinates a = Ok v -> exists ev, event a = Some ev.
Proof.
  unfold Classifier.check_coordinates.
  destruct (event a) as [ev|]; [eauto|discriminate].
Qed.

(** The shape of a click classification that returns. *)
Lemma run_checks_click_inv a r :
  event a = Some "click" ->
  run_checks a = Ok r ->
  exists c w k s p,
    map (fun nc => (fst nc, passed (snd nc))) (checks r)
      = [("coordinates", c); ("window", w); ("compatibility", k);
         ("resolution", s); ("position", p)]
    /\ summary_of r
       = mk_summary [c; w; k; s; p] 4
           (if (sum_bools [c; w; k; s; p] =? 5)%nat then "high"
            else if (4 <=? sum_bools [c; w; k; s; p])%nat then "medium" else "low").
Proof.
  intros Hev. unfold Classifier.run_checks. rewrite Hev. simpl default.
  destruct check_coordinates as [[[[c t] why] det]|e]; simpl; [|discriminate].
  destruct (verify_window a t) as [w wr].
  change (String.eqb "click" "click") with true. cbv iota.
  destruct (test_compatibility a t) as [[k kr]|e]; simpl; [|discriminate].
  destruct (analyze_resolution a t) as [[s sr]|e]; simpl; [|discriminate].
  destruct (validate_position a t) as [p pr].
  intros [= <-]. exists c, w, k, s, p. split; reflexivity.
Qed.

(** C1. For a click action that [run_checks] classifies: five checks
    are run (coordinates, window, compatibility, resolution,
    position); when all five pass the confidence is "high"; when
    exactly four pass the action is reliable with confidence
    "medium"; when three or fewer pass the action is not reliable and
    [create_step] returns no step. *)
Theorem click_confidence_tiers (a : action) (r : check_results) :
  event a = Some "click" ->
  run_checks a = Ok r ->
  map fst (checks r)
    = ["coordinates"; "window"; "compatibility"; "resolution"; "position"]
  /\ total_checks (summary_of r) = 5%nat
  /\ checks_passed (summary_of r)
     = sum_bools (map (fun nc => passed (snd nc)) (checks r))
  /\ (checks_passed (summary_of r) = 5%nat ->
      confidence (summary_of r) = "high" /\ reliable (summary_of r) = true)
  /\ (checks_passed (summary_of r) = 4%nat ->
      reliable (summary_of r) = true /\ confidence (summary_of r) = "medium")
  /\ ((checks_passed (summary_of r) <= 3)%nat ->
      reliable (summary_of r) = false
      /\ forall n, create_step a n r = Ok None).
Proof.
  intros Hev Hrun.
  destruct (run_checks_click_inv a r Hev Hrun) as (c & w & k & s & p & Hchecks & Hsum).
  assert (Hnames : map fst (checks r)
            = ["coordinates"; "window"; "compatibility"; "resolution"; "position"]).
  { apply (f_equal (map fst)) in Hchecks. rewrite map_map in Hchecks. exact Hchecks. }
  assert (Hflags : map (fun nc => passed (snd nc)) (checks r) = [c; w; k; s; p]).
  { apply (f_equal (map snd)) in Hchecks. rewrite map_map in Hchecks. exact Hchecks. }
  split; [exact Hnames|].
  rewrite Hflags. unfold create_step. rewrite Hsum.
  destruct c, w, k, s, p; vm_compute;
    repeat split; intros; try reflexivity; try discriminate; try lia.
Qed.

(** A classification that returns yields a step or a refusal, never an
    error: the event is present. *)
Lemma create_step_returns a n r :
  run_checks a = Ok r -> exists made, create_step a n r = Ok made.
Proof.
  intros Hrun. unfold create_step.
  destruct (negb _); [eauto|].
  unfold Classifier.run_checks in Hrun.
  destruct check_coordinates as [v|e] eqn:Hc; [|discriminate].
  destruct (check_coordinates_event a v Hc) as [ev ->]. eauto.
Qed.

(** C4 (the code departs from it). An action whose event is none of
    click, type and key is never classified: the coordinate check ends
    in a return that names an unbound variable, so [run_checks] raises
    before the branch that runs the coordinate and window checks alone
    and asks for one pass out of two. *)
Theorem other_event_raises (a : action) (ev : string) :
  event a = Some ev ->
  ev <> "click" -> ev <> "type" -> ev <> "key" ->
  run_checks a = Raise (NameError "detection_inf").
Proof.
  intros Hev Hc Ht Hk.
  unfold Classifier.run_checks, Classifier.check_coordinates. rewrite Hev.
  apply String.eqb_neq in Hc, Ht, Hk. rewrite Hc, Ht, Hk. reflexivity.
Qed.

(** An exception of the OCR library is absorbed by the text extraction,
    which answers with the fallback name. *)
Lemma extract_absorbs_ocr_failure a crop e :
  crop_screenshot a = Some crop ->
  PyStr.truthy crop = true ->
  path_exists crop = true ->
  easyocr_readtext crop = Raise e ->
  extract a = Ok (_generate_fallback_target_name a).
Proof.
  intros Hcrop Ht Hex Hocr.
  unfold extract_target_text_from_coordinates.
  rewrite Hcrop, Ht, Hex, Hocr. reflexivity.
Qed.

Lemma run_checks_raises_coordinates a e :
  check_coordinates a = Raise e -> run_checks a = Raise e.
Proof. intros H. unfold Classifier.run_checks. rewrite H. reflexivity. Qed.

Lemma run_checks_raises_compatibility a e c t why det :
  event a = Some "click" ->
  check_coordinates a = Ok (c, t, why, det) ->
  test_compatibility a t = Raise e ->
  run_checks a = Raise e.
Proof.
  intros Hev Hc Hk. unfold Classifier.run_checks. rewrite Hev, Hc. simpl.
  destruct (verify_window a t). rewrite Hk. reflexivity.
Qed.

Lemma idx_raises {A : Type} (l : list A) n e : idx l n = Raise e -> e = IndexError.
Proof. unfold idx. destruct (l !! n); [discriminate|congruence]. Qed.

Lemma test_compatibility_raises a t e :
  test_compatibility a t = Raise e -> e = IndexError.
Proof.
  unfold test_compatibility, rbind. intros H.
  repeat case_match; simplify_eq; eauto using @idx_raises.
Qed.

Lemma size_works_raises rel_pos size e :
  size_works rel_pos size = Raise e -> e = IndexError.
Proof.
  unfold size_works.
  destruct (idx rel_pos 0) eqn:H0; simpl.
  - destruct (idx rel_pos 1) eqn:H1; simpl; [discriminate|].
    intros [= <-]. eapply idx_raises; eauto.
  - intros [= <-]. eapply idx_raises; eauto.
Qed.

Lemma count_working_raises rel_pos sizes n e :
  count_working rel_pos sizes n = Raise e -> e = IndexError.
Proof.
  revert n. induction sizes as [|size sizes IH]; intros n; simpl; [discriminate|].
  destruct (size_works rel_pos size) as [ok|e'] eqn:Hs; simpl.
  - apply IH.
  - intros [= <-]. eapply size_works_raises; eauto.
Qed.

Lemma analyze_resolution_raises a t e :
  analyze_resolution a t = Raise e -> e = IndexError.
Proof.
  unfold analyze_resolution.
  destruct (count_working _ _ _) as [n|e'] eqn:Hc; simpl.
  - destruct (Qleb _ _); [discriminate|]. destruct (Qleb _ _); discriminate.
  - intros [= <-]. eapply count_working_raises; eauto.
Qed.

Lemma run_checks_raises_resolution a e c t why det :
  event a = Some "click" ->
  check_coordinates a = Ok (c, t, why, det) ->
  analyze_resolution a t = Raise e ->
  run_checks a = Raise e.
Proof.
  intros Hev Hc Hs. unfold Classifier.run_checks. rewrite Hev, Hc. simpl.
  destruct (verify_window a t).
  destruct (test_compatibility a t) as [[k kr]|e'] eqn:Hk; simpl.
  - rewrite Hs. reflexivity.
  - (* both checks read the same coordinates *)
    apply test_compatibility_raises in Hk. apply analyze_resolution_raises in Hs.
    congruence.
Qed.

(** The loop of the conversion stops at the first action whose
    classification raises. *)
Lemma classify_all_raises pre a post e :
  Forall (fun b => exists r, run_checks b = Ok r) pre ->
  run_checks a = Raise e ->
  forall i steps report,
    classify_all path_exists easyocr_readtext (pre ++ a :: post)%list i steps report
    = Raise e.
Proof.
  intros Hpre Ha. induction Hpre as [|b pre [r Hb] _ IH]; intros i steps report.
  - simpl. rewrite Ha. reflexivity.
  - simpl. rewrite Hb. simpl.
    destruct (create_step_returns b i r Hb) as [made ->]. simpl.
    destruct made; apply IH.
Qed.

(** C3 (amended). An exception of the OCR library is caught inside the
    text extraction of the coordinate check, which falls back to the
    heuristic name; the check passes whenever it returns.  No other
    exception is caught: an exception raised inside the coordinate, the
    compatibility or the resolution check leaves [run_checks], and an
    action whose classification raises makes [convert_to_automation]
    raise the same exception, whatever follows it in the session. *)
Theorem check_exceptions_propagate (a : action) (e : exn) :
  (forall crop e',
      crop_screenshot a = Some crop -> PyStr.truthy crop = true ->
      path_exists crop = true -> easyocr_readtext crop = Raise e' ->
      extract a = Ok (_generate_fallback_target_name a))
  /\ (forall ok t why det, check_coordinates a = Ok (ok, t, why, det) -> ok = true)
  /\ (check_coordinates a = Raise e -> run_checks a = Raise e)
  /\ (forall c t why det,
         event a = Some "click" -> check_coordinates a = Ok (c, t, why, det) ->
         test_compatibility a t = Raise e \/ analyze_resolution a t = Raise e ->
         run_checks a = Raise e)
  /\ (run_checks a = Raise e ->
      forall pre post learning_id name stamp iso,
        Forall (fun b => exists r, run_checks b = Ok r) pre ->
        convert_to_automation path_exists easyocr_readtext
          (Ok (pre ++ a :: post)%list) learning_id name stamp iso = Raise e).
Proof.
  repeat split.
  - intros crop e'. apply extract_absorbs_ocr_failure.
  - intros ok t why det. apply check_coordinates_passes.
  - apply run_checks_raises_coordinates.
  - intros c t why det Hev Hc [Hk|Hs].
    + eapply run_checks_raises_compatibility; eauto.
    + eapply run_checks_raises_resolution; eauto.
  - intros Ha pre post learning_id name stamp iso Hpre.
    unfold convert_to_automation. simpl.
    destruct (pre ++ a :: post)%list eqn:Hl.
    + destruct pre; discriminate.
    + rewrite <- Hl. rewrite (classify_all_raises pre a post e Hpre Ha). reflexivity.
Qed.

End ClassifierFacts.

(** *** The classifier on sample actions *)

Example sample_tiers :
  Classifier.passed_and_tier (Classifier.sample_checks Classifier.click_centre) = Some (5%nat, true, "high")
  /\ Classifier.passed_and_tier (Classifier.sample_checks Classifier.click_edge) = Some (4%nat, true, "medium")
  /\ Classifier.passed_and_tier (Classifier.sample_checks Classifier.click_edge_transparent) = Some (3%nat, false, "low").
Proof. repeat split; vm_compute; reflexivity. Qed.

Lemma click_confidence_tiers_witness :
  (exists r, Classifier.sample_checks Classifier.click_centre = Ok r
             /\ Classifier.confidence (Classifier.summary_of r) = "high")
  /\ (exists r, Classifier.sample_checks Classifier.click_edge = Ok r
                /\ Classifier.reliable (Classifier.summary_of r) = true
                /\ Classifier.confidence (Classifier.summary_of r) = "medium")
  /\ (exists r, Classifier.sample_checks Classifier.click_edge_transparent = Ok r
                /\ Classifier.reliable (Classifier.summary_of r) = false
                /\ Classifier.create_step Classifier.click_edge_transparent 1 r = Ok None).
Proof.
  split; [|split].
  - destruct (Classifier.sample_checks Classifier.click_centre) as [r|] eqn:E; [|vm_compute in E; discriminate].
    exists r. split; [reflexivity|].
    apply (click_confidence_tiers Classifier.no_files Classifier.no_ocr
             Classifier.click_centre r eq_refl E).
    vm_compute in E. injection E as <-. reflexivity.
  - destruct (Classifier.sample_checks Classifier.click_edge) as [r|] eqn:E; [|vm_compute in E; discriminate].
    exists r. split; [reflexivity|].
    apply (click_confidence_tiers Classifier.no_files Classifier.no_ocr
             Classifier.click_edge r eq_refl E).
    vm_compute in E. injection E as <-. reflexivity.
  - destruct (Classifier.sample_checks Classifier.click_edge_transparent) as [r|] eqn:E;
      [|vm_compute in E; discriminate].
    exists r. split; [reflexivity|].
    destruct (click_confidence_tiers Classifier.no_files Classifier.no_ocr
                Classifier.click_edge_transparent r eq_refl E) as (_ & _ & _ & _ & _ & H3).
    destruct H3 as [Hrel Hstep].
    + vm_compute in E. injection E as <-. vm_compute. lia.
    + split; [exact Hrel | apply Hstep].
Defined.

(** The classification of a recorded scroll raises. *)
Example scroll_action_raises :
  Classifier.sample_checks Classifier.scroll_action = Raise (NameError "detection_inf").
Proof. reflexivity. Qed.

Lemma other_event_raises_witness :
  Classifier.sample_checks Classifier.scroll_action = Raise (NameError "detection_inf").
Proof.
  apply (other_event_raises Classifier.no_files Classifier.no_ocr Classifier.scroll_action "scroll");
    [reflexivity | discriminate | discriminate | discriminate].
Defined.

(** C3, as stated, fails: a click recorded with one coordinate makes
    the compatibility check raise; the exception leaves [run_checks] and
    [convert_to_automation], and the action recorded after it is never
    classified. *)
Lemma check_exception_escapes :
  Classifier.sample_checks Classifier.click_short = Raise IndexError
  /\ Classifier.convert_to_automation Classifier.no_files Classifier.no_ocr
       (Ok [Classifier.click_centre; Classifier.click_short; Classifier.click_centre]) "session" None "stamp" "iso"
     = Raise IndexError.
Proof. split; vm_compute; reflexivity. Qed.

Lemma check_exceptions_propagate_witness :
  Classifier.convert_to_automation Classifier.no_files Classifier.no_ocr
    (Ok ([Classifier.click_centre] ++ Classifier.click_short :: [Classifier.click_centre])%list) "session" None "stamp" "iso"
  = Raise IndexError.
Proof.
  apply (check_exceptions_propagate Classifier.no_files Classifier.no_ocr
           Classifier.click_short IndexError).
  - reflexivity.
  - constructor; [|constructor]. eexists. vm_compute. reflexivity.
Defined.

(** ** Target resolver *)

Lemma prefix_length (p s : string) :
  String.prefix p s = true -> (String.length p <= String.length s)%nat.
Proof.
  revert s. induction p as [|c p IH]; intros [|d s]; simpl; try lia; try done.
  destruct (ascii_dec c d); [|done].
  intros H. apply IH in H. lia.
Qed.

Lemma contains_length (sub s : string) :
  PyStr.contains sub s = true -> (String.length sub <= String.length s)%nat.
Proof.
  induction s as [|c s IH]; cbn [PyStr.contains].
  - rewrite orb_false_r. apply prefix_length.
  - intros [H|H]%orb_true_iff.
    + apply prefix_length in H. exact H.
    + apply IH in H. cbn [String.length]. lia.
Qed.

Lemma length_zero_empty (s : string) : String.length s = 0%nat -> s = "".
Proof. destruct s; [reflexivity|discriminate]. Qed.

Section ResolverFacts.
Import Resolver.

Variable SequenceMatcher_ratio : string -> string -> Q.

Local Abbreviation calculate_match_quality :=
  (calculate_match_quality SequenceMatcher_ratio).

Lemma length_share_pos target label :
  target <> "" -> PyStr.contains target label = true ->
  (0 < length_share target label)%Q.
Proof.
  intros Hne Hin. apply contains_length in Hin.
  assert (0 < String.length target)%nat.
  { destruct target; [congruence|simpl; lia]. }
  unfold Resolver.length_share. apply Qlt_shift_div_l.
  - unfold Qlt. simpl. lia.
  - rewrite Qmult_0_l. unfold Qlt. simpl. lia.
Qed.

(** C2 (amended). Equal strings score exactly 1; a target that is a
    proper substring of the label scores
    [0.9 + (len(target) / len(label)) * 0.1], which is above 0.9 when
    the target is not empty and exactly 0.9 when it is; any other pair
    scores the sequence-similarity ratio. *)
Theorem match_quality_rule (target label : string) :
  (target = label -> calculate_match_quality target label = 1%Q)
  /\ (target <> label -> PyStr.contains target label = true ->
      calculate_match_quality target label
        = ((9 # 10) + length_share target label * (1 # 10))%Q
      /\ (target <> "" -> (9 # 10 < calculate_match_quality target label)%Q)
      /\ (target = "" -> (calculate_match_quality target label == 9 # 10)%Q))
  /\ (target <> label -> PyStr.contains target label = false ->
      calculate_match_quality target label = SequenceMatcher_ratio target label).
Proof.
  unfold Resolver.calculate_match_quality. split; [|split].
  - intros ->. rewrite String.eqb_refl. reflexivity.
  - intros Hne Hin. apply String.eqb_neq in Hne as Hne'. rewrite Hne', Hin.
    split; [reflexivity|]. split.
    + intros Ht. pose proof (length_share_pos target label Ht Hin) as Hpos.
      fold (length_share target label). lra.
    + intros ->. simpl. unfold Qdiv. rewrite Qmult_0_l. lra.
  - intros Hne Hin. apply String.eqb_neq in Hne. rewrite Hne, Hin. reflexivity.
Qed.

End ResolverFacts.

(** C2, as stated, fails: "save" is not a substring of "saving" nor
    the reverse, so in either order of the arguments the score is the
    sequence-similarity ratio, here 0.6; and an empty target inside a
    label scores exactly 0.9. *)
Lemma similarity_example_fails :
  PyStr.contains "save" "saving" = false
  /\ PyStr.contains "saving" "save" = false
  /\ (Resolver.calculate_match_quality Resolver.difflib_ratio "saving" "save" == 3 # 5)%Q
  /\ (Resolver.calculate_match_quality Resolver.difflib_ratio "save" "saving" == 3 # 5)%Q
  /\ ~ (9 # 10 < Resolver.calculate_match_quality Resolver.difflib_ratio "saving" "save")%Q
  /\ ~ (9 # 10 < Resolver.calculate_match_quality Resolver.difflib_ratio "save" "saving")%Q
  /\ PyStr.contains "" "a" = true
  /\ ~ (9 # 10 < Resolver.calculate_match_quality Resolver.difflib_ratio "" "a")%Q.
Proof.
  repeat split; try (vm_compute; reflexivity);
    intros H; vm_compute in H; discriminate.
Qed.

Lemma match_quality_rule_witness :
  Resolver.calculate_match_quality Resolver.difflib_ratio "save" "save" = 1%Q
  /\ (9 # 10 < Resolver.calculate_match_quality Resolver.difflib_ratio "save" "save as")%Q
  /\ Resolver.calculate_match_quality Resolver.difflib_ratio "saving" "save"
     = Resolver.difflib_ratio "saving" "save".
Proof.
  split; [|split].
  - apply (match_quality_rule Resolver.difflib_ratio "save" "save"). reflexivity.
  - apply (match_quality_rule Resolver.difflib_ratio "save" "save as");
      [discriminate | reflexivity | discriminate].
  - apply (match_quality_rule Resolver.difflib_ratio "saving" "save");
      [discriminate | reflexivity].
Defined.

(** The end-to-end example of the resolver: a single entry "Send"
    answers the target "send" with similarity 1. *)
Example resolve_send :
  Resolver.match_target_in_treasure_map Resolver.difflib_ratio [Resolver.send_entry] "send"
  = Some Resolver.send_entry
  /\ map Resolver.similarity
       (Resolver.candidates Resolver.difflib_ratio [Resolver.send_entry] "send") = [1%Q].
Proof. split; reflexivity. Qed.

(** ** Map fusion engine *)

Section EnumerateFacts.
Import Fusion.
Context {A : Type}.

Lemma elem_of_enumerate_from (k : nat) (l : list A) (i : nat) (x : A) :
  (i, x) ∈ enumerate_from k l <-> exists n, i = (k + n)%nat /\ l !! n = Some x.
Proof.
  revert k. induction l as [|y l IH]; intros k; simpl.
  - split; [intros H; inversion H | intros (n & _ & H); discriminate].
  - rewrite elem_of_cons, IH. split.
    + intros [[= -> ->] | (n & -> & Hn)].
      * exists 0%nat. split; [lia | reflexivity].
      * exists (S n). split; [lia | exact Hn].
    + intros ([|n] & -> & Hn); simpl in Hn.
      * left. injection Hn as ->. f_equal. lia.
      * right. exists n. split; [lia | exact Hn].
Qed.

Lemma elem_of_enumerate (l : list A) (i : nat) (x : A) :
  (i, x) ∈ enumerate l <-> l !! i = Some x.
Proof.
  unfold enumerate. rewrite elem_of_enumerate_from. split.
  - intros (n & -> & H). exact H.
  - intros H. exists i. split; [reflexivity | exact H].
Qed.

Lemma elem_of_unmatched_gen (matched : gset nat) (E : list (nat * A)) (x : A) :
  x ∈ map snd (filter (fun ib => fst ib ∉ matched) E)
  <-> exists i, (i, x) ∈ E /\ i ∉ matched.
Proof.
  rewrite list_elem_of_fmap. split.
  - intros ([i y] & -> & [Hni Hin]%list_elem_of_filter). exists i. split; assumption.
  - intros (i & Hin & Hni). exists (i, x). split; [reflexivity|].
    apply list_elem_of_filter. split; assumption.
Qed.

End EnumerateFacts.

Section FusionFacts.
Import Fusion.

Variables width height : positive.

Local Abbreviation pair_matches := (pair_matches width height).
Local Abbreviation fuse := (fuse width height).

Local Abbreviation matching := (matching width height).
Local Abbreviation matching_pairs := (matching_pairs width height).

Lemma elem_of_matching_pairs ocrE cvE io jc :
  (io, jc) ∈ matching_pairs ocrE cvE
  <-> io ∈ ocrE /\ jc ∈ cvE /\ pair_matches (snd io) (snd jc) = true.
Proof.
  unfold Fusion.matching_pairs, Fusion.matching. rewrite list_elem_of_In, in_flat_map. split.
  - intros (io' & Hio & Hin). apply list_elem_of_In, list_elem_of_fmap in Hin.
    destruct Hin as (jc' & [= -> ->] & [Hm Hjc]%list_elem_of_filter).
    split; [apply list_elem_of_In; exact Hio | split; assumption].
  - intros (Hio & Hjc & Hm). exists io. split; [apply list_elem_of_In; exact Hio|].
    apply list_elem_of_In, list_elem_of_fmap. exists jc. split; [reflexivity|].
    apply list_elem_of_filter. split; assumption.
Qed.

(** The inner loop adds the index of every matching component entry and
    one overlapping entry per match. *)
Lemma inner_loop_spec (i : nat) (o : block) (cvE : list (nat * block))
    (mo mc : gset nat) (fb : list block) :
  exists mo' mc',
    fold_left (inner_step width height i o) cvE (mo, mc, fb)
    = (mo', mc', (fb ++ map (fun _ => overlapping_of o) (matching o cvE))%list)
    /\ (forall k, k ∈ mo' <-> k ∈ mo \/ (k = i /\ matching o cvE <> []))
    /\ (forall k, k ∈ mc' <-> k ∈ mc \/ k ∈ map fst (matching o cvE)).
Proof.
  revert mo mc fb. induction cvE as [|[j c] cvE IH]; intros mo mc fb.
  - exists mo, mc. simpl. rewrite app_nil_r. split; [reflexivity|].
    split; intros k; unfold Fusion.matching; simpl; [tauto|].
    rewrite elem_of_nil. tauto.
  - cbn [fold_left]. unfold inner_step at 2. cbn [snd fst].
    unfold Fusion.matching. rewrite filter_cons. cbn [snd].
    destruct (pair_matches o c) eqn:Hm.
    + destruct (IH ({[ i ]} ∪ mo) ({[ j ]} ∪ mc) (fb ++ [overlapping_of o])%list)
        as (mo' & mc' & Heq & Hmo & Hmc).
      exists mo', mc'. rewrite Heq. rewrite decide_True by reflexivity.
      split; [simpl; rewrite <- app_assoc; reflexivity|].
      split; intros k.
      * rewrite Hmo. set_solver.
      * rewrite Hmc. simpl. set_solver.
    + destruct (IH mo mc fb) as (mo' & mc' & Heq & Hmo & Hmc).
      exists mo', mc'. rewrite Heq. rewrite decide_False by congruence.
      split; [reflexivity|]. split; intros k; [apply Hmo | apply Hmc].
Qed.

Lemma outer_loop_spec (cv_blocks : list block) (ocrE : list (nat * block))
    (mo mc : gset nat) (fb : list block) :
  exists mo' mc',
    fold_left (outer_step width height cv_blocks) ocrE (mo, mc, fb)
    = (mo', mc',
       (fb ++ map (fun p => overlapping_of (snd (fst p)))
                  (matching_pairs ocrE (enumerate cv_blocks)))%list)
    /\ (forall k, k ∈ mo' <->
          k ∈ mo \/ (exists io jc, (io, jc) ∈ matching_pairs ocrE (enumerate cv_blocks)
                                    /\ fst io = k))
    /\ (forall k, k ∈ mc' <->
          k ∈ mc \/ (exists io jc, (io, jc) ∈ matching_pairs ocrE (enumerate cv_blocks)
                                    /\ fst jc = k)).
Proof.
  set (E := enumerate cv_blocks).
  revert mo mc fb. induction ocrE as [|[i o] ocrE IH]; intros mo mc fb.
  - exists mo, mc. simpl. rewrite app_nil_r. split; [reflexivity|].
    split; intros k; (split; [tauto|]); intros [H|(io & jc & H & _)];
      try exact H; inversion H.
  - cbn [fold_left]. unfold outer_step at 2. cbn [fst snd]. fold E.
    destruct (inner_loop_spec i o E mo mc fb) as (mo1 & mc1 & Heq1 & Hmo1 & Hmc1).
    rewrite Heq1.
    destruct (IH mo1 mc1 (fb ++ map (fun _ => overlapping_of o) (matching o E))%list)
      as (mo' & mc' & Heq & Hmo & Hmc).
    exists mo', mc'. rewrite Heq.
    assert (Hpairs : matching_pairs ((i, o) :: ocrE) E
                     = (map (fun jc => ((i, o), jc)) (matching o E)
                        ++ matching_pairs ocrE E)%list) by reflexivity.
    split.
    { rewrite Hpairs, map_app, map_map, <- app_assoc. reflexivity. }
    split; intros k.
    + rewrite Hmo, Hmo1, Hpairs. split.
      * intros [[H|[-> Hne]]|(io & jc & H & Hk)].
        -- left; exact H.
        -- right. destruct (matching o E) as [|jc rest] eqn:Em; [congruence|].
           exists (i, o), jc. split; [|reflexivity]. simpl. apply elem_of_cons. left; reflexivity.
        -- right. exists io, jc. split; [|exact Hk]. apply elem_of_app. right; exact H.
      * intros [H|(io & jc & [H|H]%elem_of_app & Hk)].
        -- left; left; exact H.
        -- apply list_elem_of_fmap in H as (jc' & [= -> ->] & Hin). simpl in Hk. subst k.
           left; right. split; [reflexivity|]. intros Hnil. rewrite Hnil in Hin. inversion Hin.
        -- right. exists io, jc. split; assumption.
    + rewrite Hmc, Hmc1, Hpairs. split.
      * intros [[H|H]|(io & jc & H & Hk)].
        -- left; exact H.
        -- right. apply list_elem_of_fmap in H as (jc & -> & Hin).
           exists (i, o), jc. split; [|reflexivity]. apply elem_of_app. left.
           apply list_elem_of_fmap. exists jc. split; [reflexivity | exact Hin].
        -- right. exists io, jc. split; [|exact Hk]. apply elem_of_app. right; exact H.
      * intros [H|(io & jc & [H|H]%elem_of_app & Hk)].
        -- left; left; exact H.
        -- apply list_elem_of_fmap in H as (jc' & [= -> ->] & Hin).
           left; right. apply list_elem_of_fmap. exists jc'. split; [symmetry; exact Hk | exact Hin].
        -- right. exists io, jc. split; assumption.
Qed.

(** The result of the fusion: one overlapping entry per matching pair,
    then the text entries and the component entries no pair matched. *)
Lemma fuse_spec (ocr_blocks cv_blocks : list block) :
  exists mo mc : gset nat,
    fuse ocr_blocks cv_blocks
    = (map (fun p => overlapping_of (snd (fst p)))
           (matching_pairs (enumerate ocr_blocks) (enumerate cv_blocks))
       ++ unmatched mo ocr_blocks ++ unmatched mc cv_blocks)%list
    /\ (forall i, i ∈ mo <->
          exists o j c, ocr_blocks !! i = Some o /\ cv_blocks !! j = Some c
                        /\ pair_matches o c = true)
    /\ (forall j, j ∈ mc <->
          exists i o c, ocr_blocks !! i = Some o /\ cv_blocks !! j = Some c
                        /\ pair_matches o c = true).
Proof.
  unfold Fusion.fuse.
  destruct (outer_loop_spec cv_blocks (enumerate ocr_blocks) ∅ ∅ [])
    as (mo & mc & Heq & Hmo & Hmc).
  rewrite Heq. exists mo, mc. split; [reflexivity|]. split.
  - intros i. rewrite Hmo. split.
    + intros [H|([i' o] & [j c] & H & Hi)]; [set_solver|].
      apply elem_of_matching_pairs in H as (Ho & Hc & Hm). simpl in *. subst i'.
      apply elem_of_enumerate in Ho, Hc. eauto 7.
    + intros (o & j & c & Ho & Hc & Hm). right. exists (i, o), (j, c).
      split; [|reflexivity]. apply elem_of_matching_pairs.
      rewrite !elem_of_enumerate. auto.
  - intros j. rewrite Hmc. split.
    + intros [H|([i o] & [j' c] & H & Hj)]; [set_solver|].
      apply elem_of_matching_pairs in H as (Ho & Hc & Hm). simpl in *. subst j'.
      apply elem_of_enumerate in Ho, Hc. eauto 7.
    + intros (i & o & c & Ho & Hc & Hm). right. exists (i, o), (j, c).
      split; [|reflexivity]. apply elem_of_matching_pairs.
      rewrite !elem_of_enumerate. auto.
Qed.

Lemma elem_of_unmatched (matched : gset nat) (l : list block) (x : block) :
  x ∈ unmatched matched l <-> exists i, l !! i = Some x /\ i ∉ matched.
Proof.
  unfold unmatched. rewrite elem_of_unmatched_gen.
  split; intros (i & H & Hn); exists i; (split; [|exact Hn]);
    apply elem_of_enumerate; exact H.
Qed.

Lemma pair_matches_iff (o c : block) :
  pair_matches o c = true
  <-> (5 # 100 < iou (position o) (cv_norm width height (position c)))%Q
      \/ (center_dist2 (ocr_pix width height (position o)) (position c) < 30 * 30)%Q.
Proof.
  unfold Fusion.pair_matches, is_center_near.
  rewrite orb_true_iff, andb_true_iff, !Qltb_lt. split.
  - intros [H|[_ H]]; [left | right]; exact H.
  - intros [H|H]; [left; exact H | right; split; [reflexivity | exact H]].
Qed.

Lemma build_ocr_blocks_source (res : list text_block) (flag : bool) (b : block) :
  b ∈ _build_ocr_blocks res flag -> source b = "ocr" /\ b_type b = "text".
Proof.
  unfold _build_ocr_blocks. rewrite list_elem_of_In, in_flat_map.
  intros (tb & _ & Hin).
  destruct (bbox tb) as [|x [|y [|w [|h [|]]]]]; try (inversion Hin; fail).
  destruct (PyStr.truthy _); [|inversion Hin].
  destruct Hin as [<-|[]]. split; reflexivity.
Qed.

Lemma cv_only_source (ui : list block) (c : block) :
  c ∈ cv_only ui -> source c = "cv".
Proof. unfold cv_only. intros [H _]%list_elem_of_filter. exact H. Qed.

(** C7. In the fusion of text entries and component entries, every
    pair whose IoU is above 0.05 or whose centres are less than 30
    pixels apart yields an entry tagged "overlapping" with the label
    and the position of the text entry, and neither entry of the pair
    is in the output on its own; the output has exactly one overlapping
    entry per matching pair; and every entry no pair matched is in the
    output unchanged, with its own source tag. *)
Theorem fusion_merges_matching_pairs (res : list text_block) (ui : list block) :
  let ocr_blocks := _build_ocr_blocks res true in
  let cv_blocks := cv_only ui in
  let out := fuse ocr_blocks cv_blocks in
  (forall o c, o ∈ ocr_blocks -> c ∈ cv_blocks ->
     ((5 # 100 < iou (position o) (cv_norm width height (position c)))%Q
      \/ (center_dist2 (ocr_pix width height (position o)) (position c) < 30 * 30)%Q) ->
     {| b_type := "block"; label := label o; position := position o;
        source := "overlapping" |} ∈ out
     /\ (o ∉ out) /\ (c ∉ out))
  /\ length (filter (fun b => source b = "overlapping") out)
     = length (matching_pairs (enumerate ocr_blocks) (enumerate cv_blocks))
  /\ (forall o, o ∈ ocr_blocks ->
        (forall c, c ∈ cv_blocks -> pair_matches o c = false) ->
        o ∈ out /\ source o = "ocr")
  /\ (forall c, c ∈ cv_blocks ->
        (forall o, o ∈ ocr_blocks -> pair_matches o c = false) ->
        c ∈ out /\ source c = "cv").
Proof.
  intros ocr_blocks cv_blocks out.
  destruct (fuse_spec ocr_blocks cv_blocks) as (mo & mc & Heq & Hmo & Hmc).
  fold out in Heq.
  assert (Hov : forall p : (nat * block) * (nat * block),
             source (overlapping_of (snd (fst p))) = "overlapping") by reflexivity.
  assert (Hsrc_o : forall b, b ∈ unmatched mo ocr_blocks -> source b = "ocr").
  { intros b (i & Hb & _)%elem_of_unmatched.
    apply (build_ocr_blocks_source res true), list_elem_of_lookup. eauto. }
  assert (Hsrc_c : forall b, b ∈ unmatched mc cv_blocks -> source b = "cv").
  { intros b (i & Hb & _)%elem_of_unmatched.
    apply (cv_only_source ui), list_elem_of_lookup. eauto. }
  split; [|split; [|split]].
  - intros o c Ho Hc Hm%pair_matches_iff.
    pose proof (build_ocr_blocks_source res true o Ho) as [Hso _].
    pose proof (cv_only_source ui c Hc) as Hsc.
    apply list_elem_of_lookup in Ho as [i Hi]. apply list_elem_of_lookup in Hc as [j Hj].
    rewrite Heq. split; [|split].
    + apply elem_of_app. left. apply list_elem_of_fmap.
      exists ((i, o), (j, c)). split; [reflexivity|].
      apply elem_of_matching_pairs. rewrite !elem_of_enumerate. auto.
    + rewrite !elem_of_app. intros [H|[H|H]].
      * apply list_elem_of_fmap in H as (p & -> & _). discriminate.
      * apply elem_of_unmatched in H as (i' & Hi' & Hn). apply Hn, Hmo. eauto 7.
      * apply Hsrc_c in H. congruence.
    + rewrite !elem_of_app. intros [H|[H|H]].
      * apply list_elem_of_fmap in H as (p & -> & _). discriminate.
      * apply Hsrc_o in H. congruence.
      * apply elem_of_unmatched in H as (j' & Hj' & Hn). apply Hn, Hmc. eauto 7.
  - rewrite Heq, !filter_app, !length_app.
    assert (H1 : forall l : list ((nat * block) * (nat * block)),
               filter (fun b => source b = "overlapping")
                 (map (fun p => overlapping_of (snd (fst p))) l)
               = map (fun p => overlapping_of (snd (fst p))) l).
    { induction l as [|p l IH]; [reflexivity|].
      cbn [map]. rewrite filter_cons. rewrite decide_True by reflexivity.
      f_equal. exact IH. }
    assert (H2 : forall l : list block, (forall b, b ∈ l -> source b <> "overlapping") ->
                 filter (fun b => source b = "overlapping") l = []).
    { induction l as [|b l IH]; intros Hl; [reflexivity|].
      rewrite filter_cons. rewrite decide_False by (apply Hl; left).
      apply IH. intros b' Hb'. apply Hl. right. exact Hb'. }
    rewrite H1, length_map, !H2; [simpl; lia| |].
    + intros b Hb%Hsrc_c. congruence.
    + intros b Hb%Hsrc_o. congruence.
  - intros o Ho Hnone.
    pose proof (build_ocr_blocks_source res true o Ho) as [Hso _].
    split; [|exact Hso].
    apply list_elem_of_lookup in Ho as [i Hi]. rewrite Heq, !elem_of_app. right; left.
    apply elem_of_unmatched. exists i. split; [exact Hi|].
    intros (o' & j & c & Ho' & Hc & Hm)%Hmo.
    assert (o' = o) by congruence. subst o'.
    rewrite Hnone in Hm; [discriminate|]. apply list_elem_of_lookup. eauto.
  - intros c Hc Hnone.
    pose proof (cv_only_source ui c Hc) as Hsc.
    split; [|exact Hsc].
    apply list_elem_of_lookup in Hc as [j Hj]. rewrite Heq, !elem_of_app. right; right.
    apply elem_of_unmatched. exists j. split; [exact Hj|].
    intros (i & o & c' & Ho & Hc' & Hm)%Hmc.
    assert (c' = c) by congruence. subst c'.
    rewrite Hnone in Hm; [discriminate|]. apply list_elem_of_lookup. eauto.
Qed.

End FusionFacts.

(** *** The fusion on sample detections *)

Example fuse_sample :
  Fusion.fuse 1000 1000 (Fusion._build_ocr_blocks [Fusion.save_text] true)
    [Fusion.cv_button; Fusion.cv_far]
  = [ {| Fusion.b_type := "block"; Fusion.label := "Save"; Fusion.source := "overlapping";
         Fusion.position :=
           {| Fusion.bx := 1 # 10; Fusion.by_ := 1 - (8 # 10) - (5 # 100);
              Fusion.bw := 1 # 10; Fusion.bh := 5 # 100 |} |};
      Fusion.cv_far ].
Proof. vm_compute. reflexivity. Qed.

Lemma fusion_merges_matching_pairs_witness :
  let o := {| Fusion.b_type := "text"; Fusion.label := "Save"; Fusion.source := "ocr";
              Fusion.position :=
                {| Fusion.bx := 1 # 10; Fusion.by_ := 1 - (8 # 10) - (5 # 100);
                   Fusion.bw := 1 # 10; Fusion.bh := 5 # 100 |} |} in
  let out := Fusion.fuse 1000 1000 (Fusion._build_ocr_blocks [Fusion.save_text] true)
               (Fusion.cv_only [Fusion.cv_button; Fusion.cv_far]) in
  {| Fusion.b_type := "block"; Fusion.label := "Save"; Fusion.source := "overlapping";
     Fusion.position := Fusion.position o |} ∈ out
  /\ (o ∉ out) /\ (Fusion.cv_button ∉ out).
Proof.
  intros o out.
  pose proof (fusion_merges_matching_pairs 1000 1000 [Fusion.save_text]
                [Fusion.cv_button; Fusion.cv_far]) as H.
  cbv zeta in H. destruct H as [H _].
  apply (H o Fusion.cv_button).
  - apply list_elem_of_here.
  - apply list_elem_of_here.
  - left. vm_compute. reflexivity.
Defined.

Section BoxFacts.
Import Fusion.
Local Open Scope Q_scope.

Lemma build_ocr_blocks_unit (res : list text_block) (flag : bool) (b : block) :
  Forall (fun tb => inside_frame (bbox tb)) res ->
  b ∈ _build_ocr_blocks res flag -> unit_box (position b).
Proof.
  intros Hres. unfold _build_ocr_blocks. rewrite list_elem_of_In, in_flat_map.
  intros (tb & Htb & Hin).
  rewrite Forall_forall in Hres. apply list_elem_of_In in Htb.
  specialize (Hres tb Htb). unfold inside_frame in Hres.
  destruct (bbox tb) as [|x [|y [|w [|h [|]]]]]; try (inversion Hin; fail).
  destruct (PyStr.truthy _); [|inversion Hin].
  destruct Hin as [<-|[]].
  destruct Hres as ([? ?] & [? ?] & [? ?] & [? ?] & ?).
  unfold unit_box, in_unit. destruct flag; simpl; repeat split; lra.
Qed.

(** C8 (amended). When every raw text box lies inside the frame (each
    of x, y, w, h in [[0, 1]] and y + h <= 1), every entry of the maps
    built from text alone, and every entry of a fused map that is not a
    component-only entry, has x, y, w, h in [[0, 1]]; in particular
    the conversion y' = 1 - y - h stays in [[0, 1]]. *)
Theorem text_boxes_stay_in_unit_square (res : list text_block) :
  Forall (fun tb => inside_frame (bbox tb)) res ->
  (forall flag b, b ∈ _build_ocr_blocks res flag -> unit_box (position b))
  /\ (forall ui m b,
        generate_treasure_map true res ui = Ok m ->
        b ∈ m -> unit_box (position b))
  /\ (forall width height ui m b,
        generate_combined_treasure_map width height true res ui = Ok m ->
        b ∈ m -> unit_box (position b))
  /\ (forall width height ui b,
        b ∈ fuse width height (_build_ocr_blocks res true) (cv_only ui) ->
        source b <> "cv" -> unit_box (position b)).
Proof.
  intros Hres. split; [|split; [|split]].
  - intros flag b. apply build_ocr_blocks_unit. exact Hres.
  - intros ui m b. unfold generate_treasure_map. simpl.
    intros [= <-]. rewrite app_nil_r. apply build_ocr_blocks_unit. exact Hres.
  - intros width height ui m b. unfold generate_combined_treasure_map. simpl.
    intros [= <-]. apply build_ocr_blocks_unit. exact Hres.
  - intros width height ui b Hb Hsrc.
    destruct (fuse_spec width height (_build_ocr_blocks res true) (cv_only ui))
      as (mo & mc & Heq & _ & _).
    rewrite Heq, !elem_of_app in Hb. destruct Hb as [Hb|[Hb|Hb]].
    + apply list_elem_of_fmap in Hb as ([[i o] jc] & -> & Hp).
      apply elem_of_matching_pairs in Hp as (Ho & _ & _). simpl in *.
      apply elem_of_enumerate in Ho.
      apply (build_ocr_blocks_unit res true); [exact Hres|].
      apply list_elem_of_lookup. eauto.
    + apply elem_of_unmatched in Hb as (i & Hb & _).
      apply (build_ocr_blocks_unit res true); [exact Hres|].
      apply list_elem_of_lookup. eauto.
    + apply elem_of_unmatched in Hb as (i & Hb & _).
      exfalso. apply Hsrc. apply (cv_only_source ui). apply list_elem_of_lookup. eauto.
Qed.

End BoxFacts.

Lemma text_boxes_stay_in_unit_square_witness :
  Fusion.unit_box
    {| Fusion.bx := 1 # 10; Fusion.by_ := 1 - (8 # 10) - (5 # 100);
       Fusion.bw := 1 # 10; Fusion.bh := 5 # 100 |}.
Proof.
  assert (H : Forall (fun tb => Fusion.inside_frame (Fusion.bbox tb)) [Fusion.save_text]).
  { constructor; [|constructor]. unfold Fusion.inside_frame, Fusion.in_unit. simpl.
    repeat split; unfold Qle; simpl; lia. }
  apply (text_boxes_stay_in_unit_square [Fusion.save_text] H) with
    (flag := true)
    (b := {| Fusion.b_type := "text"; Fusion.label := "Save"; Fusion.source := "ocr";
             Fusion.position :=
               {| Fusion.bx := 1 # 10; Fusion.by_ := 1 - (8 # 10) - (5 # 100);
                  Fusion.bw := 1 # 10; Fusion.bh := 5 # 100 |} |}).
  apply list_elem_of_here.
Defined.

(** C8, as stated, fails: a text box with every coordinate in
    [[0, 1]] but y + h above 1 is converted to a negative y in the
    combined map; and a component entry no text matches stays in the
    fused map with its pixel coordinates. *)
Lemma box_leaves_unit_interval :
  Fusion.unit_bbox (Fusion.bbox Fusion.tall_text)
  /\ (exists b, Fusion.generate_combined_treasure_map 1000 1000 true [Fusion.tall_text] []
                = Ok [b]
                /\ (Fusion.by_ (Fusion.position b) < 0)%Q
                /\ ~ Fusion.unit_box (Fusion.position b))
  /\ Fusion.cv_far ∈ Fusion.fuse 1000 1000 (Fusion._build_ocr_blocks [Fusion.save_text] true)
                        (Fusion.cv_only [Fusion.cv_button; Fusion.cv_far])
  /\ ~ Fusion.unit_box (Fusion.position Fusion.cv_far).
Proof.
  split; [|split; [|split]].
  - unfold Fusion.unit_bbox, Fusion.in_unit. simpl. repeat split; unfold Qle; simpl; lia.
  - eexists. split; [reflexivity|]. split.
    + vm_compute. reflexivity.
    + intros (_ & [H _] & _). vm_compute in H. apply H. reflexivity.
  - vm_compute. apply list_elem_of_further, list_elem_of_here.
  - intros ([_ H] & _). vm_compute in H. apply H. reflexivity.
Qed.

(** ** Execution guard *)

Section DictFacts.
Import Guard.

Lemma dict_get_set_eq (d : dict) (k : string) (v : pyval) :
  dict_get (dict_set d k v) k = Some v.
Proof.
  induction d as [|[k' v'] d IH]; simpl.
  - rewrite String.eqb_refl. reflexivity.
  - destruct (String.eqb k' k) eqn:E; simpl; rewrite E; [reflexivity | exact IH].
Qed.

Lemma dict_get_set_ne (d : dict) (k k' : string) (v : pyval) :
  k <> k' -> dict_get (dict_set d k v) k' = dict_get d k'.
Proof.
  intros Hne. induction d as [|[k0 v0] d IH]; simpl.
  - apply String.eqb_neq in Hne. rewrite Hne. reflexivity.
  - destruct (String.eqb k0 k) eqn:E; simpl.
    + apply String.eqb_eq in E. subst k0.
      apply String.eqb_neq in Hne. rewrite Hne. reflexivity.
    + destruct (String.eqb k0 k'); [reflexivity | exact IH].
Qed.

Lemma dict_set_nonempty (d : dict) (k : string) (v : pyval) : dict_set d k v <> [].
Proof. destruct d as [|[k' v'] d]; simpl; [|destruct (String.eqb k' k)]; discriminate. Qed.

End DictFacts.

Section GuardFacts.
Import Guard.

Variable py_repr : pyval -> string.
Variable SequenceMatcher_ratio : string -> string -> Q.
Variables pyautogui_loaded pyperclip_loaded : bool.
Variable screen_size : Z * Z.
Variable float_mul : Q -> Q -> Q.

Local Abbreviation execute_action :=
  (execute_action py_repr SequenceMatcher_ratio pyautogui_loaded pyperclip_loaded
     screen_size float_mul).
Local Abbreviation click_or_skip := (click_or_skip pyautogui_loaded).
Local Abbreviation aims_at :=
  (aims_at SequenceMatcher_ratio pyautogui_loaded screen_size float_mul).

Lemma screen_size_loaded p :
  get_screen_size pyautogui_loaded screen_size = Ok p -> pyautogui_loaded = true.
Proof. unfold get_screen_size. destruct pyautogui_loaded; [reflexivity|discriminate]. Qed.

Lemma direct_pixels_loaded v p :
  direct_pixels pyautogui_loaded screen_size float_mul v = Ok p -> pyautogui_loaded = true.
Proof.
  unfold direct_pixels.
  destruct (get_screen_size _ _) as [q|] eqn:E; [|discriminate].
  intros _. eapply screen_size_loaded; eauto.
Qed.

Lemma center_pixels_loaded b p :
  center_pixels pyautogui_loaded screen_size float_mul b = Ok p -> pyautogui_loaded = true.
Proof.
  unfold center_pixels. destruct (Fusion.position b).
  destruct (get_screen_size _ _) as [q|] eqn:E; [|discriminate].
  intros _. eapply screen_size_loaded; eauto.
Qed.

(** A click step hands the pixel it aims at to the duplicate guard. *)
Lemma execute_click_aimed now pa tm tc fx fy :
  dict_get pa "type" = Some (VStr "click") ->
  aims_at pa tm fx fy ->
  execute_action now pa tm tc = click_or_skip now tc fx fy (get pa "target").
Proof.
  intros Hty Haim. unfold Guard.execute_action. rewrite Hty. simpl.
  destruct Haim as [[Hc Hp]|[Hc (t & b & Ht & Htt & Hm & Hp)]].
  - rewrite Hc, Hp. reflexivity.
  - rewrite Hc, Ht. simpl. rewrite Htt. unfold match_target.
    destruct tm as [|b0 tm]; [discriminate|].
    cbn [as_str rbind]. rewrite Hm, Hp. reflexivity.
Qed.

Lemma aims_at_loaded pa tm fx fy : aims_at pa tm fx fy -> pyautogui_loaded = true.
Proof.
  intros [[_ Hp]|[_ (t & b & _ & _ & _ & Hp)]].
  - eapply direct_pixels_loaded; eauto.
  - eapply center_pixels_loaded; eauto.
Qed.

(** C5. The code departs from the claim on a click whose target name,
    or whose recorded last target name, is not a string (a step
    without a target, for one): when its pixel lies at a distance over
    2 and under 15 from the recorded last click, the comparison of the
    names raises AttributeError, where the claim has the click
    executed.  Distances are compared by their squares. *)
Theorem unnamed_click_raises (now : Q) (pa : dict) (tm : list Fusion.block)
    (tc : dict) (fx fy lx ly : Z) (rest : list Z) (lt : pyval) :
  dict_get pa "type" = Some (VStr "click") ->
  aims_at pa tm fx fy ->
  dict_get tc "last_click_coords" = Some (VTuple (lx :: ly :: rest)) ->
  dict_get tc "last_click_target" = Some lt ->
  (forall t, get pa "target" <> VStr t) \/ (forall l, lt <> VStr l) ->
  2 * 2 < dist2 fx fy lx ly < 15 * 15 ->
  execute_action now pa tm (Some tc) = Raise AttributeError.
Proof.
  intros Hty Haim Hc Hl Hnot [Hlo Hhi].
  rewrite (execute_click_aimed now pa tm (Some tc) fx fy Hty Haim).
  unfold Guard.click_or_skip, should_click. rewrite Hc, Hl.
  destruct tc as [|kv tc']; [discriminate|].
  destruct (Z.leb_spec (dist2 fx fy lx ly) 4) as [|_]; [lia|].
  destruct (Z.ltb_spec (dist2 fx fy lx ly) 225) as [_|]; [|lia].
  unfold same_target.
  destruct (get pa "target") as [| t | | | | |] eqn:Ht; try reflexivity.
  destruct lt as [| l | | | | |]; try reflexivity.
  destruct Hnot as [Hnot|Hnot]; [destruct (Hnot t) | destruct (Hnot l)]; reflexivity.
Qed.

(** The guard of a click step against a recorded last click, by the
    squared distance. *)
Lemma guard_cases now pa tm tc fx fy lx ly rest lt :
  dict_get pa "type" = Some (VStr "click") ->
  aims_at pa tm fx fy ->
  dict_get tc "last_click_coords" = Some (VTuple (lx :: ly :: rest)) ->
  dict_get tc "last_click_target" = Some lt ->
  execute_action now pa tm (Some tc)
  = if (dist2 fx fy lx ly <=? 4)%Z
    then Ok (Some (after_skip tc (get pa "target")), [])
    else if (dist2 fx fy lx ly <? 225)%Z
    then let* same := same_target (get pa "target") lt in
         if (same : bool)
         then Ok (Some (after_skip tc (get pa "target")), [])
         else Ok (Some (after_click now tc fx fy (get pa "target")), [EClick fx fy])
    else Ok (Some (after_click now tc fx fy (get pa "target")), [EClick fx fy]).
Proof.
  intros Hty Haim Hc Hl.
  rewrite (execute_click_aimed now pa tm (Some tc) fx fy Hty Haim).
  pose proof (aims_at_loaded pa tm fx fy Haim) as Hload.
  unfold Guard.click_or_skip, should_click, adapter_click. rewrite Hc, Hl, Hload.
  destruct tc as [|kv tc']; [discriminate|].
  destruct (dist2 fx fy lx ly <=? 4)%Z; [reflexivity|].
  destruct (dist2 fx fy lx ly <? 225)%Z; [|reflexivity].
  destruct (same_target (get pa "target") lt) as [[|]|e]; reflexivity.
Qed.

Lemma click_or_skip_inv now tc x y t otc eff :
  click_or_skip now (Some tc) x y t = Ok (otc, eff) ->
  (otc = Some (after_click now tc x y t) /\ eff = [EClick x y])
  \/ (otc = Some (after_skip tc t) /\ eff = []).
Proof.
  unfold Guard.click_or_skip.
  destruct (should_click (Some tc) x y t) as [[|]|e]; simpl; [| |discriminate].
  - unfold adapter_click. destruct pyautogui_loaded; simpl; [|discriminate].
    intros [= <- <-]. left. split; reflexivity.
  - intros [= <- <-]. right. split; reflexivity.
Qed.

(** What a call of [execute_action] can do to the context. *)
Lemma execute_action_context now pa tm tc otc eff :
  execute_action now pa tm (Some tc) = Ok (otc, eff) ->
  otc = Some tc
  \/ (dict_get pa "type" <> Some (VStr "click")
      /\ exists x y, otc = store_move (Some tc) x y (get pa "target"))
  \/ (dict_get pa "type" = Some (VStr "click")
      /\ exists x y, click_or_skip now (Some tc) x y (get pa "target") = Ok (otc, eff)).
Proof.
  unfold Guard.execute_action.
  destruct (dict_get pa "type") as [[| ty | | | | |]|] eqn:Hty; simpl;
    try (intros [= <- <-]; left; reflexivity).
  destruct (String.eqb ty "open") eqn:Eopen.
  { unfold rbind. intros H. repeat case_match; simplify_eq; left; reflexivity. }
  destruct (String.eqb ty "move" || String.eqb ty "hover") eqn:Emove.
  { assert (Hnc : Some (VStr ty) <> Some (VStr "click")).
    { intros [= ->]. discriminate. }
    unfold rbind, match_target, rbind. intros H.
    repeat case_match; simplify_eq; eauto 6. }
  destruct (String.eqb ty "click") eqn:Eclick.
  { apply String.eqb_eq in Eclick. subst ty.
    unfold rbind, match_target, rbind. intros H.
    repeat case_match; simplify_eq;
      first [ left; reflexivity
            | right; right; split; [reflexivity | eauto] ]. }
  destruct (String.eqb ty "key") eqn:Ekey.
  { unfold rbind, guarded_key. intros H. repeat case_match; simplify_eq; left; reflexivity. }
  destruct (String.eqb ty "type") eqn:Etype.
  { unfold rbind, paste_text. intros H. repeat case_match; simplify_eq; left; reflexivity. }
  intros [= <- <-]. left; reflexivity.
Qed.

(** The guard reads nothing of the context but the recorded position
    and target of the last click. *)
Lemma should_click_frame (tc1 tc2 : dict) x y t :
  dict_get tc1 "last_click_coords" = dict_get tc2 "last_click_coords" ->
  dict_get tc1 "last_click_target" = dict_get tc2 "last_click_target" ->
  should_click (Some tc1) x y t = should_click (Some tc2) x y t.
Proof.
  intros Hc Ht. unfold should_click.
  destruct tc1 as [|kv1 tc1], tc2 as [|kv2 tc2]; try reflexivity.
  - rewrite <- Hc. reflexivity.
  - rewrite Hc. reflexivity.
  - rewrite Hc, Ht. reflexivity.
Qed.

Lemma last_click_key_cases (k : string) :
  k ∈ ["last_click_coords"; "last_click_target"; "last_click_time"] ->
  k <> "last_skipped_target" /\ k <> "last_move_coords" /\ k <> "last_move_target".
Proof.
  rewrite !elem_of_cons, elem_of_nil.
  intros [->|[->|[->|[]]]]; repeat split; discriminate.
Qed.

(** C10. When a call of [execute_action] issues no click, the
    last-click position, target and time of the context are what they
    were; a click step that is suppressed changes nothing but
    [last_skipped_target]; and the guard then judges any later click
    exactly as it would have before the suppressed one.  So the
    last-click fields change only when a click is issued. *)
Theorem suppression_keeps_last_click (now : Q) (pa : dict) (tm : list Fusion.block)
    (tc tc' : dict) (effects : list effect) :
  execute_action now pa tm (Some tc) = Ok (Some tc', effects) ->
  (forall x y, EClick x y ∉ effects) ->
  (forall k, k ∈ ["last_click_coords"; "last_click_target"; "last_click_time"] ->
             dict_get tc' k = dict_get tc k)
  /\ (dict_get pa "type" = Some (VStr "click") ->
      tc' = tc \/ tc' = after_skip tc (get pa "target"))
  /\ (forall x y t, should_click (Some tc') x y t = should_click (Some tc) x y t).
Proof.
  intros Hrun Hno.
  assert (Hframe : forall k,
             k ∈ ["last_click_coords"; "last_click_target"; "last_click_time"] ->
             dict_get tc' k = dict_get tc k).
  { intros k Hk. destruct (last_click_key_cases k Hk) as (Hs & Hm1 & Hm2).
    destruct (execute_action_context now pa tm tc _ _ Hrun)
      as [[= ->]|[(_ & x & y & [= ->])|(_ & x & y & Hclick)]].
    - reflexivity.
    - rewrite !dict_get_set_ne by congruence. reflexivity.
    - destruct (click_or_skip_inv now tc x y _ _ _ Hclick) as [[_ ->]|[[= ->] _]].
      + exfalso. apply (Hno x y). apply list_elem_of_here.
      + unfold after_skip. rewrite dict_get_set_ne by congruence. reflexivity. }
  split; [exact Hframe|]. split.
  - intros Hty.
    destruct (execute_action_context now pa tm tc _ _ Hrun)
      as [[= ->]|[(Hnc & _)|(_ & x & y & Hclick)]].
    + left; reflexivity.
    + contradiction.
    + destruct (click_or_skip_inv now tc x y _ _ _ Hclick) as [[_ ->]|[[= ->] _]].
      * exfalso. apply (Hno x y). apply list_elem_of_here.
      * right; reflexivity.
  - intros x y t. apply should_click_frame; apply Hframe;
      rewrite !elem_of_cons; auto.
Qed.

End GuardFacts.

(** *** The guard on the sample run *)

(** A second click 1 pixel away is suppressed whatever its target; 10
    pixels away it is suppressed under the same target name and issued
    under another; 20 pixels away it is issued. *)
Example duplicate_click_examples :
  Guard.sample_execute 7 (Guard.click_step (101 # 1000) (1 # 10) "Other") []
    (Some Guard.last_click_ctx)
  = Ok (Some (Guard.after_skip Guard.last_click_ctx (Guard.VStr "Other")), [])
  /\ Guard.sample_execute 7 (Guard.click_step (11 # 100) (1 # 10) " save ") []
       (Some Guard.last_click_ctx)
     = Ok (Some (Guard.after_skip Guard.last_click_ctx (Guard.VStr " save ")), [])
  /\ Guard.sample_execute 7 (Guard.click_step (11 # 100) (1 # 10) "Open") []
       (Some Guard.last_click_ctx)
     = Ok (Some (Guard.after_click 7 Guard.last_click_ctx 110 100 (Guard.VStr "Open")),
           [Guard.EClick 110 100])
  /\ Guard.sample_execute 7 (Guard.click_step (12 # 100) (1 # 10) "Save") []
       (Some Guard.last_click_ctx)
     = Ok (Some (Guard.after_click 7 Guard.last_click_ctx 120 100 (Guard.VStr "Save")),
           [Guard.EClick 120 100]).
Proof. repeat split; vm_compute; reflexivity. Qed.

(** The pixel is that of the floating-point product: 0.35 of a width of
    1440 is pixel 503, the product being just below 504. *)
Example pixel_of_machine_product :
  Guard.direct_pixels true (1440, 900) float_product (Guard.VList [35 # 100; 1 # 2])
  = Ok (503, 450)
  /\ py_int ((35 # 100) * 1440) = 504.
Proof. split; vm_compute; reflexivity. Qed.

(** A step without a target, 10 pixels from the recorded click on
    "Save". *)
Lemma unnamed_click_raises_witness :
  Guard.sample_execute 7
    [("type", Guard.VStr "click"); ("coordinates", Guard.VList [11 # 100; 1 # 10])] []
    (Some Guard.last_click_ctx)
  = Raise AttributeError.
Proof.
  apply (unnamed_click_raises Guard.plain_repr Resolver.difflib_ratio true true
           (1000, 1000) float_product 7
           [("type", Guard.VStr "click"); ("coordinates", Guard.VList [11 # 100; 1 # 10])]
           [] Guard.last_click_ctx 110 100 100 100 [] (Guard.VStr "Save")).
  - reflexivity.
  - left. split; reflexivity.
  - reflexivity.
  - reflexivity.
  - left. intros t. discriminate.
  - unfold Guard.dist2. lia.
Defined.

Lemma suppression_keeps_last_click_witness :
  Guard.dict_get (Guard.after_skip Guard.last_click_ctx (Guard.VStr " save "))
    "last_click_coords"
  = Guard.dict_get Guard.last_click_ctx "last_click_coords".
Proof.
  apply (suppression_keeps_last_click Guard.plain_repr Resolver.difflib_ratio true true
           (1000, 1000) float_product 7 (Guard.click_step (11 # 100) (1 # 10) " save ") []
           Guard.last_click_ctx
           (Guard.after_skip Guard.last_click_ctx (Guard.VStr " save ")) []).
  - reflexivity.
  - intros x y H. inversion H.
  - apply list_elem_of_here.
Defined.

(** ** Placeholder resolution and the replay loop *)

Lemma prefix_app (p s : string) :
  String.prefix p s = true <-> exists r, s = p ++ r.
Proof.
  revert s. induction p as [|c p IH]; intros s.
  - split; [intros _; exists s; reflexivity | intros _; destruct s; reflexivity].
  - destruct s as [|d s]; simpl.
    + split; [discriminate | intros [r H]; discriminate].
    + destruct (ascii_dec c d) as [->|Hne].
      * rewrite IH. split; intros [r H]; exists r.
        -- simpl. rewrite H. reflexivity.
        -- simpl in H. injection H as H. exact H.
      * split; [discriminate | intros [r H]; simpl in H; injection H as H1 H2; congruence].
Qed.

Lemma contains_app (sub s : string) :
  PyStr.contains sub s = true <-> exists pre post, s = pre ++ sub ++ post.
Proof.
  induction s as [|c s IH]; cbn [PyStr.contains].
  - rewrite orb_false_r, prefix_app. split.
    + intros [r H]. exists "", r. exact H.
    + intros (pre & post & H). destruct pre; [|discriminate]. exists post. exact H.
  - rewrite orb_true_iff, prefix_app, IH. split.
    + intros [[r H]|(pre & post & H)].
      * exists "", r. exact H.
      * exists (String c pre), post. rewrite H. reflexivity.
    + intros ([|d pre] & post & H).
      * left. exists post. exact H.
      * right. simpl in H. injection H as -> ->. exists pre, post. reflexivity.
Qed.

Lemma append_cons (x : ascii) (a b : string) : String x a ++ b = String x (a ++ b).
Proof. reflexivity. Qed.

Lemma append_assoc (a b c : string) : (a ++ b) ++ c = a ++ b ++ c.
Proof.
  induction a as [|x a IH]; [reflexivity|].
  rewrite !append_cons. f_equal. exact IH.
Qed.

(** A string that holds a placeholder holds both braces. *)
Lemma placeholder_has_braces (name s : string) :
  PyStr.contains ("{" ++ name ++ "}") s = true ->
  PyStr.contains "{" s = true /\ PyStr.contains "}" s = true.
Proof.
  intros (pre & post & ->)%contains_app. split; apply contains_app.
  - exists pre, (name ++ "}" ++ post).
    change ("{" ++ name ++ "}") with (String "{" (name ++ "}")).
    rewrite append_cons, append_assoc. reflexivity.
  - exists (pre ++ "{" ++ name), post.
    change ("{" ++ name ++ "}") with (String "{" (name ++ "}")).
    change ("{" ++ name) with (String "{" name).
    rewrite !append_assoc, !append_cons, !append_assoc. reflexivity.
Qed.

(** *** Texts cut at the braces *)

Section TemplateFacts.
Import Guard.

Variable py_repr : pyval -> string.

Local Abbreviation safe_val := (safe_val py_repr).
Local Abbreviation direct_pass := (direct_pass py_repr).
Local Abbreviation regex_pass_from := (regex_pass_from py_repr).
Local Abbreviation regex_replace := (regex_replace py_repr).
Local Abbreviation resolve_value := (resolve_value py_repr).
Local Abbreviation tidy_context := (tidy_context py_repr).
Local Abbreviation fill_segment := (fill_segment py_repr).
Local Abbreviation fill := (fill py_repr).
Local Abbreviation direct_segment := (direct_segment py_repr).

Lemma append_nil_r (s : string) : s ++ "" = s.
Proof. induction s as [|c s IH]; [reflexivity|]. rewrite append_cons, IH. reflexivity. Qed.

Lemma length_append (a b : string) :
  String.length (a ++ b) = (String.length a + String.length b)%nat.
Proof.
  induction a as [|x a IH]; [reflexivity|].
  rewrite append_cons. cbn [String.length]. rewrite IH. reflexivity.
Qed.

Lemma brace_free_cons (c : ascii) (s : string) :
  brace_free (String c s) <-> (c <> "{"%char /\ c <> "}"%char) /\ brace_free s.
Proof.
  unfold brace_free. cbn [PyStr.all_chars]. unfold no_brace.
  rewrite andb_true_iff, !negb_true_iff.
  destruct (Ascii.eqb_spec c "{"), (Ascii.eqb_spec c "}"); intuition congruence.
Qed.

Lemma brace_free_app (a b : string) :
  brace_free (a ++ b) <-> brace_free a /\ brace_free b.
Proof.
  induction a as [|c a IH]; [unfold brace_free; simpl; tauto|].
  rewrite append_cons, !brace_free_cons, IH. tauto.
Qed.

(** *** The direct replacement on such a text *)

Lemma replace_from_skip (old new a : string) :
  forall k s,
    PyStr.replace_from old new (String.length a + k) (a ++ s)
    = PyStr.replace_from old new k s.
Proof.
  induction a as [|c a IH]; intros k s; [reflexivity|].
  rewrite append_cons. cbn [String.length Nat.add PyStr.replace_from]. apply IH.
Qed.

Lemma no_open_cons (c : ascii) (s : string) :
  no_open (String c s) <-> c <> "{"%char /\ no_open s.
Proof.
  unfold no_open. cbn [PyStr.all_chars]. rewrite negb_true_iff.
  destruct (Ascii.eqb_spec c "{"); intuition congruence.
Qed.

Lemma no_open_hole (c : string) : brace_free c -> no_open (c ++ "}").
Proof.
  induction c as [|x c IH].
  - intros _. apply no_open_cons. split; [discriminate | exact I].
  - intros [[Hx _] Hc]%brace_free_cons. rewrite append_cons.
    apply no_open_cons. split; [exact Hx | apply IH; exact Hc].
Qed.

Lemma brace_free_no_open (t : string) : brace_free t -> no_open t.
Proof.
  induction t as [|x t IH]; [intros _; exact I|].
  intros [[Hx _] Ht]%brace_free_cons. apply no_open_cons. auto.
Qed.

(** Text without an opening brace is copied. *)
Lemma replace_from_text (o new t s : string) :
  no_open t ->
  PyStr.replace_from (String "{" o) new 0 (t ++ s)
  = t ++ PyStr.replace_from (String "{" o) new 0 s.
Proof.
  induction t as [|c t IH]; [reflexivity|].
  intros [Hc Ht]%no_open_cons. rewrite !append_cons.
  cbn [PyStr.replace_from String.prefix].
  destruct (ascii_dec "{" c) as [E|_]; [congruence|].
  rewrite (IH Ht). reflexivity.
Qed.

Lemma prefix_hole (k c s : string) :
  brace_free k -> brace_free c ->
  String.prefix (k ++ "}") (c ++ "}" ++ s) = true -> c = k.
Proof.
  revert c. induction k as [|y k IH]; intros [|x c] Hk Hc.
  - reflexivity.
  - apply brace_free_cons in Hc as [[_ Hx] _].
    rewrite append_cons. change ("" ++ "}") with (String "}" "").
    cbn [String.prefix].
    destruct (ascii_dec "}" x); [congruence | discriminate].
  - apply brace_free_cons in Hk as [[_ Hy] _].
    rewrite append_cons. change ("" ++ "}" ++ s) with (String "}" s).
    cbn [String.prefix].
    destruct (ascii_dec y "}"); [congruence | discriminate].
  - apply brace_free_cons in Hk as [_ Hk]. apply brace_free_cons in Hc as [_ Hc].
    rewrite !append_cons. cbn [String.prefix].
    destruct (ascii_dec y x) as [->|]; [|discriminate].
    intros H. f_equal. apply IH; assumption.
Qed.

Lemma replace_render (k v : string) (segs : list segment) :
  brace_free k -> template segs ->
  PyStr.replace ("{" ++ k ++ "}") v (render segs) = render (map (subst1 k v) segs).
Proof.
  intros Hk. change ("{" ++ k ++ "}") with (String "{" (k ++ "}")).
  unfold PyStr.replace.
  induction 1 as [|g segs Hg _ IH]; [reflexivity|].
  cbn [render map]. destruct g as [t|c]; cbn [render_segment subst1].
  - rewrite (replace_from_text _ _ _ _ (brace_free_no_open _ Hg)), IH. reflexivity.
  - destruct Hg as [Hne Hc].
    change ("{" ++ c ++ "}") with (String "{" (c ++ "}")).
    rewrite append_cons, append_assoc.
    cbn [PyStr.replace_from String.prefix].
    destruct (ascii_dec "{" "{") as [_|Hn]; [|congruence].
    destruct (String.eqb_spec c k) as [->|Hck].
    + assert (Hp : String.prefix (k ++ "}") (k ++ "}" ++ render segs) = true).
      { apply prefix_app. exists (render segs). rewrite append_assoc. reflexivity. }
      rewrite Hp. cbn [render_segment String.length].
      replace (S (String.length (k ++ "}")) - 1)%nat
        with (String.length (k ++ "}") + 0)%nat by lia.
      rewrite <- append_assoc, replace_from_skip, IH. reflexivity.
    + destruct (String.prefix (k ++ "}") (c ++ "}" ++ render segs)) eqn:Hp.
      { exfalso. apply Hck. eapply prefix_hole; eauto. }
      cbn [render_segment].
      change ("{" ++ c ++ "}") with (String "{" (c ++ "}")).
      rewrite (append_cons "{" (c ++ "}")). f_equal.
      rewrite <- append_assoc, replace_from_text, IH; [reflexivity|].
      apply no_open_hole. exact Hc.
Qed.

Lemma subst1_well_formed (k v : string) (g : segment) :
  brace_free v -> well_formed g -> well_formed (subst1 k v g).
Proof.
  intros Hv. destruct g as [t|c]; [auto|]. cbn [subst1].
  destruct (String.eqb c k); auto.
Qed.

Lemma replace_absent (old new s : string) :
  old <> "" -> PyStr.contains old s = false -> PyStr.replace old new s = s.
Proof.
  intros Hold. unfold PyStr.replace. destruct old as [|o old]; [congruence|]. clear Hold.
  induction s as [|c s IH]; [reflexivity|].
  cbn [PyStr.contains]. intros [Hp Hc]%orb_false_iff.
  cbn [PyStr.replace_from]. rewrite Hp, (IH Hc). reflexivity.
Qed.

Lemma direct_pass_render (ctx : dict) :
  tidy_context ctx ->
  forall segs, template segs ->
    direct_pass ctx (render segs) = render (map (direct_segment ctx) segs).
Proof.
  unfold Guard.direct_pass.
  induction 1 as [|[k v] ctx [Hk Hv] _ IH]; intros segs Hsegs.
  - cbn [fold_left]. f_equal. induction segs as [|g segs IHs]; [reflexivity|].
    apply Forall_cons in Hsegs as [_ Hsegs]. cbn [map]. rewrite <- (IHs Hsegs).
    destruct g; reflexivity.
  - cbn [fold_left fst snd] in *.
    assert (Hstep : (if PyStr.contains ("{" ++ k ++ "}") (render segs)
                     then PyStr.replace ("{" ++ k ++ "}") (Guard.safe_val py_repr v)
                            (render segs)
                     else render segs)
                    = render (map (subst1 k (Guard.safe_val py_repr v)) segs)).
    { destruct (PyStr.contains ("{" ++ k ++ "}") (render segs)) eqn:Hc.
      - apply replace_render; assumption.
      - rewrite <- (replace_render k _ segs Hk Hsegs).
        symmetry. apply replace_absent; [discriminate | exact Hc]. }
    rewrite Hstep, IH.
    + f_equal. rewrite map_map. apply map_ext. intros [t|c]; [reflexivity|].
      cbn [subst1 direct_segment dict_get].
      rewrite String.eqb_sym.
      destruct (String.eqb k c); reflexivity.
    + apply Forall_fmap. eapply Forall_impl; [exact Hsegs|].
      intros g. apply subst1_well_formed. exact Hv.
Qed.

(** *** The pattern pass on such a text *)

Lemma regex_skip (ctx : dict) (a : string) :
  forall k s,
    regex_pass_from ctx (String.length a + k) (a ++ s) = regex_pass_from ctx k s.
Proof.
  induction a as [|c a IH]; intros k s; [reflexivity|].
  rewrite append_cons. cbn [String.length Nat.add Guard.regex_pass_from]. apply IH.
Qed.

Lemma regex_from_text (ctx : dict) (t s : string) :
  no_open t ->
  regex_pass_from ctx 0 (t ++ s) = t ++ regex_pass_from ctx 0 s.
Proof.
  induction t as [|c t IH]; [reflexivity|].
  intros [Hc Ht]%no_open_cons. rewrite !append_cons.
  cbn [Guard.regex_pass_from].
  destruct (Ascii.eqb_spec c "{") as [E|_]; [congruence|].
  rewrite (IH Ht). reflexivity.
Qed.

Lemma until_close_hole (c s : string) :
  brace_free c -> until_close (c ++ String "}" s) = Some c.
Proof.
  induction c as [|x c IH].
  - intros _. reflexivity.
  - intros [[_ Hx] Hc]%brace_free_cons. rewrite append_cons.
    cbn [until_close]. destruct (Ascii.eqb_spec x "}") as [E|_]; [congruence|].
    rewrite (IH Hc). reflexivity.
Qed.

Lemma regex_from_hole (ctx : dict) (c s : string) :
  c <> "" -> brace_free c ->
  regex_pass_from ctx 0 (("{" ++ c ++ "}") ++ s)
  = regex_replace ctx c ++ regex_pass_from ctx 0 s.
Proof.
  intros Hne Hc.
  change ("{" ++ c ++ "}") with (String "{" (c ++ "}")).
  rewrite (append_cons "{" (c ++ "}")), append_assoc.
  change ("}" ++ s) with (String "}" s).
  cbn [Guard.regex_pass_from Ascii.eqb]. cbn.
  rewrite (until_close_hole c s Hc).
  destruct c as [|c' content']; [congruence|]. f_equal.
  replace (S (S (String.length content')))
    with (String.length (String c' content' ++ "}") + 0)%nat.
  - change (String "}" s) with ("}" ++ s). rewrite <- append_assoc. apply regex_skip.
  - rewrite length_append. cbn [String.length]. lia.
Qed.

Lemma tidy_value (ctx : dict) (k : string) (v : pyval) :
  tidy_context ctx -> dict_get ctx k = Some v -> brace_free (safe_val v).
Proof.
  induction 1 as [|[k' v'] ctx [_ Hv] _ IH]; [discriminate|].
  cbn [dict_get]. destruct (String.eqb k' k); [|exact IH].
  intros [= <-]. exact Hv.
Qed.

(** Both passes on a text cut at the braces. *)
Lemma regex_pass_render (ctx : dict) (segs : list segment) :
  tidy_context ctx -> template segs ->
  regex_pass_from ctx 0 (render (map (direct_segment ctx) segs)) = fill ctx segs.
Proof.
  intros Hctx. induction 1 as [|g segs Hg _ IH]; [reflexivity|].
  cbn [map render fill]. destruct g as [t|c]; cbn [Guard.direct_segment fill_segment].
  - cbn [render_segment]. rewrite regex_from_text, IH; [reflexivity|].
    apply brace_free_no_open. exact Hg.
  - destruct Hg as [Hne Hc].
    destruct (dict_get ctx c) as [v|] eqn:Hv.
    + cbn [render_segment]. rewrite regex_from_text, IH; [reflexivity|].
      apply brace_free_no_open. eapply tidy_value; eauto.
    + cbn [render_segment]. rewrite (regex_from_hole ctx c _ Hne Hc), IH. reflexivity.
Qed.

(** Resolution of a text cut at the braces fills its placeholders. *)
Lemma resolve_value_render (ctx : dict) (segs : list segment) :
  tidy_context ctx -> template segs ->
  resolve_value ctx (VStr (render segs)) = VStr (fill ctx segs).
Proof.
  intros Hctx Hsegs. cbn [Guard.resolve_value]. unfold regex_pass.
  rewrite (direct_pass_render ctx Hctx segs Hsegs).
  rewrite (regex_pass_render ctx segs Hctx Hsegs). reflexivity.
Qed.

(** A placeholder the context cannot fill is still there. *)
Lemma fill_keeps_unknown (ctx : dict) (segs : list segment) (c : string) :
  unknown_hole ctx segs c ->
  PyStr.contains ("{" ++ c ++ "}") (fill ctx segs) = true.
Proof.
  intros (Hin & Hc & Hs). apply contains_app.
  apply list_elem_of_In, in_split in Hin as (l1 & l2 & ->).
  assert (Happ : forall a b, fill ctx (a ++ b) = fill ctx a ++ fill ctx b).
  { intros a b. induction a as [|g a IHa]; [reflexivity|].
    cbn [app Guard.fill]. rewrite IHa, append_assoc. reflexivity. }
  exists (fill ctx l1), (fill ctx l2).
  rewrite Happ. cbn [Guard.fill fill_segment]. rewrite Hc, Hs. rewrite append_assoc.
  reflexivity.
Qed.

End TemplateFacts.

Section ReplayFacts.
Import Guard.

Variable py_repr : pyval -> string.
Variable SequenceMatcher_ratio : string -> string -> Q.
Variables pyautogui_loaded pyperclip_loaded : bool.
Variable screen_size : Z * Z.
Variable float_mul : Q -> Q -> Q.
Variable visual_stack : nat -> nat -> option (list Fusion.block).
Variable qwen_text : nat -> nat -> option string.
Variable clock : nat -> nat -> Q.

Local Abbreviation run_steps :=
  (run_steps py_repr SequenceMatcher_ratio pyautogui_loaded pyperclip_loaded
     screen_size float_mul visual_stack qwen_text clock).
Local Abbreviation ping_pong_loop :=
  (ping_pong_loop py_repr SequenceMatcher_ratio pyautogui_loaded pyperclip_loaded
     screen_size float_mul visual_stack qwen_text clock).
Local Abbreviation resolve := (resolve_step_placeholders py_repr).

Lemma unresolved_field (step : dict) (k name s : string) :
  (k, VStr s) ∈ step ->
  PyStr.contains ("{" ++ name ++ "}") s = true ->
  has_unresolved step = true.
Proof.
  intros Hin [Ho Hc]%placeholder_has_braces. unfold has_unresolved.
  apply existsb_exists. exists (k, VStr s). split.
  - apply list_elem_of_In. exact Hin.
  - simpl. rewrite Ho, Hc. reflexivity.
Qed.

Lemma run_steps_refuses (i : nat) (st : dict) (rest : list dict) (k : nat) (tc : dict) :
  has_unresolved (resolve st tc) = true ->
  run_steps i (st :: rest) k tc
  = ([], match visual_stack i k with
         | Some _ => UnresolvedPlaceholder
         | None => VisualStackFailed
         end).
Proof.
  intros H. simpl. destruct (visual_stack i k); [|reflexivity].
  rewrite H. reflexivity.
Qed.


End ReplayFacts.


(** The direct pass comes first: a name written with its spaces is
    found as it is, where the pattern pass would look it up stripped;
    and a value that holds a placeholder is resolved in its turn. *)
Example direct_pass_comes_first :
  Guard.resolve_step_placeholders Guard.plain_repr
    [("text", Guard.VStr "Hello { name }")] [(" name ", Guard.VStr "Mia")]
  = [("text", Guard.VStr "Hello Mia")]
  /\ Guard.resolve_step_placeholders Guard.plain_repr
       [("text", Guard.VStr "{a}")] [("a", Guard.VStr "{b}"); ("b", Guard.VStr "x")]
     = [("text", Guard.VStr "x")].
Proof. split; reflexivity. Qed.


(** ** Floating point *)

Section FloatFacts.
Local Open Scope Q_scope.

Lemma round_half_even_error (x : Q) :
  - (1 # 2) <= inject_Z (round_half_even x) - x <= 1 # 2.
Proof.
  unfold round_half_even.
  pose proof (Qfloor_le x) as Hlo. pose proof (Qlt_floor x) as Hhi.
  rewrite inject_Z_plus in Hhi. change (inject_Z 1) with 1 in Hhi.
  destruct (Qltb (x - inject_Z (Qfloor x)) (1 # 2)) eqn:E1.
  { apply Qltb_lt in E1. split; lra. }
  apply Qltb_ge in E1.
  destruct (Qltb (1 # 2) (x - inject_Z (Qfloor x))) eqn:E2.
  { rewrite inject_Z_plus. change (inject_Z 1) with 1. split; lra. }
  apply Qltb_ge in E2.
  destruct (Z.even (Qfloor x)).
  - split; lra.
  - rewrite inject_Z_plus. change (inject_Z 1) with 1. split; lra.
Qed.

Lemma pow2_pos (e : Z) : 0 < pow2 e.
Proof. unfold pow2. apply Qpower_0_lt. reflexivity. Qed.

Lemma pow2_plus (a b : Z) : pow2 (a + b) == pow2 a * pow2 b.
Proof. unfold pow2. apply Qpower_plus. discriminate. Qed.

Lemma pow2_Z (n : Z) : (0 <= n)%Z -> pow2 n == inject_Z (2 ^ n).
Proof. intros H. unfold pow2. rewrite Zpower_Qpower by exact H. reflexivity. Qed.

Lemma pow2_opp (n : Z) : pow2 (- n) == / pow2 n.
Proof. unfold pow2. apply Qpower_opp. Qed.

(** The exponent found for a positive number is not too large. *)
Lemma ilog2_le (q : Q) : 0 < q -> pow2 (ilog2 q) <= q.
Proof.
  intros Hq. unfold ilog2.
  destruct (Qleb _ q) eqn:E; [apply Qleb_le in E; exact E|]. clear E.
  destruct q as [n d]. cbn [Qnum Qden].
  assert (Hn : (0 < n)%Z).
  { unfold Qlt in Hq. simpl in Hq. lia. }
  set (A := Z.log2 n). set (B := Z.log2 (Z.pos d)).
  assert (HA : (0 <= A)%Z) by apply Z.log2_nonneg.
  assert (HB : (0 <= B)%Z) by apply Z.log2_nonneg.
  replace (A - B - 1)%Z with (A + - (B + 1))%Z by lia.
  rewrite pow2_plus, pow2_opp, !pow2_Z by lia.
  assert (H1 : (2 ^ A <= n)%Z) by (apply Z.log2_spec; lia).
  assert (H2 : (Z.pos d < 2 ^ (B + 1))%Z).
  { replace (B + 1)%Z with (Z.succ B) by lia. apply Z.log2_spec. lia. }
  assert (H3 : (0 < 2 ^ A)%Z) by (apply Z.pow_pos_nonneg; lia).
  set (X := (2 ^ A)%Z) in *. set (Y := (2 ^ (B + 1))%Z) in *.
  assert (HY : (0 < Y)%Z) by lia.
  destruct Y as [|y|y]; try lia.
  unfold Qle, Qinv, Qmult, inject_Z. cbn [Qnum Qden].
  rewrite ?Z.mul_1_l, ?Z.mul_1_r, ?Pos.mul_1_l, ?Pos.mul_1_r.
  nia.
Qed.

(** One rounding moves a number by at most [2 ** -53] of itself. *)
Lemma b64_error (q : Q) : Qabs (b64 q - q) <= Qabs q * unit_roundoff.
Proof.
  unfold b64. destruct (Qeq_bool q 0) eqn:E0.
  { apply Qeq_bool_iff in E0. rewrite E0. vm_compute. discriminate. }
  assert (Hq : ~ q == 0) by (apply Qeq_bool_neq; exact E0).
  set (a := Qabs q).
  assert (Ha : 0 < a).
  { unfold a. destruct (Qlt_le_dec q 0) as [Hneg|Hpos].
    - rewrite Qabs_neg by lra. lra.
    - rewrite Qabs_pos by lra. destruct (Qeq_dec q 0); [contradiction | lra]. }
  set (ulp := pow2 (ilog2 a - 52)).
  assert (Hulp : 0 < ulp) by apply pow2_pos.
  assert (Hle : ulp * 4503599627370496 <= a).
  { unfold ulp. replace (ilog2 a - 52)%Z with (ilog2 a + - (52))%Z by lia.
    rewrite pow2_plus. pose proof (ilog2_le a Ha) as H.
    assert (Hc : pow2 (- (52)) * 4503599627370496 == 1) by reflexivity.
    rewrite <- Qmult_assoc, Hc. lra. }
  pose proof (round_half_even_error (a / ulp)) as [H1 H2].
  set (m := inject_Z (round_half_even (a / ulp))) in *.
  assert (Hdiv : a / ulp * ulp == a) by (field; lra).
  assert (Herr : - (ulp * (1 # 2)) <= m * ulp - a <= ulp * (1 # 2)).
  { rewrite <- Hdiv at 1 2. split; nra. }
  assert (Hu : ulp * (1 # 2) <= a * unit_roundoff).
  { unfold unit_roundoff. lra. }
  destruct (Qltb q 0) eqn:Es.
  - apply Qltb_lt in Es.
    assert (Haq : a == - q) by (unfold a; apply Qabs_neg; lra).
    rewrite Qred_correct. apply Qabs_Qle_condition. rewrite Haq in *. split; lra.
  - apply Qltb_ge in Es.
    assert (Haq : a == q) by (unfold a; apply Qabs_pos; lra).
    rewrite Qred_correct. apply Qabs_Qle_condition. rewrite Haq in *. split; lra.
Qed.

Lemma b64_nonneg (q : Q) :
  0 <= q ->
  q * (1 - unit_roundoff) <= b64 q /\ b64 q <= q * (1 + unit_roundoff).
Proof.
  intros Hq. pose proof (b64_error q) as H.
  rewrite (Qabs_pos q) in H by exact Hq.
  apply Qabs_Qle_condition in H as [H1 H2]. split; lra.
Qed.

Lemma b64_nonpos (q : Q) :
  q <= 0 ->
  q * (1 + unit_roundoff) <= b64 q /\ b64 q <= q * (1 - unit_roundoff).
Proof.
  intros Hq. pose proof (b64_error q) as H.
  rewrite (Qabs_neg q) in H by exact Hq.
  apply Qabs_Qle_condition in H as [H1 H2]. split; lra.
Qed.

End FloatFacts.

(** ** Line reconstructor *)

Section SortFacts.
Import Lines.
Context {A : Type} (key : A -> Q).

Lemma insert_by_perm (x : A) (l : list A) : insert_by key x l ≡ₚ x :: l.
Proof.
  induction l as [|y l IH]; simpl; [reflexivity|].
  destruct (Qltb (key y) (key x)); [|reflexivity].
  rewrite IH. apply Permutation_swap.
Qed.

Lemma sorted_by_perm (l : list A) : sorted_by key l ≡ₚ l.
Proof.
  induction l as [|x l IH]; simpl; [reflexivity|].
  rewrite insert_by_perm, IH. reflexivity.
Qed.

Lemma insert_by_sorted (x : A) (l : list A) :
  StronglySorted (key_le key) l -> StronglySorted (key_le key) (insert_by key x l).
Proof.
  induction 1 as [|y l Hs IH Hy]; simpl.
  - constructor; constructor.
  - destruct (Qltb (key y) (key x)) eqn:E.
    + constructor; [exact IH|].
      apply Qltb_lt in E.
      rewrite Forall_forall. intros z Hz.
      rewrite insert_by_perm in Hz. apply elem_of_cons in Hz as [->|Hz].
      * apply Qlt_le_weak. exact E.
      * rewrite Forall_forall in Hy. apply Hy. exact Hz.
    + apply Qltb_ge in E. constructor.
      * constructor; assumption.
      * constructor; [exact E|].
        rewrite Forall_forall in Hy |- *. intros z Hz.
        unfold key_le in *. eapply Qle_trans; [exact E | apply Hy; exact Hz].
Qed.

Lemma sorted_by_sorted (l : list A) : StronglySorted (key_le key) (sorted_by key l).
Proof.
  induction l as [|x l IH]; simpl; [constructor|].
  apply insert_by_sorted. exact IH.
Qed.

End SortFacts.

Section LineFacts.
Import Fusion Lines.
Local Open Scope Q_scope.

(** *** Rendering of one line *)

Lemma merge_fold (x_tolerance : Q) (l : list lblock) (acc : string) (prev : lblock) :
  fst (fold_left (merge_step x_tolerance) l (acc, Some (est_right prev)))
  = (acc ++ join_after x_tolerance prev l)%string.
Proof.
  revert acc prev. induction l as [|b l IH]; intros acc prev.
  - simpl. clear. induction acc as [|c acc IH]; [reflexivity|].
    rewrite append_cons. f_equal. exact IH.
  - cbn [fold_left join_after]. unfold merge_step at 2.
    fold (est_right b). rewrite IH.
    destruct (Qltb x_tolerance (fsub (l_x b) (est_right prev)));
      rewrite !append_assoc; reflexivity.
Qed.

Lemma render_line_join (x_tolerance : Q) (ln : line) :
  render_line x_tolerance ln
  = join_blocks x_tolerance (sorted_by l_x (line_blocks ln)).
Proof.
  unfold render_line, join_blocks.
  destruct (sorted_by l_x (line_blocks ln)) as [|b l]; [reflexivity|].
  cbn [fold_left]. unfold merge_step at 2. fold (est_right b).
  rewrite merge_fold. reflexivity.
Qed.

(** *** The closeness test *)

Lemma qabs_le (q c : Q) : qabs q <= c <-> - c <= q /\ q <= c.
Proof.
  unfold qabs. destruct (Qltb q 0) eqn:E.
  - apply Qltb_lt in E. split; [intros H|intros [H1 H2]]; try split; lra.
  - apply Qltb_ge in E. split; [intros H|intros [H1 H2]]; try split; lra.
Qed.

Lemma qabs_b64_le (q c : Q) : - c <= q <= c -> qabs (b64 q) <= c * (1 + unit_roundoff).
Proof.
  intros [H1 H2]. apply qabs_le.
  destruct (Qlt_le_dec q 0) as [Hq|Hq].
  - destruct (b64_nonpos q) as [Ha Hb]; [lra|].
    unfold unit_roundoff in *. split; lra.
  - destruct (b64_nonneg q Hq) as [Ha Hb].
    unfold unit_roundoff in *. split; lra.
Qed.

Lemma qabs_b64_inv (d c : Q) :
  qabs (b64 d) <= c ->
  - c <= d * (1 - unit_roundoff) /\ d * (1 - unit_roundoff) <= c.
Proof.
  intros [H1 H2]%qabs_le.
  destruct (Qlt_le_dec d 0) as [Hd|Hd].
  - destruct (b64_nonpos d) as [Ha Hb]; [lra|].
    unfold unit_roundoff in *. split; lra.
  - destruct (b64_nonneg d Hd) as [Ha Hb].
    unfold unit_roundoff in *. split; lra.
Qed.

Lemma isclose_refl (a tol : Q) : isclose a a tol = true.
Proof.
  unfold isclose.
  assert (H : Qeq_bool a a = true) by (apply Qeq_bool_iff; reflexivity).
  rewrite H. reflexivity.
Qed.

Lemma y_tol_value : y_tol = 1080863910568919 # 72057594037927936.
Proof. vm_compute. reflexivity. Qed.

Lemma rel_tol_value :
  py_float (1 # 1000000000) = 4835703278458517 # 4835703278458516698824704.
Proof. vm_compute. reflexivity. Qed.

(** Two doubles of the frame that pass the test are at most 0.015
    apart, up to the rounding. *)
Lemma isclose_true (a b : Q) :
  -2 <= a <= 2 -> -2 <= b <= 2 ->
  isclose a b y_tol = true ->
  - ((15 # 1000) + slack) <= b - a /\ b - a <= (15 # 1000) + slack.
Proof.
  intros Ha Hb. unfold isclose, fsub, fmul.
  rewrite y_tol_value, rel_tol_value.
  rewrite !orb_true_iff, !Qleb_le. unfold slack. intros [[[H|H]|H]|H].
  - apply Qeq_bool_iff in H. split; lra.
  - pose proof (qabs_b64_le ((4835703278458517 # 4835703278458516698824704) * b)
                  (1 # 100000000)) as Hq.
    destruct (qabs_b64_inv (b - a) _ H) as [H1 H2].
    unfold unit_roundoff in *. split; lra.
  - pose proof (qabs_b64_le ((4835703278458517 # 4835703278458516698824704) * a)
                  (1 # 100000000)) as Hq.
    destruct (qabs_b64_inv (b - a) _ H) as [H1 H2].
    unfold unit_roundoff in *. split; lra.
  - destruct (qabs_b64_inv (b - a) _ H) as [H1 H2].
    unfold unit_roundoff in *. split; lra.
Qed.

(** Two doubles that fail the test are more than 0.015 apart, up to
    the rounding. *)
Lemma isclose_false (a b : Q) :
  isclose a b y_tol = false -> a <= b -> (15 # 1000) - slack < b - a.
Proof.
  unfold isclose, fsub. rewrite y_tol_value.
  rewrite !orb_false_iff. intros [_ H] Hle.
  apply Qleb_gt in H.
  destruct (b64_nonneg (b - a)) as [H1 H2]; [lra|].
  unfold qabs in H. destruct (Qltb (b64 (b - a)) 0) eqn:E.
  - apply Qltb_lt in E. unfold unit_roundoff in *. lra.
  - unfold slack, unit_roundoff in *. lra.
Qed.

(** *** Normalisation *)

Lemma round3_frame (y : Q) : 0 <= y <= 1 -> -2 <= round3 (py_float y) <= 2.
Proof.
  intros Hy. unfold round3, py_float.
  destruct (b64_nonneg y) as [H1 H2]; [lra|].
  pose proof (round_half_even_error (b64 y * 1000)) as [H3 H4].
  set (z := inject_Z (round_half_even (b64 y * 1000))) in *.
  pose proof (qabs_b64_le (z / 1000) (1001 # 1000)) as Hq.
  unfold Qdiv in *. change (/ 1000) with (1 # 1000) in *.
  unfold unit_roundoff in *.
  assert (Hb : qabs (b64 (z * (1 # 1000))) <= 2) by lra.
  apply qabs_le in Hb. lra.
Qed.

(** The comprehension keeps the detections with a text that is not
    blank, in their order, each in its normal form. *)
Lemma normalize_blocks_spec (raw : list text_block) :
  Forall (fun tb => legible tb = true -> has_corner tb) raw ->
  normalize_blocks raw
  = Ok (map normal_form (filter (fun tb => legible tb = true) raw)).
Proof.
  induction 1 as [|tb raw Htb _ IH]; [reflexivity|].
  cbn [normalize_blocks]. fold (legible tb).
  destruct (legible tb) eqn:Hl.
  - rewrite filter_cons_True by exact Hl.
    specialize (Htb eq_refl). unfold has_corner in Htb.
    destruct (bbox tb) as [|x [|y l]] eqn:E; simpl in Htb; try lia.
    rewrite IH. cbn [map]. unfold normal_form at 2. rewrite E. reflexivity.
  - rewrite filter_cons_False by congruence. exact IH.
Qed.

Lemma normal_form_frame (raw : list text_block) :
  Forall y_in_frame raw ->
  Forall (fun tb => legible tb = true -> has_corner tb) raw ->
  Forall (fun b => -2 <= l_y b <= 2)
         (map normal_form (filter (fun tb => legible tb = true) raw)).
Proof.
  intros Hy Hc. apply Forall_forall. intros b Hb.
  apply list_elem_of_fmap in Hb as (tb & -> & Htb).
  apply list_elem_of_filter in Htb as [Hl Htb].
  rewrite Forall_forall in Hy, Hc.
  specialize (Hy tb Htb). specialize (Hc tb Htb Hl).
  unfold has_corner in Hc. unfold normal_form. cbn [l_y].
  destruct (bbox tb) as [|x [|y l]] eqn:E; simpl in Hc; try lia.
  cbn. apply round3_frame. apply Hy. rewrite E. reflexivity.
Qed.

(** *** Grouping into lines *)

Section Grouping.
Variable tol : Q.

(** The line a block joins, when there is one. *)
Lemma place_some (b : lblock) (lines lines' : list line) :
  place tol b lines = Some lines' ->
  exists pre ln post,
    lines = (pre ++ ln :: post)%list
    /\ lines' = (pre ++ {| line_y := line_y ln;
                          line_blocks := (line_blocks ln ++ [b])%list |} :: post)%list
    /\ isclose (l_y b) (line_y ln) tol = true
    /\ Forall (fun l0 => isclose (l_y b) (line_y l0) tol = false) pre.
Proof.
  revert lines'. induction lines as [|ln lines IH]; intros lines'; simpl; [discriminate|].
  destruct (isclose (l_y b) (line_y ln) tol) eqn:E.
  - intros [= <-]. exists [], ln, lines. repeat split; [exact E | constructor].
  - destruct (place tol b lines) as [rest|]; simpl; [|discriminate].
    intros [= <-]. destruct (IH rest eq_refl) as (pre & l1 & post & -> & -> & Hc & Hpre).
    exists (ln :: pre), l1, post. repeat split; [exact Hc|].
    constructor; assumption.
Qed.

Lemma place_none (b : lblock) (lines : list line) :
  place tol b lines = None ->
  Forall (fun ln => isclose (l_y b) (line_y ln) tol = false) lines.
Proof.
  induction lines as [|ln lines IH]; simpl; [constructor|].
  destruct (isclose (l_y b) (line_y ln) tol) eqn:E; [discriminate|].
  destruct (place tol b lines); simpl; [discriminate|].
  intros _. constructor; [exact E | apply IH; reflexivity].
Qed.

(** The [y] of every line is the [y] of a block read. *)
Lemma line_y_read (lines : list line) (P : list lblock) (i : nat) (ln : line) :
  lines_inv tol lines P -> lines !! i = Some ln -> exists p, p ∈ P /\ l_y p = line_y ln.
Proof.
  intros (Hperm & _ & Hopen) Hi.
  rewrite Forall_forall in Hopen.
  destruct (Hopen ln) as (p & rest & Hp & Hy).
  { eapply list_elem_of_lookup_2. exact Hi. }
  exists p. split; [|symmetry; exact Hy].
  rewrite <- Hperm. apply list_elem_of_In, in_concat.
  exists (line_blocks ln). split.
  - apply in_map. apply list_elem_of_In. eapply list_elem_of_lookup_2. exact Hi.
  - rewrite Hp. left. reflexivity.
Qed.

Lemma group_step_inv (lines : list line) (P : list lblock) (b : lblock) :
  lines_inv tol lines P ->
  Forall (fun p => l_y b <= l_y p) P ->
  lines_inv tol (group_step tol lines b) (P ++ [b]).
Proof.
  intros Hinv Hlow.
  assert (Hanchor : forall j ln', lines !! j = Some ln' -> l_y b <= line_y ln').
  { intros j ln' Hj. destruct (line_y_read lines P j ln' Hinv Hj) as (p & Hp & <-).
    rewrite Forall_forall in Hlow. apply Hlow. exact Hp. }
  destruct Hinv as (Hperm & Hfit & Hopen).
  unfold group_step. destruct (place tol b lines) as [lines'|] eqn:Hplace.
  - destruct (place_some b lines lines' Hplace) as (pre & ln & post & -> & -> & Hc & Hpre).
    set (k := length pre).
    set (ln' := {| line_y := line_y ln; line_blocks := (line_blocks ln ++ [b])%list |}).
    assert (Hk : (pre ++ ln :: post)%list !! k = Some ln) by apply list_lookup_middle, eq_refl.
    assert (Hsame : forall j l1, (pre ++ ln' :: post)%list !! j = Some l1 ->
              exists l0, (pre ++ ln :: post)%list !! j = Some l0 /\ line_y l0 = line_y l1
                         /\ (j <> k -> l0 = l1) /\ (j = k -> l1 = ln')).
    { intros j l1 Hj. destruct (Nat.lt_trichotomy j k) as [Hlt|[->|Hgt]].
      - rewrite lookup_app_l in Hj by exact Hlt. exists l1.
        rewrite lookup_app_l by exact Hlt. repeat split; [exact Hj | lia].
      - unfold k in Hj. rewrite list_lookup_middle in Hj by reflexivity.
        injection Hj as <-. exists ln. repeat split; [exact Hk | congruence].
      - rewrite lookup_app_r in Hj by (fold k; lia).
        exists l1. rewrite lookup_app_r by (fold k; lia).
        destruct (j - length pre)%nat as [|n] eqn:En; [fold k in En; lia|].
        repeat split; [exact Hj | lia]. }
    split; [|split].
    + rewrite map_app, concat_app in Hperm |- *. simpl in Hperm |- *.
      rewrite <- Hperm. rewrite <- !app_assoc.
      apply Permutation_app_head. apply Permutation_app_head.
      apply Permutation_app_comm.
    + intros i l1 b1 Hi Hb1.
      destruct (Hsame i l1 Hi) as (l0 & Hi0 & Hy & Hne & Heq).
      assert (Hearlier : forall b0,
                (forall j l2, (j < i)%nat -> (pre ++ ln :: post)%list !! j = Some l2 ->
                   isclose (l_y b0) (line_y l2) tol = false /\ l_y b0 <= line_y l2) ->
                forall j l2, (j < i)%nat -> (pre ++ ln' :: post)%list !! j = Some l2 ->
                   isclose (l_y b0) (line_y l2) tol = false /\ l_y b0 <= line_y l2).
      { intros b0 Hold j l2 Hji Hj.
        destruct (Hsame j l2 Hj) as (l3 & Hj3 & Hy3 & _ & _).
        rewrite <- Hy3. apply (Hold j l3 Hji Hj3). }
      destruct (Nat.eq_dec i k) as [->|Hik].
      * rewrite (Heq eq_refl) in Hb1 |- *. cbn [line_blocks line_y ln'] in Hb1 |- *.
        apply elem_of_app in Hb1 as [Hb1|Hb1].
        -- destruct (Hfit k ln b1 Hk Hb1) as (H1 & H2 & H3).
           split; [exact H1|]. split; [exact H2|]. apply Hearlier. exact H3.
        -- apply list_elem_of_singleton in Hb1 as ->.
           split; [exact Hc|]. split; [apply (Hanchor k ln Hk)|].
           apply Hearlier. intros j l2 Hjk Hj.
           split; [|apply (Hanchor j l2 Hj)].
           rewrite lookup_app_l in Hj by exact Hjk.
           rewrite Forall_forall in Hpre. apply Hpre.
           eapply list_elem_of_lookup_2. exact Hj.
      * rewrite <- (Hne Hik) in Hb1 |- *.
        destruct (Hfit i l0 b1 Hi0 Hb1) as (H1 & H2 & H3).
        split; [exact H1|]. split; [exact H2|]. apply Hearlier. exact H3.
    + apply Forall_app in Hopen as [Hpre' Hrest]. apply Forall_cons in Hrest as [Hln Hpost].
      apply Forall_app. split; [exact Hpre'|]. constructor; [|exact Hpost].
      destruct Hln as (p & rest & Hp & Hy). exists p, (rest ++ [b])%list.
      cbn [line_blocks line_y ln']. rewrite Hp. split; [reflexivity | exact Hy].
  - pose proof (place_none b lines Hplace) as Hfar.
    set (new := {| line_y := l_y b; line_blocks := [b] |}).
    split; [|split].
    + rewrite map_app, concat_app. simpl. rewrite ?app_nil_r, Hperm. reflexivity.
    + intros i l1 b1 Hi Hb1.
      destruct (Nat.lt_ge_cases i (length lines)) as [Hlt|Hge].
      * rewrite lookup_app_l in Hi by exact Hlt.
        destruct (Hfit i l1 b1 Hi Hb1) as (H1 & H2 & H3).
        split; [exact H1|]. split; [exact H2|].
        intros j l2 Hji Hj. rewrite lookup_app_l in Hj by lia. apply (H3 j l2 Hji Hj).
      * rewrite lookup_app_r in Hi by exact Hge.
        destruct (i - length lines)%nat as [|n] eqn:En; [|destruct n; discriminate Hi].
        injection Hi as <-. cbn [line_blocks line_y new] in Hb1 |- *.
        apply list_elem_of_singleton in Hb1 as ->.
        split; [apply isclose_refl|]. split; [apply Qle_refl|].
        intros j l2 Hji Hj.
        assert (Hjl : (j < length lines)%nat) by lia.
        rewrite lookup_app_l in Hj by exact Hjl.
        split; [|apply (Hanchor j l2 Hj)].
        rewrite Forall_forall in Hfar. apply Hfar.
        eapply list_elem_of_lookup_2. exact Hj.
    + apply Forall_app. split; [exact Hopen|]. constructor; [|constructor].
      exists b, []. split; reflexivity.
Qed.

Lemma group_fold_inv (S : list lblock) (lines : list line) (P : list lblock) :
  lines_inv tol lines P ->
  StronglySorted (fun a b => l_y b <= l_y a) (P ++ S) ->
  lines_inv tol (fold_left (group_step tol) S lines) (P ++ S).
Proof.
  revert lines P. induction S as [|b S IH]; intros lines P Hinv Hsorted.
  - simpl. rewrite app_nil_r. exact Hinv.
  - simpl.
    replace (P ++ b :: S)%list with ((P ++ [b]) ++ S)%list in *
      by (rewrite <- app_assoc; reflexivity).
    apply IH; [|exact Hsorted].
    apply group_step_inv; [exact Hinv|].
    clear -Hsorted. induction P as [|p P IHP]; [constructor|].
    simpl in Hsorted. apply StronglySorted_inv in Hsorted as [Hs Hp].
    constructor; [|apply IHP; exact Hs].
    rewrite Forall_forall in Hp. apply Hp.
    rewrite !elem_of_app. left; right. apply list_elem_of_here.
Qed.

Lemma strongly_sorted_impl {B : Type} (R R' : B -> B -> Prop) (l : list B) :
  (forall x y, R x y -> R' x y) -> StronglySorted R l -> StronglySorted R' l.
Proof.
  intros HR. induction 1 as [|y l Hs IH Hy]; constructor; [exact IH|].
  eapply Forall_impl; [exact Hy|]. intros z. apply HR.
Qed.

Lemma group_lines_inv (blocks : list lblock) :
  lines_inv tol (group_lines tol blocks) blocks.
Proof.
  unfold group_lines.
  set (S := sorted_by (fun b => - l_y b) blocks).
  assert (Hperm : S ≡ₚ blocks) by apply sorted_by_perm.
  assert (Hinv : lines_inv tol (fold_left (group_step tol) S []) ([] ++ S)).
  { apply group_fold_inv.
    - split; [reflexivity|]. split; [|constructor].
      intros i ln b Hi. discriminate Hi.
    - simpl. pose proof (sorted_by_sorted (fun b => - l_y b) blocks) as Hs.
      fold S in Hs. eapply strongly_sorted_impl; [|exact Hs].
      unfold key_le. intros a b H. lra. }
  simpl in Hinv. destruct Hinv as (H1 & H2 & H3).
  split; [rewrite H1; exact Hperm|]. split; [exact H2 | exact H3].
Qed.

End Grouping.

(** C9 (amended). Blank detections are dropped, the text of the others
    is stripped and their x and y are rounded to three decimals.  The
    detections, taken by descending y, are each placed on the first
    line whose opening detection has a y that [math.isclose] accepts
    with the absolute tolerance 0.015, or else open a new line.  Hence
    every detection is on exactly one line, not above the detection
    that opened it and at most 0.015 below it, and more than 0.015
    below the opening detection of every line before (both up to the
    rounding of the floating-point test, less than 1e-17); two
    detections of one line differ in y by at most 0.015, up to that
    rounding (the converse does not hold); each line lies more than
    0.015, up to that rounding, below every line before it, so the
    lines go from top to bottom.  The text of a line is that of its
    detections sorted by x, with one space before a detection exactly
    when its x exceeds by more than 0.02 the x of the detection before
    it plus 0.01 per character of that detection's text, all computed
    in floating point.  Empty input gives empty output. *)
Theorem line_reconstruction (raw : list text_block) :
  Forall (fun tb => legible tb = true -> has_corner tb) raw ->
  Forall y_in_frame raw ->
  let blocks := map normal_form (filter (fun tb => legible tb = true) raw) in
  let lines := group_lines y_tol blocks in
  normalize_blocks raw = Ok blocks
  /\ reconstruct_text_from_ocr raw
     = Ok (map (fun ln => join_blocks x_tol (sorted_by l_x (line_blocks ln))) lines)
  /\ concat (map line_blocks lines) ≡ₚ blocks
  /\ Forall opened_by_first lines
  /\ first_fit y_tol lines
  /\ (forall i ln b,
        lines !! i = Some ln -> b ∈ line_blocks ln ->
        line_y ln - ((15 # 1000) + slack) <= l_y b /\ l_y b <= line_y ln
        /\ forall j ln', (j < i)%nat -> lines !! j = Some ln' ->
             l_y b + ((15 # 1000) - slack) < line_y ln')
  /\ (forall ln b1 b2, ln ∈ lines -> b1 ∈ line_blocks ln -> b2 ∈ line_blocks ln ->
        - ((15 # 1000) + slack) <= l_y b1 - l_y b2
        /\ l_y b1 - l_y b2 <= (15 # 1000) + slack)
  /\ (forall i j l1 l2,
        (i < j)%nat -> lines !! i = Some l1 -> lines !! j = Some l2 ->
        line_y l2 + ((15 # 1000) - slack) < line_y l1)
  /\ (forall ln, ln ∈ lines ->
        sorted_by l_x (line_blocks ln) ≡ₚ line_blocks ln
        /\ StronglySorted (fun a b => l_x a <= l_x b) (sorted_by l_x (line_blocks ln)))
  /\ (forall prev b rest,
        join_after x_tol prev (b :: rest)
        = ((if Qltb x_tol (fsub (l_x b) (est_right prev)) then " " else "")
             ++ l_text b ++ join_after x_tol b rest)%string)
  /\ reconstruct_text_from_ocr [] = Ok [].
Proof.
  intros Hcorner Hframe blocks lines.
  pose proof (normalize_blocks_spec raw Hcorner) as Hnorm. fold blocks in Hnorm.
  pose proof (normal_form_frame raw Hframe Hcorner) as Hy. fold blocks in Hy.
  destruct (group_lines_inv y_tol blocks) as (Hperm & Hfit & Hopen).
  fold lines in Hperm, Hfit, Hopen.
  assert (Hin : forall i ln b, lines !! i = Some ln -> b ∈ line_blocks ln -> b ∈ blocks).
  { intros i ln b Hi Hb. rewrite <- Hperm. apply list_elem_of_In, in_concat.
    exists (line_blocks ln). split.
    - apply in_map, list_elem_of_In. eapply list_elem_of_lookup_2. exact Hi.
    - apply list_elem_of_In. exact Hb. }
  assert (Hby : forall b, b ∈ blocks -> -2 <= l_y b <= 2).
  { rewrite Forall_forall in Hy. exact Hy. }
  assert (Hly : forall i ln, lines !! i = Some ln -> -2 <= line_y ln <= 2).
  { intros i ln Hi. rewrite Forall_forall in Hopen.
    destruct (Hopen ln) as (p & rest & Hp & ->).
    { eapply list_elem_of_lookup_2. exact Hi. }
    apply Hby. apply (Hin i ln p Hi). rewrite Hp. apply list_elem_of_here. }
  assert (Hnum : forall i ln b,
        lines !! i = Some ln -> b ∈ line_blocks ln ->
        line_y ln - ((15 # 1000) + slack) <= l_y b /\ l_y b <= line_y ln
        /\ forall j ln', (j < i)%nat -> lines !! j = Some ln' ->
             l_y b + ((15 # 1000) - slack) < line_y ln').
  { intros i ln b Hi Hb. destruct (Hfit i ln b Hi Hb) as (Hc & Hle & Hfar).
    destruct (isclose_true (l_y b) (line_y ln) (Hby b (Hin i ln b Hi Hb)) (Hly i ln Hi) Hc)
      as [H1 H2].
    split; [lra|]. split; [exact Hle|].
    intros j ln' Hji Hj. destruct (Hfar j ln' Hji Hj) as [Hf Hle'].
    pose proof (isclose_false _ _ Hf Hle'). lra. }
  split; [exact Hnorm|]. split.
  { unfold reconstruct_text_from_ocr, reconstruct_with. rewrite Hnorm. cbn [rbind].
    f_equal. apply map_ext. intros ln. apply render_line_join. }
  split; [exact Hperm|]. split; [exact Hopen|]. split; [exact Hfit|].
  split; [exact Hnum|]. split.
  { intros ln b1 b2 Hln Hb1 Hb2.
    apply list_elem_of_lookup_1 in Hln as [i Hi].
    destruct (Hnum i ln b1 Hi Hb1) as (H1 & H2 & _).
    destruct (Hnum i ln b2 Hi Hb2) as (H3 & H4 & _).
    unfold slack in *. split; lra. }
  split.
  { intros i j l1 l2 Hij Hi Hj. rewrite Forall_forall in Hopen.
    destruct (Hopen l2) as (p & rest & Hp & Hyp).
    { eapply list_elem_of_lookup_2. exact Hj. }
    assert (Hpin : p ∈ line_blocks l2) by (rewrite Hp; apply list_elem_of_here).
    destruct (Hnum j l2 p Hj Hpin) as (_ & _ & Hfar).
    rewrite Hyp. apply (Hfar i l1 Hij Hi). }
  split.
  { intros ln _. split; [apply sorted_by_perm | apply (sorted_by_sorted l_x)]. }
  split; [reflexivity | reflexivity].
Qed.

End LineFacts.

(** C9, as stated, fails.  Of three detections each 0.01 below the one
    before, the second and the third pass the closeness test of the
    code against each other, and yet the third is on a line of its own:
    the test is against the detection that opened the line.  And two
    words whose boxes are 0.025 apart are joined without a space: the
    gap is measured from the text length (0.01 per character), not from
    the width of the box. *)
Lemma line_rule_is_not_pairwise :
  Lines.reconstruct_text_from_ocr Lines.staircase = Ok ["a b"; "c"]
  /\ ((49 # 100) - (48 # 100) <= 15 # 1000)%Q
  /\ Lines.isclose (round3 (py_float (49 # 100))) (round3 (py_float (48 # 100)))
       Lines.y_tol = true
  /\ Lines.reconstruct_text_from_ocr Lines.small_print = Ok ["HelloWorld"]
  /\ (2 # 100 < (145 # 1000) - ((100 # 1000) + (20 # 1000)))%Q.
Proof.
  repeat split; vm_compute; try reflexivity; discriminate.
Qed.

(** The closeness test and the gap test are those of floating point:
    0.5 and 0.485 are not close (their difference as doubles exceeds
    the double 0.015), and 0.13 is more than 0.02 after 0.1 + 0.01. *)
Example rounding_decides_at_the_threshold :
  Lines.reconstruct_text_from_ocr Lines.boundary_pair = Ok ["a"; "b"]
  /\ Lines.reconstruct_text_from_ocr Lines.tight_pair = Ok ["a b"].
Proof. split; vm_compute; reflexivity. Qed.

Lemma line_reconstruction_witness :
  Lines.reconstruct_text_from_ocr Lines.staircase
  = Ok (map (fun ln => Lines.join_blocks Lines.x_tol
                         (Lines.sorted_by Lines.l_x (Lines.line_blocks ln)))
            (Lines.group_lines Lines.y_tol
               (map Lines.normal_form
                  (filter (fun tb => Lines.legible tb = true) Lines.staircase)))).
Proof.
  apply (line_reconstruction Lines.staircase).
  - unfold Lines.staircase, Lines.has_corner.
    repeat (constructor; [intros _; simpl; lia|]). constructor.
  - unfold Lines.staircase.
    constructor; [|constructor; [|constructor; [|constructor]]];
      intros y [= <-]; split; unfold Qle; simpl; lia.
Defined.

(** * Further properties of the code *)

(** ** Reliability classifier: keyboard actions, resolution, conversion *)

Section ClassifierMore.
Import Classifier.

Variable path_exists : string -> bool.
Variable easyocr_readtext : string -> result (list (string * Q)).

Local Abbreviation run_checks := (run_checks path_exists easyocr_readtext).
Local Abbreviation classify_all := (classify_all path_exists easyocr_readtext).
Local Abbreviation convert_to_automation :=
  (convert_to_automation path_exists easyocr_readtext).

(** The window check passes whatever the window is. *)
Lemma verify_window_passes (a : action) (t : string) :
  exists why, verify_window a t = (true, why).
Proof.
  unfold verify_window. repeat case_match; eauto.
Qed.

(** X1. A type or key action is always classified, never raises, and
    is always reliable: the coordinate and window checks pass for it
    whatever it holds, so the content check cannot bring it under two
    passes out of three.  Even without text or key it becomes a step,
    with confidence "medium" instead of "high". *)
Theorem keyboard_action_always_reliable (a : action) (ev : string) :
  event a = Some ev ->
  ev = "type" \/ ev = "key" ->
  exists r,
    run_checks a = Ok r
    /\ map fst (checks r) = ["coordinates"; "window"; "text_content"]
    /\ reliable (summary_of r) = true
    /\ (2 <= checks_passed (summary_of r))%nat
    /\ (confidence (summary_of r) = "high" \/ confidence (summary_of r) = "medium")
    /\ (confidence (summary_of r) = "high" <-> checks_passed (summary_of r) = 3%nat)
    /\ forall n, exists st, create_step a n r = Ok (Some st).
Proof.
  intros Hev [-> | ->]; unfold Classifier.run_checks, check_coordinates, create_step;
    rewrite Hev; simpl.
  - destruct (verify_window_passes a "text_input") as [why ->].
    destruct (negb (PyStr.truthy (default "" (a_text a)))
              || (String.length (PyStr.strip (default "" (a_text a))) =? 0)%nat);
      eexists; (split; [reflexivity|]); simpl;
      repeat split; eauto; try done; try (vm_compute; lia); try (intros; lia).
  - destruct (verify_window_passes a
                ("key_" ++ default (default "unknown" (a_text a)) (a_key a)))
      as [why ->].
    destruct (negb (PyStr.truthy (default (default "" (a_text a)) (a_key a))));
      eexists; (split; [reflexivity|]); simpl;
      repeat split; eauto; try done; try (vm_compute; lia); try (intros; lia).
Qed.

Lemma works_on_iff (x y w h : Q) :
  works_on x y (w, h) = true
  <-> (10 < x * w /\ x * w < w - 10 /\ 10 < y * h /\ y * h < h - 10)%Q.
Proof.
  unfold works_on. simpl. rewrite !andb_true_iff, !Qltb_lt. tauto.
Qed.

Lemma count_working_three (x y : Q) (rest : list Q) :
  count_working (x :: y :: rest) test_sizes 0
  = Ok (Nat.b2n (works_on x y (1920%Q, 1080%Q))
        + Nat.b2n (works_on x y (2560%Q, 1440%Q))
        + Nat.b2n (works_on x y (3840%Q, 2160%Q)))%nat.
Proof.
  unfold count_working, test_sizes, size_works, idx. simpl.
  change (Qltb 10 (x * 1920) && Qltb (x * 1920) (1920 - 10)
          && Qltb 10 (y * 1080) && Qltb (y * 1080) (1080 - 10))
    with (works_on x y (1920%Q, 1080%Q)).
  change (Qltb 10 (x * 2560) && Qltb (x * 2560) (2560 - 10)
          && Qltb 10 (y * 1440) && Qltb (y * 1440) (1440 - 10))
    with (works_on x y (2560%Q, 1440%Q)).
  change (Qltb 10 (x * 3840) && Qltb (x * 3840) (3840 - 10)
          && Qltb 10 (y * 2160) && Qltb (y * 2160) (2160 - 10))
    with (works_on x y (3840%Q, 2160%Q)).
  destruct (works_on x y (1920%Q, 1080%Q)), (works_on x y (2560%Q, 1440%Q)),
    (works_on x y (3840%Q, 2160%Q)); reflexivity.
Qed.

(** X2. The resolution check tries three screen sizes and asks for two
    of them; since a position that keeps a 10 pixel margin on a screen
    keeps it on every larger one, the check passes exactly when the
    position keeps the margin on the middle size, 2560 x 1440: that is
    when 1/256 < x < 255/256 and 1/144 < y < 143/144. *)
Theorem resolution_check_margins (a : action) (t : string) (x y : Q) (rest : list Q) :
  rel_position a = Some (x :: y :: rest) ->
  exists ok why,
    analyze_resolution a t = Ok (ok, why)
    /\ (ok = true <-> inside_margins x y).
Proof.
  intros Hpos. unfold analyze_resolution. rewrite Hpos. simpl default.
  rewrite count_working_three. cbn [rbind].
  pose proof (works_on_iff x y 1920 1080) as H1.
  pose proof (works_on_iff x y 2560 1440) as H2.
  pose proof (works_on_iff x y 3840 2160) as H3.
  assert (H12 : works_on x y (1920%Q, 1080%Q) = true ->
                works_on x y (2560%Q, 1440%Q) = true).
  { intros H. apply H2. apply H1 in H. lra. }
  assert (H23 : works_on x y (2560%Q, 1440%Q) = true ->
                works_on x y (3840%Q, 2160%Q) = true).
  { intros H. apply H3. apply H2 in H. lra. }
  assert (Hm : works_on x y (2560%Q, 1440%Q) = true <-> inside_margins x y).
  { rewrite H2. unfold inside_margins. split; intros; lra. }
  destruct (works_on x y (1920%Q, 1080%Q)), (works_on x y (2560%Q, 1440%Q)),
    (works_on x y (3840%Q, 2160%Q));
    try (specialize (H12 eq_refl); discriminate);
    try (specialize (H23 eq_refl); discriminate);
    vm_compute Nat.add; vm_compute length;
    eexists; eexists; (split; [vm_compute; reflexivity|]);
    rewrite <- Hm; split; congruence.
Qed.

End ClassifierMore.

Lemma keyboard_action_always_reliable_witness :
  exists r,
    Classifier.sample_checks
      {| Classifier.event := Some "type"; Classifier.rel_position := None;
         Classifier.a_window := None; Classifier.a_text := Some "   ";
         Classifier.a_key := None; Classifier.crop_screenshot := None |} = Ok r
    /\ Classifier.reliable (Classifier.summary_of r) = true
    /\ Classifier.confidence (Classifier.summary_of r) = "medium".
Proof.
  destruct (keyboard_action_always_reliable Classifier.no_files Classifier.no_ocr
              {| Classifier.event := Some "type"; Classifier.rel_position := None;
                 Classifier.a_window := None; Classifier.a_text := Some "   ";
                 Classifier.a_key := None; Classifier.crop_screenshot := None |}
              "type" eq_refl (or_introl eq_refl))
    as (r & Hr & _ & Hrel & _ & _ & _ & _).
  exists r. split; [exact Hr|]. split; [exact Hrel|].
  vm_compute in Hr. injection Hr as <-. reflexivity.
Defined.

Lemma resolution_check_margins_witness :
  exists why,
    Classifier.analyze_resolution Classifier.click_edge "x" = Ok (false, why)
    /\ ~ Classifier.inside_margins (1 # 1000) (1 # 2).
Proof.
  destruct (resolution_check_margins Classifier.click_edge "x" (1 # 1000) (1 # 2) []
              eq_refl) as (ok & why & Hrun & Hiff).
  vm_compute in Hrun. injection Hrun as <- <-.
  eexists. split; [reflexivity|].
  intros Hm. apply Hiff in Hm. discriminate.
Defined.

(** ** Conversion of a session *)

Section Conversion.
Import Classifier.

Variable path_exists : string -> bool.
Variable easyocr_readtext : string -> result (list (string * Q)).

Local Abbreviation run_checks := (run_checks path_exists easyocr_readtext).
Local Abbreviation check_coordinates := (check_coordinates path_exists easyocr_readtext).
Local Abbreviation classify_all := (classify_all path_exists easyocr_readtext).
Local Abbreviation convert_to_automation :=
  (convert_to_automation path_exists easyocr_readtext).

(** *** One action *)

(** The two shapes of a classification that returns: the coordinate and
    window checks have passed, and the action is a click with three
    more checks or a keyboard action with one more. *)
Lemma run_checks_shape (a : action) (r : check_results) :
  run_checks a = Ok r ->
  (event a = Some "click"
   /\ exists k s p,
        check_flags (checks r)
        = [("coordinates", true); ("window", true); ("compatibility", k);
           ("resolution", s); ("position", p)]
        /\ summary_of r
           = mk_summary [true; true; k; s; p] 4
               (if (sum_bools [true; true; k; s; p] =? 5)%nat then "high"
                else if (4 <=? sum_bools [true; true; k; s; p])%nat then "medium"
                     else "low"))
  \/ ((event a = Some "type" \/ event a = Some "key")
      /\ exists t,
           check_flags (checks r)
           = [("coordinates", true); ("window", true); ("text_content", t)]
           /\ summary_of r
              = mk_summary [true; true; t] 2
                  (if (sum_bools [true; true; t] =? 3)%nat then "high"
                   else if (2 <=? sum_bools [true; true; t])%nat then "medium"
                        else "low")).
Proof.
  intros Hrun. unfold Classifier.run_checks in Hrun.
  destruct (check_coordinates a) as [[[[c t] why] det]|e] eqn:Hc; [|discriminate].
  pose proof (check_coordinates_passes _ _ a c t why det Hc) as ->.
  destruct (check_coordinates_event _ _ a _ Hc) as [ev Hev].
  rewrite Hev in Hrun. cbn [rbind default from_option id] in Hrun.
  destruct (verify_window_passes a t) as [wr Hw]. rewrite Hw in Hrun.
  destruct (String.eqb_spec ev "click") as [->|Hnc].
  - left. split; [exact Hev|].
    destruct (test_compatibility a t) as [[k kr]|e]; [|discriminate].
    destruct (analyze_resolution a t) as [[s sr]|e]; [|discriminate].
    cbn [rbind] in Hrun. destruct (validate_position a t) as [p pr].
    injection Hrun as <-. exists k, s, p. split; reflexivity.
  - destruct (String.eqb_spec ev "type") as [->|Hnt].
    + right. split; [left; exact Hev|].
      cbn [orb] in Hrun.
      destruct (negb _ || _); injection Hrun as <-; eexists; split; reflexivity.
    + destruct (String.eqb_spec ev "key") as [->|Hnk].
      * right. split; [right; exact Hev|].
        cbn [orb] in Hrun.
        destruct (negb _); injection Hrun as <-; eexists; split; reflexivity.
      * exfalso. unfold Classifier.check_coordinates in Hc. rewrite Hev in Hc.
        apply String.eqb_neq in Hnc, Hnt, Hnk. rewrite Hnc, Hnt, Hnk in Hc.
        discriminate.
Qed.

(** An action that is not reliable is a click. *)
Lemma reliable_step (a : action) (n : nat) (r : check_results) :
  run_checks a = Ok r ->
  reliable (summary_of r) = true ->
  exists st,
    create_step a n r = Ok (Some st)
    /\ step st = n
    /\ event a = Some (s_action st)
    /\ s_action st ∈ ["click"; "type"; "key"]
    /\ verified (s_reliability st) = true
    /\ r_confidence (s_reliability st) ∈ ["high"; "medium"].
Proof.
  intros Hrun Hrel. unfold create_step. rewrite Hrel. cbn [negb].
  destruct (run_checks_shape a r Hrun)
    as [(Hev & k & s & p & _ & Hsum) | (Hev & t & _ & Hsum)].
  - rewrite Hev. eexists. split; [reflexivity|]. cbn.
    rewrite Hsum in Hrel |- *. repeat split; [set_solver|].
    destruct k, s, p; vm_compute in Hrel; try discriminate; vm_compute confidence;
      set_solver.
  - destruct Hev as [Hev|Hev]; rewrite Hev; (eexists; split; [reflexivity|]); cbn;
      rewrite Hsum; (repeat split; [set_solver|]);
      destruct t; vm_compute confidence; set_solver.
Qed.

Lemma unreliable_step (a : action) (n : nat) (r : check_results) :
  reliable (summary_of r) = false -> create_step a n r = Ok None.
Proof. intros Hrel. unfold create_step. rewrite Hrel. reflexivity. Qed.

(** *** The tally of failed checks *)

Lemma bump_keys (P : string -> Prop) (name : string) (d : list (string * nat)) :
  P name -> Forall P (map fst d) -> Forall P (map fst (bump name d)).
Proof.
  intros Hn. induction d as [|[k c] d IH]; simpl; intros Hd.
  - constructor; [exact Hn|constructor].
  - inversion Hd as [|? ? Hk Hrest]; subst.
    destruct (String.eqb k name); simpl; constructor; auto.
Qed.

Lemma bump_nodup (name : string) (d : list (string * nat)) :
  NoDup (map fst d) -> NoDup (map fst (bump name d)).
Proof.
  induction d as [|[k c] d IH]; simpl; intros Hd.
  - apply NoDup_singleton.
  - apply NoDup_cons in Hd as [Hk Hd].
    destruct (String.eqb_spec k name) as [->|Hne]; simpl.
    + apply NoDup_cons. split; assumption.
    + apply NoDup_cons. split; [|auto].
      intros Hin.
      assert (HF : Forall (fun x => x <> k) (map fst (bump name d))).
      { apply bump_keys; [congruence|].
        apply Forall_forall. intros x Hx ->. contradiction. }
      rewrite Forall_forall in HF. exact (HF k Hin eq_refl).
Qed.

Lemma bump_total (name : string) (d : list (string * nat)) :
  tally_total (bump name d) = S (tally_total d).
Proof.
  induction d as [|[k c] d IH]; simpl; [reflexivity|].
  destruct (String.eqb k name); simpl; [reflexivity|]. rewrite IH. lia.
Qed.

Lemma tally_failures_flags (cs : list (string * check)) (d : list (string * nat)) :
  tally_failures cs d
  = fold_left (fun acc (c : string * bool) => if snd c then acc else bump (fst c) acc)
      (check_flags cs) d.
Proof.
  unfold tally_failures, check_flags. revert d.
  induction cs as [|c cs IH]; intros d; simpl; [reflexivity|]. apply IH.
Qed.

(** An action that is not reliable is a click that failed two or three
    of the checks only a click goes through; the tally gains these
    names and no other. *)
Lemma unreliable_tally (a : action) (r : check_results) (d : list (string * nat)) :
  run_checks a = Ok r ->
  reliable (summary_of r) = false ->
  event a = Some "click"
  /\ (Forall (fun k => k ∈ click_only_checks) (map fst d) ->
      Forall (fun k => k ∈ click_only_checks) (map fst (tally_failures (checks r) d)))
  /\ (NoDup (map fst d) -> NoDup (map fst (tally_failures (checks r) d)))
  /\ (tally_total d + 2 <= tally_total (tally_failures (checks r) d))%nat
  /\ (tally_total (tally_failures (checks r) d) <= tally_total d + 3)%nat.
Proof.
  intros Hrun Hrel.
  destruct (run_checks_shape a r Hrun)
    as [(Hev & k & s & p & Hflags & Hsum) | (Hev & t & _ & Hsum)].
  - split; [exact Hev|].
    rewrite tally_failures_flags, Hflags. rewrite Hsum in Hrel.
    assert (Hc : "compatibility" ∈ click_only_checks) by (unfold click_only_checks; set_solver).
    assert (Hs : "resolution" ∈ click_only_checks) by (unfold click_only_checks; set_solver).
    assert (Hp : "position" ∈ click_only_checks) by (unfold click_only_checks; set_solver).
    destruct k, s, p; vm_compute in Hrel; try discriminate; cbn [fold_left fst snd];
      rewrite ?bump_total;
      (split; [intros Hd; auto using bump_keys
              |split; [intros Hd; auto using bump_nodup | lia]]).
  - exfalso. rewrite Hsum in Hrel. destruct t; vm_compute in Hrel; discriminate.
Qed.

(** *** Which actions are classified *)

Lemma click_fallback_returns (a : action) (det : detection) (x y : Q) (rest : list Q) :
  default [0%Q; 0%Q] (rel_position a) = x :: y :: rest ->
  exists v, click_fallback a det = Ok v.
Proof.
  intros Hpos. unfold click_fallback. rewrite Hpos. unfold idx. cbn.
  repeat case_match; cbn; eauto.
Qed.

Lemma check_coordinates_click_returns (a : action) (x y : Q) (rest : list Q) :
  event a = Some "click" ->
  default [0%Q; 0%Q] (rel_position a) = x :: y :: rest ->
  exists v, check_coordinates a = Ok v.
Proof.
  intros Hev Hpos. unfold Classifier.check_coordinates. rewrite Hev.
  change (String.eqb "click" "click") with true. cbv iota.
  destruct (extract_target_text_from_coordinates _ _ a);
    [destruct (_ && _); [eauto|]|]; eapply click_fallback_returns; eauto.
Qed.

Lemma test_compatibility_returns (a : action) (t : string) (x y : Q) (rest : list Q) :
  default [0%Q; 0%Q] (rel_position a) = x :: y :: rest ->
  exists v, test_compatibility a t = Ok v.
Proof.
  intros Hpos. unfold test_compatibility. rewrite Hpos. unfold idx. cbn.
  repeat (case_match; cbn; eauto).
Qed.

Lemma analyze_resolution_returns (a : action) (t : string) (x y : Q) (rest : list Q) :
  default [0%Q; 0%Q] (rel_position a) = x :: y :: rest ->
  exists v, analyze_resolution a t = Ok v.
Proof.
  intros Hpos. unfold analyze_resolution. rewrite Hpos, count_working_three.
  cbn [rbind]. repeat case_match; eauto.
Qed.

Lemma analyze_resolution_reads_both (a : action) (t : string) v (pos : list Q) :
  analyze_resolution a t = Ok v ->
  rel_position a = Some pos -> (2 <= length pos)%nat.
Proof.
  intros H Hpos. unfold analyze_resolution in H. rewrite Hpos in H.
  destruct pos as [|x [|y rest]]; [discriminate H|discriminate H|simpl; lia].
Qed.

(** [run_checks] returns on the well recorded actions and on no
    other. *)
Lemma run_checks_returns_iff (a : action) :
  (exists r, run_checks a = Ok r) <-> well_recorded a.
Proof.
  split.
  - intros [r Hrun].
    destruct (run_checks_shape a r Hrun) as [(Hev & _) | ([Hev|Hev] & _)].
    + right. right. split; [exact Hev|]. intros pos Hpos.
      unfold Classifier.run_checks in Hrun. rewrite Hev in Hrun.
      destruct (check_coordinates a) as [[[[c t] why] det]|e]; [|discriminate].
      cbn [rbind default from_option id] in Hrun.
      destruct (verify_window a t) as [w wr].
      change (String.eqb "click" "click") with true in Hrun. cbv iota in Hrun.
      destruct (test_compatibility a t) as [[k kr]|e]; [|discriminate].
      cbn [rbind] in Hrun.
      destruct (analyze_resolution a t) as [v|e] eqn:Hres; [|discriminate].
      eapply analyze_resolution_reads_both; eauto.
    + left. exact Hev.
    + right. left. exact Hev.
  - intros [Hev | [Hev | [Hev Hpos]]].
    + unfold Classifier.run_checks, Classifier.check_coordinates. rewrite Hev. cbn.
      destruct (verify_window a "text_input"). destruct (negb _ || _); eauto.
    + unfold Classifier.run_checks, Classifier.check_coordinates. rewrite Hev. cbn.
      destruct (verify_window a _). destruct (negb _); eauto.
    + assert (Hxy : exists x y rest,
                 default [0%Q; 0%Q] (rel_position a) = x :: y :: rest).
      { destruct (rel_position a) as [pos|]; [|cbn; eauto].
        specialize (Hpos pos eq_refl).
        destruct pos as [|x [|y rest]]; simpl in Hpos; try lia. cbn. eauto. }
      destruct Hxy as (x & y & rest & Hxy).
      destruct (check_coordinates_click_returns a x y rest Hev Hxy)
        as [[[[c t] why] det] Hc].
      destruct (test_compatibility_returns a t x y rest Hxy) as [[k kr] Hk].
      destruct (analyze_resolution_returns a t x y rest Hxy) as [[s sr] Hs].
      unfold Classifier.run_checks. rewrite Hev, Hc.
      cbn [rbind default from_option id].
      destruct (verify_window a t) as [w wr].
      change (String.eqb "click" "click") with true. cbv iota.
      rewrite Hk. cbn [rbind]. rewrite Hs. cbn [rbind].
      destruct (validate_position a t). eauto.
Qed.

(** *** The exceptions of the classifier *)

Lemma click_fallback_raises (a : action) (det : detection) (e : exn) :
  click_fallback a det = Raise e -> e = IndexError.
Proof.
  unfold click_fallback, rbind. intros H.
  repeat case_match; simplify_eq; eauto using @idx_raises.
Qed.

Lemma check_coordinates_raises (a : action) (e : exn) :
  check_coordinates a = Raise e ->
  e = KeyError "event" \/ e = NameError "detection_inf" \/ e = IndexError.
Proof.
  unfold Classifier.check_coordinates. intros H.
  repeat case_match; simplify_eq; eauto using click_fallback_raises.
Qed.

(** [run_checks] raises for a missing event, for an event of another
    kind, and for a short position; nothing else. *)
Lemma run_checks_raises (a : action) (e : exn) :
  run_checks a = Raise e ->
  e = KeyError "event" \/ e = NameError "detection_inf" \/ e = IndexError.
Proof.
  unfold Classifier.run_checks. intros H.
  destruct (check_coordinates a) as [[[[c t] why] det]|e'] eqn:Hc.
  - cbn [rbind] in H. destruct (verify_window a t) as [w wr].
    right. right.
    destruct (String.eqb _ "click").
    + destruct (test_compatibility a t) as [[k kr]|e1] eqn:Hk.
      * cbn [rbind] in H.
        destruct (analyze_resolution a t) as [[s sr]|e2] eqn:Hs.
        -- cbn [rbind] in H. destruct (validate_position a t). discriminate.
        -- injection H as <-. eapply analyze_resolution_raises; eauto.
      * injection H as <-. eapply test_compatibility_raises; eauto.
    + repeat case_match; discriminate.
  - injection H as <-. apply (check_coordinates_raises a). exact Hc.
Qed.

Lemma classify_all_raises_kinds (actions : list action) :
  forall i steps report e,
    classify_all actions i steps report = Raise e ->
    e = KeyError "event" \/ e = NameError "detection_inf" \/ e = IndexError.
Proof.
  induction actions as [|a rest IH]; intros i steps report e H; [discriminate|].
  simpl in H. destruct (run_checks a) as [r|e'] eqn:Hrun.
  - cbn [rbind] in H.
    destruct (create_step_returns _ _ a i r Hrun) as [made Hmade].
    rewrite Hmade in H. cbn [rbind] in H. destruct made; eapply IH; eauto.
  - injection H as <-. eapply run_checks_raises; eauto.
Qed.

(** The exceptions of a conversion: that of the loader, the refusal of
    an empty session, or that of the first action the classifier has no
    answer for. *)
Lemma convert_raises (session : result (list action)) (learning_id : string)
    (name : option string) (stamp iso : string) (e : exn) :
  convert_to_automation session learning_id name stamp iso = Raise e ->
  session = Raise e
  \/ (session = Ok [] /\ e = ValueError "No actions found")
  \/ (exists actions,
        session = Ok actions /\ actions <> []
        /\ (e = KeyError "event" \/ e = NameError "detection_inf" \/ e = IndexError)).
Proof.
  unfold Classifier.convert_to_automation. intros H.
  destruct session as [actions|e']; [|left; cbn [rbind] in H; congruence].
  cbn [rbind] in H.
  destruct actions as [|a rest]; [right; left; split; congruence|].
  right. right. exists (a :: rest). split; [reflexivity|]. split; [discriminate|].
  destruct (classify_all (a :: rest) _ _ _) as [[steps report]|e1] eqn:Hloop.
  - discriminate.
  - injection H as <-. eapply classify_all_raises_kinds; eauto.
Qed.

(** *** The loop over the session *)

Lemma classify_all_inv (actions : list action) :
  forall i steps report steps' report',
    classify_all actions i steps report = Ok (steps', report') ->
    exists new bad,
      steps' = (steps ++ new)%list
      /\ total_actions report' = total_actions report
      /\ reliable_steps report' = (reliable_steps report + length new)%nat
      /\ unreliable_steps report' = (unreliable_steps report + bad)%nat
      /\ (length new + bad = length actions)%nat
      /\ Forall (emitted_from actions i) new
      /\ StronglySorted (fun s1 s2 => (step s1 < step s2)%nat) new
      /\ Forall well_recorded actions
      /\ (Forall (fun k => k ∈ click_only_checks) (map fst (failed_checks report)) ->
          Forall (fun k => k ∈ click_only_checks) (map fst (failed_checks report')))
      /\ (NoDup (map fst (failed_checks report)) ->
          NoDup (map fst (failed_checks report')))
      /\ (tally_total (failed_checks report) + 2 * bad
          <= tally_total (failed_checks report'))%nat
      /\ (tally_total (failed_checks report')
          <= tally_total (failed_checks report) + 3 * bad)%nat.
Proof.
  induction actions as [|a rest IH]; intros i steps report steps' report' H.
  - simpl in H. injection H as <- <-. exists [], 0%nat.
    rewrite app_nil_r. repeat split; auto; try constructor; simpl; lia.
  - simpl in H.
    destruct (run_checks a) as [r|e] eqn:Hrun; [|discriminate]. cbn [rbind] in H.
    assert (Hwell : well_recorded a) by (apply run_checks_returns_iff; eauto).
    assert (Hshift : forall new,
               Forall (emitted_from rest (S i)) new ->
               Forall (emitted_from (a :: rest) i) new
               /\ Forall (fun s2 => (i < step s2)%nat) new).
    { intros new Hnew. split; eapply Forall_impl; try exact Hnew.
      - intros st (k & b & Hk & Hst & Hrest). exists (S k), b.
        split; [exact Hk|]. split; [lia|exact Hrest].
      - intros st (k & b & Hk & Hst & Hrest). simpl. lia. }
    destruct (reliable (summary_of r)) eqn:Hrel.
    + destruct (reliable_step a i r Hrun Hrel)
        as (st & Hmade & Hnum & Hev & Hkind & Hver & Hconf).
      rewrite Hmade in H. cbn [rbind] in H.
      apply IH in H
        as (new & bad & -> & Ht & Hr & Hu & Hlen & Hnew & Hsort & Hall
            & Hkeys & Hdup & Hlo & Hhi).
      destruct (Hshift new Hnew) as [Hnew' Hlt].
      exists (st :: new), bad. simpl in *.
      rewrite <- app_assoc. repeat split; auto; try lia.
      * constructor; [|exact Hnew'].
        exists 0%nat, a. repeat split; auto. lia.
      * constructor; [exact Hsort|]. rewrite Hnum. exact Hlt.
    + rewrite (unreliable_step a i r Hrel) in H. cbn [rbind] in H.
      destruct (unreliable_tally a r (failed_checks report) Hrun Hrel)
        as (_ & Hk1 & Hd1 & Hlo1 & Hhi1).
      apply IH in H
        as (new & bad & -> & Ht & Hr & Hu & Hlen & Hnew & Hsort & Hall
            & Hkeys & Hdup & Hlo & Hhi).
      destruct (Hshift new Hnew) as [Hnew' Hlt].
      exists new, (S bad). simpl in *.
      repeat split; auto; try lia.
Qed.

Lemma classify_all_returns (actions : list action) :
  Forall well_recorded actions ->
  forall i steps report, exists out, classify_all actions i steps report = Ok out.
Proof.
  induction 1 as [|a rest Ha _ IH]; intros i steps report; simpl; [eauto|].
  apply run_checks_returns_iff in Ha as [r Hrun]. rewrite Hrun. cbn [rbind].
  destruct (create_step_returns _ _ a i r Hrun) as [made ->]. cbn [rbind].
  destruct made; apply IH.
Qed.

(** What a conversion that returns has gone through. *)
Lemma convert_inv (session : result (list action)) (learning_id : string)
    (name : option string) (stamp iso : string) (au : automation) :
  convert_to_automation session learning_id name stamp iso = Ok au ->
  exists actions,
    session = Ok actions /\ actions <> []
    /\ classify_all actions 1 []
         {| total_actions := length actions; reliable_steps := 0;
            unreliable_steps := 0; failed_checks := [] |}
       = Ok (au_steps au, au_quality_report au)
    /\ description au
       = "Learned automation with " ++ pretty (length (au_steps au)) ++ " steps"
    /\ source au = learning_id.
Proof.
  unfold Classifier.convert_to_automation. intros H.
  destruct session as [actions|e]; [|discriminate]. cbn [rbind] in H.
  exists actions. split; [reflexivity|].
  destruct actions as [|a rest]; [discriminate|]. split; [discriminate|].
  destruct (classify_all (a :: rest) _ _ _) as [[steps report]|e]; [|discriminate].
  cbn [rbind] in H. injection H as <-. repeat split; reflexivity.
Qed.

(** X3. The quality report of a conversion that returns adds up: the
    session is not empty, [total_actions] is its length, every action
    is counted once, as reliable or as unreliable, the automation has
    as many steps as the report counts reliable ones, and the
    description quotes that number. *)
Theorem conversion_report_adds_up (session : result (list action))
    (learning_id : string) (name : option string) (stamp iso : string)
    (au : automation) :
  convert_to_automation session learning_id name stamp iso = Ok au ->
  exists actions,
    session = Ok actions
    /\ actions <> []
    /\ total_actions (au_quality_report au) = length actions
    /\ (reliable_steps (au_quality_report au)
        + unreliable_steps (au_quality_report au) = length actions)%nat
    /\ length (au_steps au) = reliable_steps (au_quality_report au)
    /\ description au
       = "Learned automation with "
         ++ pretty (reliable_steps (au_quality_report au)) ++ " steps".
Proof.
  intros H. apply convert_inv in H as (actions & -> & Hne & Hloop & Hdesc & _).
  apply classify_all_inv in Hloop
    as (new & bad & Hsteps & Ht & Hr & Hu & Hlen & _).
  simpl in *. subst new. exists actions.
  repeat split; auto; try lia. rewrite Hdesc, Hr. reflexivity.
Qed.

(** X4. Every step of a converted automation is the step of a click,
    type or key action of the session, carries the 1-based position of
    that action as its number, is marked verified, and has confidence
    "high" or "medium", never "low"; the steps come in strictly
    increasing number. *)
Theorem emitted_steps_are_verified (session : result (list action))
    (learning_id : string) (name : option string) (stamp iso : string)
    (au : automation) :
  convert_to_automation session learning_id name stamp iso = Ok au ->
  exists actions,
    session = Ok actions
    /\ Forall (emitted_from actions 1) (au_steps au)
    /\ StronglySorted (fun s1 s2 => (step s1 < step s2)%nat) (au_steps au).
Proof.
  intros H. apply convert_inv in H as (actions & -> & Hne & Hloop & _).
  apply classify_all_inv in Hloop
    as (new & bad & Hsteps & _ & _ & _ & _ & Hnew & Hsort & _).
  simpl in Hsteps. subst new. exists actions. auto.
Qed.

(** X5. The failure tally of a conversion that returns names only the
    compatibility, resolution and position checks, each once: the
    coordinate, window and text checks are never counted.  An
    unreliable action is always a click that failed at least two of
    the three, so the counts add up to between twice and three times
    the number of unreliable steps. *)
Theorem failure_tally_names_click_checks (session : result (list action))
    (learning_id : string) (name : option string) (stamp iso : string)
    (au : automation) :
  convert_to_automation session learning_id name stamp iso = Ok au ->
  let q := au_quality_report au in
  Forall (fun k => k ∈ click_only_checks) (map fst (failed_checks q))
  /\ NoDup (map fst (failed_checks q))
  /\ (2 * unreliable_steps q <= tally_total (failed_checks q))%nat
  /\ (tally_total (failed_checks q) <= 3 * unreliable_steps q)%nat.
Proof.
  intros H. apply convert_inv in H as (actions & -> & Hne & Hloop & _).
  apply classify_all_inv in Hloop
    as (new & bad & _ & _ & _ & Hu & _ & _ & _ & _ & Hkeys & Hdup & Hlo & Hhi).
  simpl in *. repeat split; [apply Hkeys; constructor|apply Hdup; constructor|lia|lia].
Qed.

(** X6. The conversion returns an automation exactly when the session
    loads, is not empty, and every one of its actions is a type or key
    action or a click whose recorded position has both coordinates;
    one action of another kind, or one click with a short position,
    makes the whole conversion raise. *)
Theorem conversion_returns_iff (session : result (list action))
    (learning_id : string) (name : option string) (stamp iso : string) :
  (exists au, convert_to_automation session learning_id name stamp iso = Ok au)
  <-> (exists actions,
         session = Ok actions /\ actions <> [] /\ Forall well_recorded actions).
Proof.
  split.
  - intros [au H]. apply convert_inv in H as (actions & -> & Hne & Hloop & _).
    apply classify_all_inv in Hloop
      as (new & bad & _ & _ & _ & _ & _ & _ & _ & Hall & _).
    eauto.
  - intros (actions & -> & Hne & Hall).
    unfold Classifier.convert_to_automation. cbn [rbind].
    destruct actions as [|a rest]; [contradiction|].
    destruct (classify_all_returns (a :: rest) Hall 1 []
                {| total_actions := length (a :: rest); reliable_steps := 0;
                   unreliable_steps := 0; failed_checks := [] |})
      as [[steps report] ->].
    cbn [rbind]. eauto.
Qed.

End Conversion.

Lemma conversion_report_adds_up_witness :
  exists au,
    Classifier.sample_conversion = Ok au
    /\ Classifier.total_actions (Classifier.au_quality_report au) = 3%nat
    /\ Classifier.reliable_steps (Classifier.au_quality_report au) = 2%nat
    /\ Classifier.unreliable_steps (Classifier.au_quality_report au) = 1%nat
    /\ length (Classifier.au_steps au) = 2%nat.
Proof.
  destruct Classifier.sample_conversion as [au|] eqn:E; [|vm_compute in E; discriminate].
  exists au. split; [reflexivity|].
  destruct (conversion_report_adds_up Classifier.no_files Classifier.no_ocr
              (Ok Classifier.sample_session)
              "session" None "20250101_0900" "2025-01-01T09:00:00" au E)
    as (actions & Hs & _ & Ht & Hsum & Hlen & _).
  injection Hs as <-. rewrite Hlen.
  assert (Hr : Classifier.reliable_steps (Classifier.au_quality_report au) = 2%nat).
  { vm_compute in E. injection E as <-. reflexivity. }
  rewrite Hr in *. simpl in *. repeat split; auto; lia.
Defined.

Lemma emitted_steps_are_verified_witness :
  exists au,
    Classifier.sample_conversion = Ok au
    /\ Forall (Classifier.emitted_from Classifier.sample_session 1)
         (Classifier.au_steps au)
    /\ map Classifier.step (Classifier.au_steps au) = [1%nat; 3%nat].
Proof.
  destruct Classifier.sample_conversion as [au|] eqn:E; [|vm_compute in E; discriminate].
  exists au. split; [reflexivity|].
  destruct (emitted_steps_are_verified Classifier.no_files Classifier.no_ocr
              (Ok Classifier.sample_session)
              "session" None "20250101_0900" "2025-01-01T09:00:00" au E)
    as (actions & Hs & Hall & _).
  injection Hs as <-. split; [exact Hall|].
  vm_compute in E. injection E as <-. reflexivity.
Defined.

Lemma failure_tally_names_click_checks_witness :
  exists au,
    Classifier.sample_conversion = Ok au
    /\ Classifier.failed_checks (Classifier.au_quality_report au)
       = [("compatibility", 1%nat); ("resolution", 1%nat)]
    /\ Forall (fun k => k ∈ Classifier.click_only_checks)
         (map fst (Classifier.failed_checks (Classifier.au_quality_report au))).
Proof.
  destruct Classifier.sample_conversion as [au|] eqn:E; [|vm_compute in E; discriminate].
  exists au. split; [reflexivity|].
  destruct (failure_tally_names_click_checks Classifier.no_files Classifier.no_ocr
              (Ok Classifier.sample_session)
              "session" None "20250101_0900" "2025-01-01T09:00:00" au E) as (Hkeys & _).
  split; [|exact Hkeys].
  vm_compute in E. injection E as <-. reflexivity.
Defined.

(** ** Export endpoints *)

Section ApiFacts.
Import Classifier QualityApi.

Variable path_exists : string -> bool.
Variable easyocr_readtext : string -> result (list (string * Q)).
Variable load_learning_session : string -> result (list action).
Variable stamp iso : string.
Variable save_automation : automation -> string -> result string.
Variable quality_message : Q -> Q -> string.
Variable str_exn : exn -> string.

Local Abbreviation export :=
  (export_with_quality_checks path_exists easyocr_readtext load_learning_session
     stamp iso save_automation quality_message str_exn).
Local Abbreviation preview :=
  (preview_quality_checks path_exists easyocr_readtext load_learning_session str_exn).
Local Abbreviation convert := (convert_to_automation path_exists easyocr_readtext).
Local Abbreviation samples := (sample_checks_from path_exists easyocr_readtext).

Local Open Scope Q_scope.

Lemma ratio_unit (r t : nat) :
  (0 < t)%nat -> (r <= t)%nat ->
  0 <= inject_Z (Z.of_nat r) / inject_Z (Z.of_nat t) <= 1.
Proof.
  intros Ht Hr.
  assert (Htq : 0 < inject_Z (Z.of_nat t)).
  { change 0 with (inject_Z 0). rewrite <- Zlt_Qlt. lia. }
  split.
  - apply Qle_shift_div_l; [exact Htq|]. rewrite Qmult_0_l.
    change 0 with (inject_Z 0). rewrite <- Zle_Qle. lia.
  - apply Qle_shift_div_r; [exact Htq|]. rewrite Qmult_1_l.
    rewrite <- Zle_Qle. lia.
Qed.

(** The counts of the report of a conversion that returns. *)
Lemma convert_counts (session : result (list action)) (id : string)
    (name : option string) (au : automation) :
  convert session id name stamp iso = Ok au ->
  exists actions,
    session = Ok actions
    /\ total_actions (au_quality_report au) = length actions
    /\ (0 < total_actions (au_quality_report au))%nat
    /\ (reliable_steps (au_quality_report au)
        <= total_actions (au_quality_report au))%nat.
Proof.
  intros H.
  apply convert_inv in H as (actions & -> & Hne & Hloop & _).
  apply classify_all_inv in Hloop
    as (new & bad & _ & Ht & Hr & _ & Hlen & _).
  simpl in *. exists actions. split; [reflexivity|]. split; [exact Ht|].
  destruct actions; [contradiction|]. simpl in *. lia.
Qed.

(** The two bodies the export endpoint answers with. *)
Lemma export_reply_inv (request : export_request) (resp : export_response) :
  export request = Reply resp ->
  exists q : quality_report,
    (0 < total_actions q)%nat
    /\ (reliable_steps q <= total_actions q)%nat
    /\ ((Qltb (reliable_share q) (quality_threshold request) = true
         /\ resp
            = {| success := false; r_automation_name := None; file_path := None;
                 r_quality_report := Some q;
                 reliability_rating := Some (rate (reliable_share q));
                 r_reliable_steps := None; r_unreliable_steps := None;
                 error :=
                   Some (quality_message (reliable_share q)
                           (quality_threshold request)) |})
        \/ (Qltb (reliable_share q) (quality_threshold request) = false
            /\ exists name path,
                 resp
                 = {| success := true; r_automation_name := Some name;
                      file_path := Some path;
                      r_quality_report := Some q;
                      reliability_rating := Some (rate (reliable_share q));
                      r_reliable_steps := Some (reliable_steps q);
                      r_unreliable_steps := Some (unreliable_steps q);
                      error := None |})).
Proof.
  unfold export_with_quality_checks. intros H.
  destruct (convert _ _ _ _ _) as [au|e] eqn:Hconv;
    [|destruct e; discriminate].
  destruct (convert_counts _ _ _ au Hconv) as (actions & _ & _ & Hpos & Hle).
  exists (au_quality_report au). split; [exact Hpos|]. split; [exact Hle|].
  destruct (Nat.eqb_spec (total_actions (au_quality_report au)) 0); [lia|].
  fold (reliable_share (au_quality_report au)) in H.
  destruct (Qltb (reliable_share (au_quality_report au)) (quality_threshold request)).
  - left. split; [reflexivity|]. congruence.
  - right. split; [reflexivity|].
    destruct (save_automation au _) as [path|e] eqn:Hsave;
      [|destruct e; discriminate].
    injection H as <-. eauto.
Qed.

(** X7. What the export endpoint answers with is decided by the share
    of reliable steps, which lies between 0 and 1: the export succeeds
    exactly when the share reaches the threshold of the request; a
    success names the saved file and both counts and carries no error,
    a refusal carries an error and names no file; either way the
    rating is that of the share. *)
Theorem export_reply_follows_share (request : export_request)
    (resp : export_response) :
  export request = Reply resp ->
  exists q : quality_report,
    r_quality_report resp = Some q
    /\ 0 <= reliable_share q <= 1
    /\ reliability_rating resp = Some (rate (reliable_share q))
    /\ (success resp = true <-> quality_threshold request <= reliable_share q)
    /\ (success resp = true ->
        is_Some (file_path resp) /\ is_Some (r_automation_name resp)
        /\ error resp = None
        /\ r_reliable_steps resp = Some (reliable_steps q)
        /\ r_unreliable_steps resp = Some (unreliable_steps q))
    /\ (success resp = false ->
        file_path resp = None /\ r_automation_name resp = None
        /\ is_Some (error resp)).
Proof.
  intros H.
  destruct (export_reply_inv request resp H)
    as (q & Hpos & Hle & [[Hlt ->] | [Hge (name & path & ->)]]);
    exists q; cbn; (split; [reflexivity|]);
    (split; [apply ratio_unit; assumption|]); (split; [reflexivity|]).
  - apply Qltb_lt in Hlt. repeat split; try done; eauto.
    intros Hc. exfalso. apply (Qlt_not_le _ _ Hlt Hc).
  - apply Qltb_ge in Hge. repeat split; try done; eauto.
Qed.

(** X8. The threshold of the request and the ladder of ratings agree:
    an export accepted at a threshold of 0.75 or more (the default is
    0.8) is rated very or mostly reliable, one accepted at 0.9 or more
    is rated very reliable, and one refused at a threshold of 0.5 or
    less needs improvement.  No export is accepted at a threshold
    above 1, none is refused at a threshold of 0 or less. *)
Theorem export_rating_and_threshold (request : export_request)
    (resp : export_response) :
  export request = Reply resp ->
  (success resp = true -> 75 # 100 <= quality_threshold request ->
   reliability_rating resp = Some "very_reliable"
   \/ reliability_rating resp = Some "mostly_reliable")
  /\ (success resp = true -> 9 # 10 <= quality_threshold request ->
      reliability_rating resp = Some "very_reliable")
  /\ (success resp = false -> quality_threshold request <= 5 # 10 ->
      reliability_rating resp = Some "needs_improvement")
  /\ (1 < quality_threshold request -> success resp = false)
  /\ (quality_threshold request <= 0 -> success resp = true).
Proof.
  intros H.
  destruct (export_reply_inv request resp H)
    as (q & Hpos & Hle & [[Hlt ->] | [Hge (name & path & ->)]]);
    pose proof (ratio_unit _ _ Hpos Hle) as [H0 H1];
    fold (reliable_share q) in H0, H1; cbn; unfold rate.
  - apply Qltb_lt in Hlt. repeat split; try done.
    + intros _ Hth.
      destruct (Qleb (9 # 10) _) eqn:E1; [apply Qleb_le in E1; lra|].
      destruct (Qleb (75 # 100) _) eqn:E2; [apply Qleb_le in E2; lra|].
      destruct (Qleb (5 # 10) _) eqn:E3; [apply Qleb_le in E3; lra|].
      reflexivity.
    + intros Hth. lra.
  - apply Qltb_ge in Hge. repeat split; try done.
    + intros _ Hth.
      destruct (Qleb (9 # 10) _) eqn:E1; [auto|].
      destruct (Qleb (75 # 100) _) eqn:E2; [auto|].
      apply Qleb_gt in E2. lra.
    + intros _ Hth.
      destruct (Qleb (9 # 10) _) eqn:E1; [auto|].
      apply Qleb_gt in E1. lra.
    + intros Hth. lra.
Qed.

(** X9. A session the converter has no answer for is answered with
    HTTP 500, never with a refusal body: an empty session because the
    converter raises ValueError, a session with an action that is not
    well recorded because the classifier raises KeyError, NameError or
    IndexError on it. *)
Theorem unusable_session_is_http_500 (request : export_request)
    (actions : list action) :
  load_learning_session (learning_id request) = Ok actions ->
  actions = [] \/ ~ Forall well_recorded actions ->
  exists e,
    export request = HTTPException 500 ("Quality check failed: " ++ str_exn e)
    /\ (actions = [] -> e = ValueError "No actions found")
    /\ (actions <> [] ->
        e = KeyError "event" \/ e = NameError "detection_inf" \/ e = IndexError).
Proof.
  intros Hload Hbad. unfold export_with_quality_checks. rewrite Hload.
  destruct (convert _ _ _ _ _) as [au|e] eqn:Hconv.
  - exfalso.
    apply convert_inv in Hconv as (actions' & [= <-] & Hne & Hloop & _).
    apply classify_all_inv in Hloop
      as (new & bad & _ & _ & _ & _ & _ & _ & _ & Hall & _).
    destruct Hbad; contradiction.
  - exists e.
    apply convert_raises in Hconv
      as [Hs | [[Hs ->] | (actions' & Hs & Hne & Hkind)]].
    + discriminate.
    + injection Hs as ->. split; [reflexivity|]. split; [done|]. done.
    + injection Hs as <-.
      split; [destruct Hkind as [-> | [-> | ->]]; reflexivity|].
      split; [intros ->; contradiction|auto].
Qed.

(** X10. A session that loads, is not empty and holds only well
    recorded actions is answered with a body, provided the writer of
    automation files does not fail; the report of the body counts all
    the actions of the session. *)
Theorem usable_session_is_answered (request : export_request)
    (actions : list action) :
  load_learning_session (learning_id request) = Ok actions ->
  actions <> [] ->
  Forall well_recorded actions ->
  (forall au name, exists path, save_automation au name = Ok path) ->
  exists resp q,
    export request = Reply resp
    /\ r_quality_report resp = Some q
    /\ total_actions q = length actions
    /\ (reliable_steps q + unreliable_steps q = length actions)%nat.
Proof.
  intros Hload Hne Hall Hsave. unfold export_with_quality_checks. rewrite Hload.
  destruct (convert (Ok actions) (learning_id request) (automation_name request)
              stamp iso) as [au|e] eqn:Hconv.
  - pose proof Hconv as Hinv.
    apply convert_inv in Hinv as (actions' & [= <-] & _ & Hloop & _).
    apply classify_all_inv in Hloop
      as (new & bad & _ & Ht & Hr & Hu & Hlen & _).
    simpl in Ht, Hr, Hu.
    destruct (Nat.eqb_spec (total_actions (au_quality_report au)) 0) as [Hz|_].
    { destruct actions; [contradiction|]. simpl in Ht. lia. }
    destruct (Qltb _ _).
    + eexists. exists (au_quality_report au). split; [reflexivity|]. cbn.
      repeat split; auto; lia.
    + match goal with |- context [save_automation au ?n] =>
        destruct (Hsave au n) as [path ->] end.
      eexists. exists (au_quality_report au). split; [reflexivity|]. cbn.
      repeat split; auto; lia.
  - exfalso. unfold Classifier.convert_to_automation in Hconv. cbn [rbind] in Hconv.
    destruct actions as [|a rest]; [contradiction|].
    destruct (classify_all_returns path_exists easyocr_readtext (a :: rest) Hall 1 []
                {| total_actions := length (a :: rest); reliable_steps := 0;
                   unreliable_steps := 0; failed_checks := [] |})
      as [[steps report] Hret].
    rewrite Hret in Hconv. discriminate.
Qed.

(** *** The preview *)

Lemma samples_inv (sample : list action) :
  forall i acc out,
    samples sample i acc = Ok out ->
    exists new,
      out = (acc ++ new)%list
      /\ length new = length sample
      /\ map sc_action new = seq (S i) (length sample)
      /\ Forall well_recorded sample.
Proof.
  induction sample as [|a rest IH]; intros i acc out H; simpl in H.
  - injection H as <-. exists []. rewrite app_nil_r. repeat split; constructor.
  - destruct (Classifier.run_checks _ _ a) as [r|e] eqn:Hrun; [|discriminate].
    cbn [rbind] in H.
    assert (Hwell : well_recorded a) by (eapply run_checks_returns_iff; eauto).
    destruct (event a) as [ev|]; [|discriminate]. cbn [rbind] in H.
    apply IH in H as (new & -> & Hlen & Hnum & Hall).
    eexists (_ :: new). rewrite <- app_assoc. split; [reflexivity|].
    simpl. rewrite Hlen, Hnum, Nat.add_1_r. repeat split; auto.
Qed.

Lemma samples_returns (sample : list action) :
  Forall well_recorded sample ->
  forall i acc, exists out, samples sample i acc = Ok out.
Proof.
  induction 1 as [|a rest Ha _ IH]; intros i acc; simpl; [eauto|].
  pose proof Ha as Hev.
  apply (run_checks_returns_iff path_exists easyocr_readtext) in Ha as [r Hrun].
  rewrite Hrun. cbn [rbind].
  assert (exists ev, event a = Some ev) as [ev ->]
    by (destruct Hev as [?|[?|[? _]]]; eauto).
  cbn [rbind]. apply IH.
Qed.

(** X11. The preview classifies the first five actions of the session
    and no other: it answers with a body exactly when these are well
    recorded, whatever comes after them, and an empty session is
    previewed, with reliability 0, where its export is refused with
    an error.  The body numbers its samples from 1, counts the whole
    session, and estimates a reliability between 0 and 1 that is rated
    on the ladder of the export. *)
Theorem preview_samples_first_five (id : string) (actions : list action) :
  load_learning_session id = Ok actions ->
  ((exists p, preview id = Reply p) <-> Forall well_recorded (take 5 actions))
  /\ forall p,
       preview id = Reply p ->
       p_total_actions p = length actions
       /\ sample_size p = Nat.min 5 (length actions)
       /\ length (sample_results p) = sample_size p
       /\ map sc_action (sample_results p) = seq 1 (sample_size p)
       /\ 0 <= estimated_reliability p <= 1
       /\ estimated_rating p = rate (estimated_reliability p)
       /\ (actions = [] ->
           estimated_reliability p = 0
           /\ estimated_rating p = "needs_improvement").
Proof.
  intros Hload. unfold preview_quality_checks. rewrite Hload.
  destruct (samples (take 5 actions) 0 []) as [out|e] eqn:Hs.
  - apply samples_inv in Hs as (new & Hout & Hlen & Hnum & Hall).
    simpl in Hout. subst new. rewrite length_take in Hlen.
    split; [split; [auto|eauto]|].
    intros p [= <-]. cbn.
    split; [reflexivity|]. split; [exact Hlen|]. split; [reflexivity|].
    split; [rewrite Hnum, length_take, Hlen; reflexivity|].
    split; [|split; [reflexivity|]].
    + destruct out as [|c out]; [lra|]. apply ratio_unit; [simpl; lia|].
      apply length_filter.
    + intros ->. destruct out; [split; reflexivity|discriminate Hlen].
  - split.
    + split.
      * intros [p Hp]. destruct e; discriminate.
      * intros Hall.
        destruct (samples_returns (take 5 actions) Hall 0 []) as [out Hout].
        congruence.
    + intros p Hp. destruct e; discriminate.
Qed.

End ApiFacts.

(** *** The endpoints on the sample deployment *)

(** The first five actions of the long session are well recorded, the
    sixth is a scroll: the preview answers, the export does not. *)
Example preview_and_export_disagree :
  (exists p, QualityApi.sample_preview "long" = QualityApi.Reply p
             /\ QualityApi.estimated_rating p = "very_reliable")
  /\ QualityApi.sample_export (QualityApi.ask "long" (8 # 10))
     = QualityApi.HTTPException 500 "Quality check failed: error".
Proof. split; [eexists; split|]; vm_compute; reflexivity. Qed.

Lemma export_reply_follows_share_witness :
  exists resp q,
    QualityApi.sample_export (QualityApi.ask "session" (1 # 2)) = QualityApi.Reply resp
    /\ QualityApi.r_quality_report resp = Some q
    /\ QualityApi.success resp = true
    /\ (1 # 2 <= QualityApi.reliable_share q)%Q.
Proof.
  destruct (QualityApi.sample_export (QualityApi.ask "session" (1 # 2)))
    as [resp|code detail] eqn:E; [|vm_compute in E; discriminate].
  destruct (export_reply_follows_share _ _ _ _ _ _ _ _ _ resp E)
    as (q & Hq & _ & _ & Hiff & _).
  exists resp, q. split; [reflexivity|]. split; [exact Hq|].
  assert (Hs : QualityApi.success resp = true).
  { vm_compute in E. injection E as <-. reflexivity. }
  split; [exact Hs|]. apply Hiff. exact Hs.
Defined.

Lemma export_rating_and_threshold_witness :
  exists resp,
    QualityApi.sample_export (QualityApi.ask "typing" (8 # 10)) = QualityApi.Reply resp
    /\ QualityApi.success resp = true
    /\ (QualityApi.reliability_rating resp = Some "very_reliable"
        \/ QualityApi.reliability_rating resp = Some "mostly_reliable").
Proof.
  destruct (QualityApi.sample_export (QualityApi.ask "typing" (8 # 10)))
    as [resp|code detail] eqn:E; [|vm_compute in E; discriminate].
  destruct (export_rating_and_threshold _ _ _ _ _ _ _ _ _ resp E) as (H & _).
  exists resp. split; [reflexivity|].
  assert (Hs : QualityApi.success resp = true).
  { vm_compute in E. injection E as <-. reflexivity. }
  split; [exact Hs|]. apply H; [exact Hs|]. simpl. lra.
Defined.

Lemma unusable_session_is_http_500_witness :
  exists e,
    QualityApi.sample_export (QualityApi.ask "scrolling" (8 # 10))
    = QualityApi.HTTPException 500 "Quality check failed: error"
    /\ (e = KeyError "event" \/ e = NameError "detection_inf" \/ e = IndexError).
Proof.
  destruct (unusable_session_is_http_500 Classifier.no_files Classifier.no_ocr
              QualityApi.sample_store "20250101_0900" "2025-01-01T09:00:00"
              QualityApi.sample_save (fun _ _ => "Quality too low") (fun _ => "error")
              (QualityApi.ask "scrolling" (8 # 10))
              [Classifier.click_centre; Classifier.scroll_action] eq_refl)
    as (e & Hreply & _ & Hkind).
  - right. intros Hall. apply Forall_cons in Hall as [_ Hall].
    apply Forall_cons in Hall as [Hscroll _].
    destruct Hscroll as [H | [H | [H _]]]; discriminate H.
  - exists e. split; [exact Hreply|]. apply Hkind. discriminate.
Defined.

Lemma usable_session_is_answered_witness :
  exists resp q,
    QualityApi.sample_export (QualityApi.ask "session" (8 # 10)) = QualityApi.Reply resp
    /\ QualityApi.r_quality_report resp = Some q
    /\ Classifier.total_actions q = 3%nat.
Proof.
  destruct (usable_session_is_answered Classifier.no_files Classifier.no_ocr
              QualityApi.sample_store "20250101_0900" "2025-01-01T09:00:00"
              QualityApi.sample_save (fun _ _ => "Quality too low") (fun _ => "error")
              (QualityApi.ask "session" (8 # 10)) Classifier.sample_session eq_refl)
    as (resp & q & Hreply & Hq & Ht & _).
  - discriminate.
  - apply Forall_cons. split.
    { right. right. split; [reflexivity|]. intros pos [= <-]. simpl. lia. }
    apply Forall_cons. split.
    { right. right. split; [reflexivity|]. intros pos [= <-]. simpl. lia. }
    apply Forall_cons. split; [left; reflexivity|constructor].
  - intros au name. eexists. reflexivity.
  - exists resp, q. split; [exact Hreply|]. split; [exact Hq|exact Ht].
Defined.

Lemma preview_samples_first_five_witness :
  exists p,
    QualityApi.sample_preview "long" = QualityApi.Reply p
    /\ QualityApi.p_total_actions p = 6%nat
    /\ QualityApi.sample_size p = 5%nat
    /\ map QualityApi.sc_action (QualityApi.sample_results p)
       = [1; 2; 3; 4; 5]%nat.
Proof.
  destruct (preview_samples_first_five Classifier.no_files Classifier.no_ocr
              QualityApi.sample_store (fun _ => "error") "long"
              [Classifier.click_centre; Classifier.type_hello; Classifier.click_centre;
               Classifier.type_hello; Classifier.click_centre; Classifier.scroll_action]
              eq_refl) as [_ Hbody].
  destruct (QualityApi.sample_preview "long") as [p|code detail] eqn:E;
    [|vm_compute in E; discriminate].
  destruct (Hbody p E) as (Ht & Hn & _ & Hnum & _).
  exists p. split; [reflexivity|]. rewrite Hnum, Hn. auto.
Defined.

(** ** Target resolver: what is found, and which entry wins *)

Section ResolverMore.
Import Fusion Resolver.

Variable SequenceMatcher_ratio : string -> string -> Q.

Local Abbreviation calculate_match_quality :=
  (calculate_match_quality SequenceMatcher_ratio).
Local Abbreviation candidates := (candidates SequenceMatcher_ratio).
Local Abbreviation candidate_of := (candidate_of SequenceMatcher_ratio).
Local Abbreviation decent_match := (decent_match SequenceMatcher_ratio).
Local Abbreviation match_target_in_treasure_map :=
  (match_target_in_treasure_map SequenceMatcher_ratio).

Local Open Scope Q_scope.

Lemma elem_of_candidates (tm : list block) (target : string) (m : candidate) :
  m ∈ candidates tm (normalized target)
  <-> exists b, b ∈ tm /\ decent_match target b /\ m = candidate_of target b.
Proof.
  unfold Resolver.candidates, Resolver.decent_match, Resolver.candidate_of.
  rewrite list_elem_of_In, in_flat_map. cbn [similarity].
  fold (normalized target). split.
  - intros (b & Hb & Hin). exists b. apply list_elem_of_In in Hb.
    fold (normalized (label b)) in Hin.
    destruct (_ || _) eqn:Hc; [|inversion Hin].
    destruct (Qltb _ _) eqn:Hq; [|inversion Hin].
    destruct Hin as [<-|[]]. apply orb_true_iff in Hc. apply Qltb_lt in Hq. auto.
  - intros (b & Hb & [Hc Hq] & ->). exists b. split; [apply list_elem_of_In; exact Hb|].
    fold (normalized (label b)).
    apply orb_true_iff in Hc. apply Qltb_lt in Hq. rewrite Hc, Hq. left. reflexivity.
Qed.

Lemma max_scored_spec (rest : list (Q * candidate)) :
  forall best,
    max_scored best rest ∈ best :: rest
    /\ forall r, r ∈ best :: rest -> fst r <= fst (max_scored best rest).
Proof.
  induction rest as [|r rest IH]; intros best; simpl.
  - split; [left|]. intros r [->|H]%elem_of_cons; [lra|inversion H].
  - destruct (IH (if Qltb (fst best) (fst r) then r else best)) as [Hin Hmax].
    split.
    + apply elem_of_cons in Hin as [Hin|Hin].
      * rewrite Hin. destruct (Qltb _ _); [right; left|left].
      * right. right. exact Hin.
    + intros x Hx.
      assert (Hbest : fst best <= fst (max_scored
                (if Qltb (fst best) (fst r) then r else best) rest)).
      { destruct (Qltb (fst best) (fst r)) eqn:E.
        - apply Qltb_lt in E. specialize (Hmax r (list_elem_of_here _ _)). lra.
        - apply (Hmax best). left. }
      assert (Hr : fst r <= fst (max_scored
                (if Qltb (fst best) (fst r) then r else best) rest)).
      { destruct (Qltb (fst best) (fst r)) eqn:E.
        - apply (Hmax r). left.
        - apply Qltb_ge in E. specialize (Hmax best (list_elem_of_here _ _)). lra. }
      apply elem_of_cons in Hx as [->|Hx]; [exact Hbest|].
      apply elem_of_cons in Hx as [->|Hx]; [exact Hr|].
      apply Hmax. right. exact Hx.
Qed.

(** The resolver answers with the block of its best scored candidate. *)
Lemma match_inv (tm : list block) (target : string) (b : block) :
  match_target_in_treasure_map tm target = Some b ->
  target <> ""
  /\ exists m,
       m ∈ candidates tm (normalized target)
       /\ c_block m = b
       /\ forall m', m' ∈ candidates tm (normalized target) ->
            score_match_generically m' (normalized target)
            <= score_match_generically m (normalized target).
Proof.
  unfold Resolver.match_target_in_treasure_map. fold (normalized target).
  destruct tm as [|b0 tm0]; [discriminate|].
  destruct target as [|c target]; [discriminate|]. cbn [PyStr.truthy negb].
  split; [discriminate|].
  destruct (candidates (b0 :: tm0) (normalized (String c target)))
    as [|m [|m2 rest]] eqn:Hc; [discriminate| |].
  - injection H as <-. exists m. split; [left|]. split; [reflexivity|].
    intros m' [->|Hm']%elem_of_cons; [lra|inversion Hm'].
  - set (score := fun m => (score_match_generically m (normalized (String c target)), m)).
    assert (Hb : c_block (snd (max_scored (score m) (score m2 :: map score rest))) = b).
    { cbn [map] in H. injection H as <-. reflexivity. }
    clear H. rewrite <- Hb. clear Hb.
    destruct (max_scored_spec (score m2 :: map score rest) (score m)) as [Hin Hmax].
    change (score m :: score m2 :: map score rest)
      with (map score (m :: m2 :: rest)) in Hin, Hmax.
    apply list_elem_of_fmap in Hin as (mb & Hmb & Hin).
    exists mb. rewrite Hmb. split; [exact Hin|]. split; [reflexivity|].
    intros m' Hm'.
    specialize (Hmax (score m')). rewrite Hmb in Hmax. apply Hmax.
    apply list_elem_of_fmap. eauto.
Qed.

(** X12. What the resolver answers with is an entry of the map that
    passes both filters for the target (one of target and label
    contains the other once both are lower-cased and stripped, and the
    match quality is above 0.5), and no entry of the map that passes
    them has a greater score. *)
Theorem match_is_best_decent_entry (tm : list block) (target : string) (b : block) :
  match_target_in_treasure_map tm target = Some b ->
  target <> ""
  /\ b ∈ tm
  /\ decent_match target b
  /\ forall b', b' ∈ tm -> decent_match target b' ->
       score_match_generically (candidate_of target b') (normalized target)
       <= score_match_generically (candidate_of target b) (normalized target).
Proof.
  intros H. apply match_inv in H as (Hne & m & Hm & Hb & Hmax).
  apply elem_of_candidates in Hm as (b0 & Hin & Hdec & ->).
  cbn in Hb. subst b0. repeat split; auto; try apply Hdec.
  intros b' Hb' Hdec'. apply Hmax. apply elem_of_candidates. eauto.
Qed.

Lemma contained_is_decent (target : string) (b : block) :
  PyStr.contains (normalized target) (normalized (label b)) = true ->
  decent_match target b.
Proof.
  intros Hc. split; [left; exact Hc|]. cbn [similarity Resolver.candidate_of].
  unfold Resolver.calculate_match_quality. rewrite Hc.
  destruct (String.eqb _ _); [lra|].
  assert (0 <= inject_Z (Z.of_nat (String.length (normalized target)))
               / inject_Z (Z.of_nat (String.length (normalized (label b))))).
  { apply Qmult_le_0_compat.
    - change 0 with (inject_Z 0). rewrite <- Zle_Qle. lia.
    - apply Qinv_le_0_compat. change 0 with (inject_Z 0). rewrite <- Zle_Qle. lia. }
  lra.
Qed.

(** X13. A target that is not empty is found whenever some entry of
    the map passes both filters; this is so whenever the label of an
    entry contains the target, lower-cased and stripped, whatever the
    similarity ratio of the library says. *)
Theorem contained_target_is_found (tm : list block) (target : string) (b : block) :
  target <> "" ->
  b ∈ tm ->
  PyStr.contains (normalized target) (normalized (label b)) = true
  \/ decent_match target b ->
  exists b', match_target_in_treasure_map tm target = Some b'.
Proof.
  intros Hne Hb Hdec.
  assert (Hd : decent_match target b).
  { destruct Hdec as [Hc|Hd]; [apply contained_is_decent; exact Hc|exact Hd]. }
  assert (Hm : candidate_of target b ∈ candidates tm (normalized target)).
  { apply elem_of_candidates. eauto. }
  unfold Resolver.match_target_in_treasure_map. fold (normalized target).
  destruct tm as [|b0 tm0]; [inversion Hb|].
  destruct target as [|c target]; [contradiction|]. cbn [PyStr.truthy negb].
  destruct (candidates (b0 :: tm0) (normalized (String c target)))
    as [|m [|m2 rest]]; [inversion Hm|eauto|].
  cbn [map]. eauto.
Qed.

(** X14. The score of a candidate whose similarity is at most 1 lies
    between 0 and 87: at most 40 for the similarity, 20 for the size,
    10 for the position, 12 for the interactive words and 5 for the
    source. *)
Theorem score_is_bounded (m : candidate) (target : string) :
  similarity m <= 1 ->
  0 <= score_match_generically m target <= 87.
Proof.
  intros Hsim. unfold score_match_generically.
  destruct (position (c_block m)) as [x y w h].
  set (size := qmin (w * h * 100) 10).
  set (pos0 := if Qltb (2 # 10) x && Qltb x (8 # 10) && Qltb (2 # 10) y
                  && Qltb y (8 # 10) then 8
               else if Qltb (1 # 10) x && Qltb x (9 # 10) && Qltb (1 # 10) y
                       && Qltb y (9 # 10) then 5 else 2).
  set (pos := if Qltb (3 # 10) y then pos0 + 2 else pos0).
  set (u1 := if Classifier.any_in _ (c_label m) then 0 + 8 else 0).
  set (u2 := if Classifier.any_in _ (c_label m) then u1 - 5 else u1).
  set (u3 := if Classifier.any_in _ (c_label m) then u2 - 3 else u2).
  set (src := if String.eqb (source (c_block m)) "ocr" then 3
              else if String.eqb _ "overlapping" then 5
              else if String.eqb _ "cv" then 4 else 0).
  assert (Hsize : size <= 10).
  { subst size. unfold qmin. destruct (Qltb 10 _) eqn:E; [lra|].
    apply Qltb_ge in E. exact E. }
  assert (Hpos0 : pos0 <= 8) by (subst pos0; repeat case_match; lra).
  assert (Hpos : pos <= 10) by (subst pos; case_match; lra).
  assert (Hu1 : u1 <= 8) by (subst u1; case_match; lra).
  assert (Hu2 : u2 <= 8) by (subst u2; case_match; lra).
  assert (Hu3 : u3 <= 8) by (subst u3; case_match; lra).
  assert (Hsrc : src <= 5) by (subst src; repeat case_match; lra).
  unfold qmax.
  destruct (Qltb _ 0) eqn:E; [lra|]. apply Qltb_ge in E.
  split; [exact E|]. lra.
Qed.

End ResolverMore.

Lemma match_is_best_decent_entry_witness :
  Resolver.match_target_in_treasure_map Resolver.difflib_ratio
    [Resolver.send_entry; Resolver.send_button] "Send"
  = Some Resolver.send_button
  /\ (Resolver.score_match_generically
        (Resolver.candidate_of Resolver.difflib_ratio "Send" Resolver.send_entry)
        (Resolver.normalized "Send")
      <= Resolver.score_match_generically
           (Resolver.candidate_of Resolver.difflib_ratio "Send" Resolver.send_button)
           (Resolver.normalized "Send"))%Q.
Proof.
  assert (E : Resolver.match_target_in_treasure_map Resolver.difflib_ratio
                [Resolver.send_entry; Resolver.send_button] "Send"
              = Some Resolver.send_button) by (vm_compute; reflexivity).
  split; [exact E|].
  destruct (match_is_best_decent_entry Resolver.difflib_ratio _ _ _ E)
    as (_ & _ & _ & Hmax).
  apply Hmax.
  - left.
  - split; [left; vm_compute; reflexivity|]. vm_compute. reflexivity.
Defined.

Lemma contained_target_is_found_witness :
  exists b,
    Resolver.match_target_in_treasure_map Resolver.difflib_ratio
      [Resolver.send_button] " send "
    = Some b.
Proof.
  apply (contained_target_is_found Resolver.difflib_ratio
           [Resolver.send_button] " send " Resolver.send_button).
  - discriminate.
  - left.
  - left. vm_compute. reflexivity.
Defined.

Lemma score_is_bounded_witness :
  (Resolver.score_match_generically
     (Resolver.candidate_of Resolver.difflib_ratio "send message button"
        Resolver.send_button) "send message button" <= 87)%Q
  /\ (Resolver.score_match_generically
        (Resolver.candidate_of Resolver.difflib_ratio "send message button"
           Resolver.send_button) "send message button" == 87)%Q.
Proof.
  split; [|vm_compute; reflexivity].
  apply (score_is_bounded
           (Resolver.candidate_of Resolver.difflib_ratio "send message button"
              Resolver.send_button) "send message button").
  vm_compute. discriminate.
Defined.

(** ** Boxes: overlap, flipping, clicks and pixels *)

Section BoxMeasures.
Import Fusion.
Local Open Scope Q_scope.

Lemma qmax_cases (a b : Q) : (a < b /\ qmax a b = b) \/ (b <= a /\ qmax a b = a).
Proof.
  unfold qmax. destruct (Qltb a b) eqn:E.
  - left. split; [apply Qltb_lt; exact E|reflexivity].
  - right. split; [apply Qltb_ge; exact E|reflexivity].
Qed.

Lemma qmin_cases (a b : Q) : (b < a /\ qmin a b = b) \/ (a <= b /\ qmin a b = a).
Proof.
  unfold qmin. destruct (Qltb b a) eqn:E.
  - left. split; [apply Qltb_lt; exact E|reflexivity].
  - right. split; [apply Qltb_ge; exact E|reflexivity].
Qed.

(** The side of the intersection of two intervals [[a, a + w]] and
    [[b, b + v]], as [iou] computes it. *)
Lemma inter_side (a w b v : Q) :
  0 <= w -> 0 <= v ->
  let side := qmax 0 (qmin (a + w) (b + v) - qmax a b) in
  0 <= side /\ side <= w /\ side <= v
  /\ side == qmax 0 (qmin (b + v) (a + w) - qmax b a)
  /\ (a + w <= b \/ b + v <= a -> side == 0).
Proof.
  intros Hw Hv. cbv zeta.
  destruct (qmin_cases (a + w) (b + v)) as [[? ->]|[? ->]];
    destruct (qmax_cases a b) as [[? ->]|[? ->]];
    destruct (qmin_cases (b + v) (a + w)) as [[? ->]|[? ->]];
    destruct (qmax_cases b a) as [[? ->]|[? ->]];
    try lra;
    match goal with |- context [qmax 0 ?d] =>
      destruct (qmax_cases 0 d) as [[? ->]|[? ->]] end;
    try lra;
    match goal with |- context [qmax 0 ?d] =>
      destruct (qmax_cases 0 d) as [[? ->]|[? ->]] end;
    repeat split; try lra; intros [?|?]; lra.
Qed.

(** X15. For two boxes of non-negative width and height, the overlap
    ratio [iou] lies between 0 and 1 and never reaches 1, does not
    depend on the order of the two boxes, and is 0 when the boxes
    share no area. *)
Theorem iou_bounds_and_symmetry (a b : box) :
  proper_box a -> proper_box b ->
  0 <= iou a b /\ iou a b < 1
  /\ iou a b == iou b a
  /\ (apart a b -> iou a b == 0).
Proof.
  intros [Hwa Hha] [Hwb Hhb]. unfold iou.
  destruct (inter_side (bx a) (bw a) (bx b) (bw b) Hwa Hwb)
    as (Hx0 & Hxa & Hxb & Hxs & Hxz).
  destruct (inter_side (by_ a) (bh a) (by_ b) (bh b) Hha Hhb)
    as (Hy0 & Hya & Hyb & Hys & Hyz).
  set (iw := qmax 0 (qmin (bx a + bw a) (bx b + bw b) - qmax (bx a) (bx b))) in *.
  set (ih := qmax 0 (qmin (by_ a + bh a) (by_ b + bh b) - qmax (by_ a) (by_ b))) in *.
  set (iw' := qmax 0 (qmin (bx b + bw b) (bx a + bw a) - qmax (bx b) (bx a))) in *.
  set (ih' := qmax 0 (qmin (by_ b + bh b) (by_ a + bh a) - qmax (by_ b) (by_ a))) in *.
  assert (HI0 : 0 <= iw * ih) by (apply Qmult_le_0_compat; assumption).
  assert (HIa : iw * ih <= bw a * bh a) by nra.
  assert (HIb : iw * ih <= bw b * bh b) by nra.
  assert (Hden : 0 < bw a * bh a + bw b * bh b - iw * ih + (1 # 1000000)) by lra.
  split; [|split; [|split]].
  - apply Qle_shift_div_l; [exact Hden|]. lra.
  - apply Qlt_shift_div_r; [exact Hden|]. lra.
  - apply Qdiv_comp.
    + rewrite Hxs, Hys. reflexivity.
    + rewrite Hxs, Hys. ring.
  - intros Hap.
    assert (Hz : iw * ih == 0).
    { destruct Hap as [H|[H|[H|H]]].
      - rewrite (Hxz (or_introl H)). ring.
      - rewrite (Hxz (or_intror H)). ring.
      - rewrite (Hyz (or_introl H)). ring.
      - rewrite (Hyz (or_intror H)). ring. }
    unfold Qdiv. rewrite Hz. ring.
Qed.

End BoxMeasures.

(** *** Truncation to pixels *)

Lemma py_int_floor (q : Q) : (0 <= q)%Q -> py_int q = Qfloor q.
Proof.
  destruct q as [n d]. unfold Qle, py_int, Qfloor. simpl. intros H.
  apply Z.quot_div_nonneg; lia.
Qed.

Lemma py_int_bounds (q : Q) :
  (0 <= q)%Q ->
  (0 <= py_int q)%Z /\ (inject_Z (py_int q) <= q)%Q /\ (q < inject_Z (py_int q + 1))%Q.
Proof.
  intros H. rewrite (py_int_floor q H). split; [|split].
  - change 0%Z with (Qfloor 0). apply Qfloor_resp_le. exact H.
  - apply Qfloor_le.
  - apply Qlt_floor.
Qed.

(** An extent [[x, x + w]] inside the unit interval, cut to pixels of
    a side of [n] pixels, stays inside [[0, n]]. *)
Lemma pixel_extent (x w : Q) (n : positive) :
  (0 <= x)%Q -> (0 <= w)%Q -> (x + w <= 1)%Q ->
  (0 <= py_int (x * inject_Z (Zpos n)))%Z
  /\ (0 <= py_int (w * inject_Z (Zpos n)))%Z
  /\ (py_int (x * inject_Z (Zpos n)) + py_int (w * inject_Z (Zpos n)) <= Zpos n)%Z.
Proof.
  intros Hx Hw Hxw.
  assert (Hn : (0 < inject_Z (Zpos n))%Q) by (unfold Qlt; simpl; lia).
  assert (Hxn : (0 <= x * inject_Z (Zpos n))%Q) by (apply Qmult_le_0_compat; lra).
  assert (Hwn : (0 <= w * inject_Z (Zpos n))%Q) by (apply Qmult_le_0_compat; lra).
  destruct (py_int_bounds _ Hxn) as (Hx0 & Hx1 & _).
  destruct (py_int_bounds _ Hwn) as (Hw0 & Hw1 & _).
  split; [exact Hx0|]. split; [exact Hw0|].
  rewrite Zle_Qle, inject_Z_plus.
  assert ((x + w) * inject_Z (Zpos n) <= inject_Z (Zpos n))%Q by nra.
  lra.
Qed.

Section BoxPixels.
Import Fusion.
Local Open Scope Q_scope.

(** X16. With the component layer switched off, as it is in this
    build, the combined treasure map is the plain treasure map with
    every box flipped vertically, whatever the component layer and the
    size of the image are; both raise FileNotFoundError for a missing
    image; every entry is a text entry of the recogniser with a
    non-empty label; and flipping twice gives the box back. *)
Theorem combined_map_is_flipped_plain_map (width height : positive)
    (image_exists : bool) (res : list text_block) (ui : list block) :
  generate_combined_treasure_map width height image_exists res ui
  = match generate_treasure_map image_exists res ui with
    | Ok tm => Ok (map flip_block tm)
    | Raise e => Raise e
    end
  /\ (forall tm,
        generate_treasure_map image_exists res ui = Ok tm ->
        image_exists = true
        /\ Forall (fun b => source b = "ocr" /\ b_type b = "text" /\ label b <> "") tm
        /\ (length tm <= length res)%nat)
  /\ (forall b : box,
        bx (flip_box (flip_box b)) = bx b
        /\ by_ (flip_box (flip_box b)) == by_ b
        /\ bw (flip_box (flip_box b)) = bw b
        /\ bh (flip_box (flip_box b)) = bh b).
Proof.
  unfold generate_combined_treasure_map, generate_treasure_map, VISION_ENABLED.
  cbn [negb]. split; [|split].
  - destruct image_exists; cbn [negb]; [|reflexivity].
    rewrite app_nil_r. f_equal. unfold _build_ocr_blocks.
    induction res as [|tb res IH]; [reflexivity|].
    cbn [flat_map]. rewrite map_app, <- IH. f_equal.
    destruct (bbox tb) as [|x [|y [|w [|h [|]]]]]; try reflexivity.
    destruct (PyStr.truthy _); reflexivity.
  - intros tm. destruct image_exists; cbn [negb]; [|discriminate].
    rewrite app_nil_r. intros [= <-]. split; [reflexivity|].
    unfold _build_ocr_blocks. split.
    + induction res as [|tb res IH]; [constructor|].
      cbn [flat_map]. apply Forall_app. split; [|exact IH].
      destruct (bbox tb) as [|x [|y [|w [|h [|]]]]]; try constructor.
      destruct (PyStr.strip (text tb)) eqn:E; cbn [PyStr.truthy]; constructor;
        [|constructor]. cbn. repeat split; discriminate.
    + induction res as [|tb res IH]; [reflexivity|].
      cbn [flat_map]. rewrite length_app. cbn [length].
      assert (Hone : forall l : list block,
                 (l = [] \/ exists b, l = [b]) -> (length l <= 1)%nat).
      { intros l [->|[b ->]]; simpl; lia. }
      match goal with |- (length ?l + _ <= _)%nat =>
        assert (length l <= 1)%nat end; [|lia].
      apply Hone.
      destruct (bbox tb) as [|x [|y [|w [|h [|]]]]]; auto.
      destruct (PyStr.truthy _); eauto.
  - intros [x y w h]. cbn. repeat split; try reflexivity. ring.
Qed.

(** X17. An entry that [match_blocks_to_click] returns for a click is
    an entry of the map whose centre is less than the threshold away
    from the click on both axes, the Y of the click being counted from
    the other edge; so the threshold is positive, a box at least twice
    the threshold wide and high has the click strictly inside it, and
    the entry is still returned for any larger threshold. *)
Theorem click_matches_lie_under_click (click_x click_y threshold : Q)
    (treasure_map : list block) (b : block) :
  b ∈ match_blocks_to_click (Some (click_x, click_y)) treasure_map threshold ->
  b ∈ treasure_map
  /\ 0 < threshold
  /\ py_abs (bx (position b) + bw (position b) / 2 - click_x) < threshold
  /\ py_abs (by_ (position b) + bh (position b) / 2 - (1 - click_y)) < threshold
  /\ (2 * threshold <= bw (position b) ->
      bx (position b) < click_x < bx (position b) + bw (position b))
  /\ (2 * threshold <= bh (position b) ->
      by_ (position b) < 1 - click_y < by_ (position b) + bh (position b))
  /\ (forall larger, threshold <= larger ->
        b ∈ match_blocks_to_click (Some (click_x, click_y)) treasure_map larger).
Proof.
  unfold match_blocks_to_click, Qdiv. change (/ 2) with (1 # 2).
  destruct treasure_map as [|b0 tm]; [intros H; inversion H|].
  set (l := b0 :: tm). clearbody l.
  rewrite list_elem_of_filter. intros [Hnear Hb].
  apply andb_true_iff in Hnear as [Hdx Hdy].
  apply Qltb_lt in Hdx, Hdy.
  assert (Habs : forall q, 0 <= py_abs q /\ - py_abs q <= q /\ q <= py_abs q).
  { intros q. unfold py_abs. destruct (Qltb q 0) eqn:E.
    - apply Qltb_lt in E. lra.
    - apply Qltb_ge in E. lra. }
  destruct (Habs (bx (position b) + bw (position b) * (1 # 2) - click_x))
    as (Hx0 & Hx1 & Hx2).
  destruct (Habs (by_ (position b) + bh (position b) * (1 # 2) - (1 - click_y)))
    as (Hy0 & Hy1 & Hy2).
  set (dx := py_abs (bx (position b) + bw (position b) * (1 # 2) - click_x)) in *.
  set (dy := py_abs (by_ (position b) + bh (position b) * (1 # 2) - (1 - click_y))) in *.
  repeat split; auto; try lra.
  intros larger Hle.
  destruct l as [|b1 l']; [inversion Hb|].
  apply list_elem_of_filter. split; [|exact Hb].
  apply andb_true_iff.
  split; apply Qltb_lt; [change (dx < larger)|change (dy < larger)]; lra.
Qed.

(** X18. The pixel box attached to an entry that lies in the frame
    lies in the image: its corner and its size are not negative, and
    it ends at or before the width and the height of the image. *)
Theorem pixel_boxes_stay_in_image (width height : positive) (b : box) :
  box_in_frame b ->
  exists x y w h : Z,
    pixel_position width height b = [x; y; w; h]
    /\ (0 <= x /\ 0 <= w /\ x + w <= Zpos width)%Z
    /\ (0 <= y /\ 0 <= h /\ y + h <= Zpos height)%Z.
Proof.
  intros (Hx & Hy & Hw & Hh & Hxw & Hyh).
  unfold pixel_position. do 4 eexists. split; [reflexivity|]. split.
  - apply pixel_extent; lra.
  - apply pixel_extent; lra.
Qed.

End BoxPixels.

Lemma click_matches_lie_under_click_witness :
  Resolver.send_button
    ∈ Fusion.match_blocks_to_click (Some (11 # 20, 7 # 20))
        [Resolver.send_entry; Resolver.send_button] (2 # 100)
  /\ (Fusion.bx (Fusion.position Resolver.send_button) < 11 # 20
      < Fusion.bx (Fusion.position Resolver.send_button)
        + Fusion.bw (Fusion.position Resolver.send_button))%Q.
Proof.
  assert (H : Resolver.send_button
                ∈ Fusion.match_blocks_to_click (Some (11 # 20, 7 # 20))
                    [Resolver.send_entry; Resolver.send_button] (2 # 100)).
  { unfold Fusion.match_blocks_to_click. apply list_elem_of_filter.
    split; [vm_compute; reflexivity|]. right. left. }
  split; [exact H|].
  apply (click_matches_lie_under_click _ _ _ _ _ H).
  vm_compute. discriminate.
Defined.

Lemma pixel_boxes_stay_in_image_witness :
  exists x y w h : Z,
    Fusion.pixel_position 1920 1080 (Fusion.position Resolver.send_button)
    = [x; y; w; h]
    /\ (0 <= x /\ 0 <= w /\ x + w <= 1920)%Z
    /\ (0 <= y /\ 0 <= h /\ y + h <= 1080)%Z.
Proof.
  apply (pixel_boxes_stay_in_image 1920 1080 (Fusion.position Resolver.send_button)).
  unfold Fusion.box_in_frame. simpl. repeat split; lra.
Defined.

Lemma iou_bounds_and_symmetry_witness :
  (0 <= Fusion.iou (Fusion.position Resolver.send_entry)
          (Fusion.position Resolver.send_button))%Q
  /\ (Fusion.iou (Fusion.position Resolver.send_entry)
        (Fusion.position Resolver.send_button)
      == Fusion.iou (Fusion.position Resolver.send_button)
           (Fusion.position Resolver.send_entry))%Q.
Proof.
  destruct (iou_bounds_and_symmetry (Fusion.position Resolver.send_entry)
              (Fusion.position Resolver.send_button)) as (H0 & _ & Hs & _).
  - split; simpl; lra.
  - split; simpl; lra.
  - split; [exact H0|exact Hs].
Defined.

(** ** Execution guard: where a click lands, replays, and a missing library *)

Lemma pixel_inside (x : Q) (n : positive) :
  (0 <= x)%Q -> (x < 1)%Q ->
  (0 <= py_int (x * inject_Z (Zpos n)) < Zpos n)%Z.
Proof.
  intros H0 H1.
  assert (Hn : (0 < inject_Z (Zpos n))%Q) by (unfold Qlt; simpl; lia).
  assert (Hxn : (0 <= x * inject_Z (Zpos n))%Q) by (apply Qmult_le_0_compat; lra).
  destruct (py_int_bounds _ Hxn) as (Hp0 & Hp1 & _).
  split; [exact Hp0|]. rewrite Zlt_Qlt.
  assert (x * inject_Z (Zpos n) < inject_Z (Zpos n))%Q by nra.
  lra.
Qed.

Section GuardMore.
Import Fusion Guard.

Variable py_repr : pyval -> string.
Variable SequenceMatcher_ratio : string -> string -> Q.
Variables pyautogui_loaded pyperclip_loaded : bool.
Variable screen_size : Z * Z.
Variable float_mul : Q -> Q -> Q.

Local Abbreviation execute_action :=
  (execute_action py_repr SequenceMatcher_ratio pyautogui_loaded pyperclip_loaded
     screen_size float_mul).
Local Abbreviation click_or_skip := (click_or_skip pyautogui_loaded).
Local Abbreviation aims_at :=
  (aims_at SequenceMatcher_ratio pyautogui_loaded screen_size float_mul).

(** A call that issues a click is a click step; the click goes to the
    pixel the step aims at and is recorded in the context. *)
Lemma execute_click_inv now pa tm tc otc eff x y :
  execute_action now pa tm (Some tc) = Ok (otc, eff) ->
  EClick x y ∈ eff ->
  dict_get pa "type" = Some (VStr "click")
  /\ aims_at pa tm x y
  /\ otc = Some (after_click now tc x y (get pa "target"))
  /\ eff = [EClick x y].
Proof.
  unfold Guard.execute_action.
  destruct (dict_get pa "type") as [[| ty | | | | |]|] eqn:Hty; simpl;
    try (intros [= <- <-] Hin; inversion Hin).
  destruct (String.eqb ty "open") eqn:Eopen.
  { unfold rbind. intros H Hin. repeat case_match; simplify_eq; set_solver. }
  destruct (String.eqb ty "move" || String.eqb ty "hover") eqn:Emove.
  { unfold rbind, match_target, rbind, move_mouse. intros H Hin.
    repeat case_match; simplify_eq; set_solver. }
  destruct (String.eqb ty "click") eqn:Eclick.
  { apply String.eqb_eq in Eclick. subst ty. split; [reflexivity|].
    revert H. unfold Guard.aims_at.
    destruct (truthy (get pa "coordinates")) eqn:Hc.
    - destruct (direct_pixels _ _ _ _) as [[fx fy]|e] eqn:Hp; cbn [rbind];
        [|discriminate].
      intros H.
      destruct (click_or_skip_inv pyautogui_loaded now tc fx fy _ _ _ H)
        as [[-> ->]|[-> ->]]; [|inversion H0].
      apply list_elem_of_singleton in H0. injection H0 as -> ->. auto.
    - destruct (truthy (get pa "target")) eqn:Ht;
        [|intros [= <- <-]; inversion H0].
      unfold match_target.
      destruct tm as [|b0 tm0]; [intros [= <- <-]; inversion H0|].
      destruct (get pa "target") as [| t | | | | |] eqn:Hg; cbn [as_str rbind];
        try discriminate.
      destruct (Resolver.match_target_in_treasure_map _ _ t) as [b|] eqn:Hm;
        [|intros [= <- <-]; inversion H0].
      destruct (center_pixels _ _ _ b) as [[fx fy]|e] eqn:Hp; cbn [rbind];
        [|discriminate].
      intros H.
      destruct (click_or_skip_inv pyautogui_loaded now tc fx fy _ _ _ H)
        as [[-> ->]|[-> ->]]; [|inversion H0].
      apply list_elem_of_singleton in H0. injection H0 as -> ->.
      split; [|auto]. right. split; [reflexivity|]. exists t, b. auto. }
  destruct (String.eqb ty "key") eqn:Ekey.
  { unfold rbind, guarded_key. intros H Hin.
    repeat case_match; simplify_eq; set_solver. }
  destruct (String.eqb ty "type") eqn:Etype.
  { unfold rbind, paste_text. intros H Hin.
    repeat case_match; simplify_eq; set_solver. }
  intros [= <- <-] Hin. inversion Hin.
Qed.

(** X19. A click that was issued is not issued again by the same step:
    handed to [execute_action] once more with the context the first
    call left, on the same map and at any later time, the step is
    suppressed, and only [last_skipped_target] is written.  The time
    of the last click is recorded but never read. *)
Theorem replayed_click_is_suppressed (now later : Q) (pa : dict)
    (tm : list block) (tc tc1 : dict) (effects : list effect) (x y : Z) :
  execute_action now pa tm (Some tc) = Ok (Some tc1, effects) ->
  EClick x y ∈ effects ->
  execute_action later pa tm (Some tc1)
  = Ok (Some (after_skip tc1 (get pa "target")), []).
Proof.
  intros Hrun Hin.
  destruct (execute_click_inv _ _ _ _ _ _ _ _ Hrun Hin) as (Hty & Haim & [= ->] & _).
  rewrite (execute_click_aimed py_repr SequenceMatcher_ratio pyautogui_loaded
             pyperclip_loaded screen_size float_mul later pa tm _ x y Hty Haim).
  unfold Guard.click_or_skip, should_click.
  assert (Hc : dict_get (after_click now tc x y (get pa "target")) "last_click_coords"
               = Some (VTuple [x; y])).
  { unfold after_click. rewrite !dict_get_set_ne by discriminate.
    apply dict_get_set_eq. }
  assert (Ht : dict_get (after_click now tc x y (get pa "target")) "last_click_target"
               = Some (get pa "target")).
  { unfold after_click. rewrite dict_get_set_ne by discriminate.
    apply dict_get_set_eq. }
  destruct (after_click now tc x y (get pa "target")) as [|kv rest] eqn:E.
  { exfalso. unfold after_click in E. eapply dict_set_nonempty; eauto. }
  rewrite Hc, Ht.
  assert (Hd : (dist2 x y x y <=? 4)%Z = true).
  { apply Z.leb_le. unfold dist2. lia. }
  rewrite Hd. reflexivity.
Qed.

(** X20. With the screen library loaded, the pixel a step aims at lies
    on the screen: the centre of an entry that lies in the frame, and
    direct coordinates that are at least 0 and below 1, both give a
    pixel with 0 <= x < width and 0 <= y < height.  The products of a
    coordinate and a screen dimension are here the exact ones. *)
Theorem aimed_pixel_is_on_screen (width height : positive) (b : block)
    (cx cy : Q) (rest : list Q) :
  box_in_frame (position b) ->
  (0 <= cx /\ cx < 1)%Q -> (0 <= cy /\ cy < 1)%Q ->
  (exists fx fy,
     center_pixels true (Zpos width, Zpos height) Qmult b = Ok (fx, fy)
     /\ (0 <= fx < Zpos width)%Z /\ (0 <= fy < Zpos height)%Z)
  /\ (exists fx fy,
        direct_pixels true (Zpos width, Zpos height) Qmult (VList (cx :: cy :: rest))
        = Ok (fx, fy)
        /\ (0 <= fx < Zpos width)%Z /\ (0 <= fy < Zpos height)%Z).
Proof.
  intros (Hx & Hy & Hw & Hh & Hxw & Hyh) [Hcx0 Hcx1] [Hcy0 Hcy1]. split.
  - unfold center_pixels. destruct (position b) as [x y w h]. cbn in *.
    do 2 eexists. split; [reflexivity|].
    destruct (pixel_extent x w width) as (Hx0 & Hw0 & Hxw'); try lra.
    destruct (pixel_extent y h height) as (Hy0 & Hh0 & Hyh'); try lra.
    destruct (pixel_inside x width) as [_ Hxi]; try lra.
    destruct (pixel_inside y height) as [_ Hyi]; try lra.
    split.
    + pose proof (Z.div_pos (py_int (w * inject_Z (Zpos width))) 2 Hw0 eq_refl).
      destruct (Z.eq_dec (py_int (w * inject_Z (Zpos width))) 0) as [E|E].
      * rewrite E. change (0 / 2)%Z with 0%Z. lia.
      * assert (py_int (w * inject_Z (Zpos width)) / 2
                < py_int (w * inject_Z (Zpos width)))%Z
          by (apply Z.div_lt; lia).
        lia.
    + pose proof (Z.div_pos (py_int (h * inject_Z (Zpos height))) 2 Hh0 eq_refl).
      destruct (Z.eq_dec (py_int (h * inject_Z (Zpos height))) 0) as [E|E].
      * rewrite E. change (0 / 2)%Z with 0%Z. lia.
      * assert (py_int (h * inject_Z (Zpos height)) / 2
                < py_int (h * inject_Z (Zpos height)))%Z
          by (apply Z.div_lt; lia).
        lia.
  - unfold direct_pixels. cbn. do 2 eexists. split; [reflexivity|].
    split; apply pixel_inside; assumption.
Qed.

(** X26. With a last click recorded in the context, a click step whose
    pixel lies at distance at most 2 from it is suppressed, whatever
    the two target names; at distance below 15 it is suppressed when
    its target name equals the recorded one up to case and surrounding
    white space, and at distance over 2 it is issued when the two names
    differ; at distance 15 or more it is issued, whatever the names.
    An issued click overwrites the last-click position, target and
    time of the context, which then read back as the pixel, the target
    of the step and the clock, and changes no other key; a suppressed
    click sets [last_skipped_target] and changes no other key.
    Distances are compared by their squares. *)
Theorem duplicate_click_guard (now : Q) (pa : dict) (tm : list block)
    (tc : dict) (fx fy lx ly : Z) (rest : list Z) (lt : pyval) :
  dict_get pa "type" = Some (VStr "click") ->
  aims_at pa tm fx fy ->
  dict_get tc "last_click_coords" = Some (VTuple (lx :: ly :: rest)) ->
  dict_get tc "last_click_target" = Some lt ->
  let target := get pa "target" in
  let d2 := dist2 fx fy lx ly in
  let suppressed := Ok (Some (after_skip tc target), []) in
  let executed := Ok (Some (after_click now tc fx fy target), [EClick fx fy]) in
  (d2 <= 2 * 2 -> execute_action now pa tm (Some tc) = suppressed)
  /\ (forall t l, target = VStr t -> lt = VStr l ->
        d2 < 15 * 15 -> same_name t l ->
        execute_action now pa tm (Some tc) = suppressed)
  /\ (forall t l, target = VStr t -> lt = VStr l ->
        2 * 2 < d2 -> ~ same_name t l ->
        execute_action now pa tm (Some tc) = executed)
  /\ (15 * 15 <= d2 -> execute_action now pa tm (Some tc) = executed)
  /\ dict_get (after_click now tc fx fy target) "last_click_coords"
     = Some (VTuple [fx; fy])
  /\ dict_get (after_click now tc fx fy target) "last_click_target" = Some target
  /\ dict_get (after_click now tc fx fy target) "last_click_time" = Some (VFloat now)
  /\ (forall k, k ∉ ["last_click_coords"; "last_click_target"; "last_click_time"] ->
        dict_get (after_click now tc fx fy target) k = dict_get tc k)
  /\ dict_get (after_skip tc target) "last_skipped_target" = Some target
  /\ (forall k, k <> "last_skipped_target" ->
        dict_get (after_skip tc target) k = dict_get tc k).
Proof.
  intros Hty Haim Hc Hl target d2 suppressed executed.
  pose proof (guard_cases py_repr SequenceMatcher_ratio pyautogui_loaded pyperclip_loaded
                screen_size float_mul now pa tm tc fx fy lx ly rest lt Hty Haim Hc Hl)
    as Hrun.
  fold target d2 in Hrun.
  split; [|split; [|split; [|split]]].
  - intros Hd. rewrite Hrun.
    destruct (Z.leb_spec d2 4); [reflexivity | lia].
  - intros t l Ht -> Hd Hsame. rewrite Hrun, Ht.
    destruct (Z.leb_spec d2 4); [rewrite <- Ht; reflexivity|].
    destruct (Z.ltb_spec d2 225); [|lia].
    cbn [same_target as_str rbind]. unfold same_name in Hsame.
    rewrite Hsame, String.eqb_refl. rewrite <- Ht. reflexivity.
  - intros t l Ht -> Hd Hdiff. rewrite Hrun, Ht.
    destruct (Z.leb_spec d2 4); [lia|].
    destruct (Z.ltb_spec d2 225); [|rewrite <- Ht; reflexivity].
    cbn [same_target as_str rbind]. unfold same_name in Hdiff.
    apply String.eqb_neq in Hdiff. rewrite Hdiff. rewrite <- Ht. reflexivity.
  - intros Hd. rewrite Hrun.
    destruct (Z.leb_spec d2 4); [lia|].
    destruct (Z.ltb_spec d2 225); [lia | reflexivity].
  - unfold after_click, after_skip. repeat split.
    + rewrite !dict_get_set_ne by discriminate. apply dict_get_set_eq.
    + rewrite dict_get_set_ne by discriminate. apply dict_get_set_eq.
    + apply dict_get_set_eq.
    + intros k Hk. rewrite !elem_of_cons, elem_of_nil in Hk.
      rewrite (dict_get_set_ne _ "last_click_time" k),
        (dict_get_set_ne _ "last_click_target" k),
        (dict_get_set_ne _ "last_click_coords" k);
        [reflexivity|..]; intros <-; apply Hk; auto.
    + apply dict_get_set_eq.
    + intros k Hk. apply dict_get_set_ne. congruence.
Qed.

End GuardMore.

Section MachinePixels.
Import Fusion Guard.
Local Open Scope Q_scope.

(** The floating-point product of a coordinate and a screen dimension
    exceeds the exact one by at most three roundings. *)
Lemma float_product_bounds (c : Q) (n : positive) :
  0 <= c ->
  0 <= float_product c (inject_Z (Zpos n))
  /\ float_product c (inject_Z (Zpos n))
     <= c * inject_Z (Zpos n)
        * ((1 + unit_roundoff) * (1 + unit_roundoff) * (1 + unit_roundoff)).
Proof.
  intros Hc. unfold float_product, fmul, py_float.
  set (W := inject_Z (Zpos n)).
  assert (HW : 0 < W) by (unfold W, Qlt; simpl; lia).
  destruct (b64_nonneg c Hc) as [Ha1 Ha2].
  destruct (b64_nonneg W) as [Hb1 Hb2]; [lra|].
  set (A := b64 c) in *. set (B := b64 W) in *.
  unfold unit_roundoff in *.
  assert (HA : 0 <= A) by nra.
  assert (HB : 0 <= B) by nra.
  assert (Hp : 0 <= A * B) by (apply Qmult_le_0_compat; assumption).
  destruct (b64_nonneg (A * B) Hp) as [Hc1 Hc2].
  unfold unit_roundoff in *.
  set (P := b64 (A * B)) in *.
  assert (Hcw : 0 <= c * W) by (apply Qmult_le_0_compat; lra).
  assert (HAB : A * B <= c * W * ((1 + (1 # 9007199254740992))
                                   * (1 + (1 # 9007199254740992)))) by nra.
  split; [nra|]. nra.
Qed.

Lemma py_int_below (q : Q) (n : Z) :
  0 <= q -> q < inject_Z n -> (0 <= py_int q < n)%Z.
Proof.
  intros H0 Hn. destruct (py_int_bounds q H0) as (Hp0 & Hp1 & _).
  split; [exact Hp0|]. rewrite Zlt_Qlt. lra.
Qed.

(** X27. With the screen library loaded and the products computed in
    floating point, the pixel a step aims at lies on the screen when
    what it aims at stays 2 ** -51 inside the frame: the centre of an
    entry whose box is so, and direct coordinates that are at least 0
    and at most 1 - 2 ** -51, both give a pixel with 0 <= x < width and
    0 <= y < height. *)
Theorem machine_pixel_is_on_screen (width height : positive) (b : block)
    (cx cy : Q) (rest : list Q) :
  box_well_inside (position b) ->
  0 <= cx <= 1 - frame_margin -> 0 <= cy <= 1 - frame_margin ->
  (exists fx fy,
     center_pixels true (Zpos width, Zpos height) float_product b = Ok (fx, fy)
     /\ (0 <= fx < Zpos width)%Z /\ (0 <= fy < Zpos height)%Z)
  /\ (exists fx fy,
        direct_pixels true (Zpos width, Zpos height) float_product
          (VList (cx :: cy :: rest))
        = Ok (fx, fy)
        /\ (0 <= fx < Zpos width)%Z /\ (0 <= fy < Zpos height)%Z).
Proof.
  assert (Hone : forall (c : Q) (n : positive),
            0 <= c <= 1 - frame_margin ->
            (0 <= py_int (float_product c (inject_Z (Zpos n))) < Zpos n)%Z).
  { intros c n [H0 H1]. destruct (float_product_bounds c n H0) as [Hp0 Hp1].
    apply py_int_below; [exact Hp0|].
    set (W := inject_Z (Zpos n)) in *.
    assert (HW : 0 < W) by (unfold W, Qlt; simpl; lia).
    unfold frame_margin, unit_roundoff in *. nra. }
  assert (Htwo : forall (x w : Q) (n : positive),
            0 <= x -> 0 <= w -> x + w <= 1 - frame_margin ->
            (0 <= py_int (float_product x (inject_Z (Zpos n)))
                  + py_int (float_product w (inject_Z (Zpos n))) / 2 < Zpos n)%Z).
  { intros x w n Hx Hw Hxw.
    destruct (float_product_bounds x n Hx) as [Hx0 Hx1].
    destruct (float_product_bounds w n Hw) as [Hw0 Hw1].
    destruct (py_int_bounds _ Hx0) as (Hpx0 & Hpx1 & _).
    destruct (py_int_bounds _ Hw0) as (Hpw0 & Hpw1 & _).
    set (px := py_int (float_product x (inject_Z (Zpos n)))) in *.
    set (pw := py_int (float_product w (inject_Z (Zpos n)))) in *.
    assert (Hsum : (px + pw < Zpos n)%Z).
    { rewrite Zlt_Qlt, inject_Z_plus.
      set (W := inject_Z (Zpos n)) in *.
      assert (HW : 0 < W) by (unfold W, Qlt; simpl; lia).
      unfold frame_margin, unit_roundoff in *. nra. }
    pose proof (Z.div_pos pw 2 Hpw0 eq_refl) as Hd0.
    assert (Hd1 : (pw / 2 <= pw)%Z) by (apply Z.div_le_upper_bound; lia).
    lia. }
  intros (Hx & Hy & Hw & Hh & Hxw & Hyh) Hcx Hcy. split.
  - unfold center_pixels. destruct (position b) as [x y w h]. cbn in *.
    do 2 eexists. split; [reflexivity|]. split; apply Htwo; assumption.
  - unfold direct_pixels. cbn. do 2 eexists. split; [reflexivity|].
    split; apply Hone; assumption.
Qed.

End MachinePixels.

(** X21. Without the screen library no input reaches the machine: a
    call of [execute_action] that returns has left the context as it
    was and has issued nothing, or has opened a URL; no mouse move,
    click, key press or paste is among its effects. *)
Theorem no_input_without_pyautogui (py_repr : Guard.pyval -> string)
    (ratio : string -> string -> Q) (pyperclip_loaded : bool) (screen_size : Z * Z)
    (float_mul : Q -> Q -> Q)
    (now : Q) (pa : Guard.dict) (tm : list Fusion.block) (tc otc : option Guard.dict)
    (effects : list Guard.effect) :
  Guard.execute_action py_repr ratio false pyperclip_loaded screen_size float_mul now pa tm tc
  = Ok (otc, effects) ->
  otc = tc /\ (effects = [] \/ exists url, effects = [Guard.EOpenUrl url]).
Proof.
  unfold Guard.execute_action, Guard.direct_pixels, Guard.center_pixels,
    Guard.get_screen_size, Guard.match_target, Guard.paste_text, Guard.guarded_key,
    rbind.
  cbn [negb]. intros H.
  repeat case_match; simplify_eq; eauto.
Qed.

Lemma replayed_click_is_suppressed_witness :
  Guard.sample_execute 9 (Guard.click_step (1 # 2) (1 # 2) "Send") []
    (Some (Guard.after_click 7 Guard.last_click_ctx 500 500 (Guard.VStr "Send")))
  = Ok (Some (Guard.after_skip
                (Guard.after_click 7 Guard.last_click_ctx 500 500 (Guard.VStr "Send"))
                (Guard.VStr "Send")), []).
Proof.
  apply (replayed_click_is_suppressed Guard.plain_repr Resolver.difflib_ratio true true
           (1000, 1000) float_product 7 9 (Guard.click_step (1 # 2) (1 # 2) "Send") []
           Guard.last_click_ctx _ [Guard.EClick 500 500] 500 500).
  - vm_compute. reflexivity.
  - left.
Defined.

Lemma duplicate_click_guard_witness :
  Guard.sample_execute 7 (Guard.click_step (11 # 100) (1 # 10) "Open") []
    (Some Guard.last_click_ctx)
  = Ok (Some (Guard.after_click 7 Guard.last_click_ctx 110 100 (Guard.VStr "Open")),
        [Guard.EClick 110 100]).
Proof.
  pose proof (duplicate_click_guard Guard.plain_repr Resolver.difflib_ratio true true
                (1000, 1000) float_product 7
                (Guard.click_step (11 # 100) (1 # 10) "Open") []
                Guard.last_click_ctx 110 100 100 100 [] (Guard.VStr "Save")
                eq_refl (or_introl (conj eq_refl eq_refl)) eq_refl eq_refl) as H.
  cbv zeta in H. destruct H as (_ & _ & H & _).
  apply (H "Open" "Save"); [reflexivity | reflexivity | unfold Guard.dist2; lia|].
  vm_compute. discriminate.
Defined.

Lemma aimed_pixel_is_on_screen_witness :
  exists fx fy,
    Guard.center_pixels true (1920, 1080)%Z Qmult Resolver.send_button = Ok (fx, fy)
    /\ (0 <= fx < 1920)%Z /\ (0 <= fy < 1080)%Z.
Proof.
  apply (aimed_pixel_is_on_screen 1920 1080 Resolver.send_button (1 # 2) (1 # 2) []).
  - unfold Fusion.box_in_frame. simpl. repeat split; lra.
  - split; lra.
  - split; lra.
Defined.

Lemma machine_pixel_is_on_screen_witness :
  exists fx fy,
    Guard.direct_pixels true (1440, 900)%Z float_product (Guard.VList [35 # 100; 1 # 2])
    = Ok (fx, fy)
    /\ (0 <= fx < 1440)%Z /\ (0 <= fy < 900)%Z.
Proof.
  apply (machine_pixel_is_on_screen 1440 900 Resolver.send_button (35 # 100) (1 # 2) []).
  - unfold Guard.box_well_inside, Guard.frame_margin. simpl. repeat split; lra.
  - unfold Guard.frame_margin. split; lra.
  - unfold Guard.frame_margin. split; lra.
Defined.

Lemma no_input_without_pyautogui_witness :
  Guard.execute_action Guard.plain_repr Resolver.difflib_ratio false true (1000, 1000)%Z
    float_product 7 [("type", Guard.VStr "key"); ("text", Guard.VStr "enter")] [] (Some [])
  = Ok (Some [], [])
  /\ (Some [] = Some ([] : Guard.dict)
      /\ (([] : list Guard.effect) = [] \/ exists url, [] = [Guard.EOpenUrl url])).
Proof.
  split; [vm_compute; reflexivity|].
  apply (no_input_without_pyautogui Guard.plain_repr Resolver.difflib_ratio true
           (1000, 1000)%Z float_product 7 [("type", Guard.VStr "key"); ("text", Guard.VStr "enter")]
           [] (Some []) (Some []) []).
  vm_compute. reflexivity.
Defined.

(** ** Placeholder resolution: steps it leaves alone *)

Lemma no_open_brace_cons (c : ascii) (r : string) :
  PyStr.contains "{" (String c r) = false ->
  Ascii.eqb c "{" = false /\ PyStr.contains "{" r = false.
Proof.
  cbn [PyStr.contains]. intros [Hp Hr]%orb_false_iff. split; [|exact Hr].
  destruct (Ascii.eqb_spec c "{") as [->|Hne]; [|reflexivity].
  simpl in Hp. destruct r; discriminate.
Qed.

Section ResolveFacts.
Import Guard.

Variable py_repr : pyval -> string.

Local Abbreviation direct_pass := (direct_pass py_repr).
Local Abbreviation regex_pass_from := (regex_pass_from py_repr).
Local Abbreviation resolve_value := (resolve_value py_repr).
Local Abbreviation resolve := (resolve_step_placeholders py_repr).

Lemma direct_pass_plain (ctx : dict) (s : string) :
  PyStr.contains "{" s = false -> direct_pass ctx s = s.
Proof.
  intros Hs. unfold Guard.direct_pass.
  induction ctx as [|kv ctx IH]; [reflexivity|]. cbn [fold_left].
  destruct (PyStr.contains ("{" ++ kv.1 ++ "}") s) eqn:Hc; [|exact IH].
  apply placeholder_has_braces in Hc as [Ho _]. congruence.
Qed.

Lemma regex_pass_plain (ctx : dict) (s : string) :
  PyStr.contains "{" s = false -> regex_pass_from ctx 0 s = s.
Proof.
  induction s as [|c r IH]; [reflexivity|].
  intros [Hc Hr]%no_open_brace_cons. cbn [Guard.regex_pass_from].
  rewrite Hc, (IH Hr). reflexivity.
Qed.

Lemma until_close_spec (r content : string) :
  until_close r = Some content -> exists rest, r = content ++ String "}" rest.
Proof.
  revert content. induction r as [|c r IH]; intros content; [discriminate|].
  cbn [until_close]. destruct (Ascii.eqb_spec c "}") as [->|Hne].
  - intros [= <-]. exists r. reflexivity.
  - destruct (until_close r) as [content'|]; [|discriminate].
    intros [= <-]. destruct (IH content' eq_refl) as [rest ->].
    exists rest. reflexivity.
Qed.

(** Under an empty context the pattern pass puts every match back. *)
Lemma regex_pass_empty (n : nat) :
  forall s, (String.length s <= n)%nat -> regex_pass_from [] 0 s = s.
Proof.
  induction n as [|n IH]; intros [|c r] Hlen; try reflexivity;
    cbn [String.length] in Hlen; [lia|].
  assert (Hr : regex_pass_from [] 0 r = r) by (apply IH; lia).
  cbn [Guard.regex_pass_from].
  destruct (Ascii.eqb_spec c "{") as [->|Hne]; [|rewrite Hr; reflexivity].
  destruct (until_close r) as [[|c' content']|] eqn:Hu;
    [rewrite Hr; reflexivity| |rewrite Hr; reflexivity].
  destruct (until_close_spec r _ Hu) as [rest ->].
  unfold regex_replace. cbn [dict_get].
  assert (Hskip : regex_pass_from [] (S (S (String.length content')))
                    (String c' content' ++ String "}" rest)
                  = regex_pass_from [] 0 rest).
  { change (String c' content' ++ String "}" rest)
      with (String c' (content' ++ String "}" rest)).
    cbn [Guard.regex_pass_from].
    replace (String "}" rest) with ("}" ++ rest) by reflexivity.
    rewrite <- append_assoc.
    replace (S (String.length content'))
      with (String.length (content' ++ "}") + 0)%nat.
    - apply regex_skip.
    - rewrite Nat.add_0_r. clear. induction content' as [|x a IHa]; [reflexivity|].
      rewrite append_cons. cbn [String.length]. rewrite IHa. reflexivity. }
  rewrite Hskip, IH.
  - change ("{" ++ String c' content' ++ "}") with (String "{" (String c' content' ++ "}")).
    rewrite append_cons, append_assoc. reflexivity.
  - rewrite append_cons in Hlen. cbn [String.length] in Hlen.
    assert (Happ : forall a b, String.length (a ++ b)
                               = (String.length a + String.length b)%nat).
    { clear. intros a b. induction a as [|x a IHa]; [reflexivity|].
      rewrite append_cons. cbn [String.length]. rewrite IHa. reflexivity. }
    rewrite Happ in Hlen. cbn [String.length] in Hlen. lia.
Qed.

(** X22. Resolution leaves alone what holds no placeholder: a step
    none of whose string fields holds an opening brace is returned as
    it is under every context, and is not refused by the replay loop;
    and under an empty context every step is returned as it is, braces
    or not. *)
Theorem resolution_leaves_plain_steps (step : dict) (ctx : dict) :
  plain_step step ->
  resolve step ctx = step
  /\ has_unresolved (resolve step ctx) = false
  /\ forall any : dict, resolve any [] = any.
Proof.
  intros Hplain.
  assert (Hid : resolve step ctx = step).
  { unfold resolve_step_placeholders. unfold plain_step in Hplain.
    induction step as [|[k v] step IH]; [reflexivity|].
    cbn [map fst snd]. rewrite IH.
    - destruct v as [| s | | | | |]; try reflexivity.
      cbn [Guard.resolve_value]. unfold regex_pass.
      assert (Hs : PyStr.contains "{" s = false) by (apply (Hplain k); left).
      rewrite (direct_pass_plain ctx s Hs), (regex_pass_plain ctx s Hs). reflexivity.
    - intros k' s' Hin. apply (Hplain k'). right. exact Hin. }
  split; [exact Hid|]. split.
  - rewrite Hid. unfold has_unresolved. apply not_true_is_false.
    intros ([k v] & Hin & Hv)%existsb_exists. cbn [snd] in Hv.
    destruct v as [| s | | | | |]; try discriminate.
    apply andb_true_iff in Hv as [Ho _].
    apply list_elem_of_In in Hin. rewrite (Hplain k s Hin) in Ho. discriminate.
  - intros any. unfold resolve_step_placeholders.
    induction any as [|[k v] any IH]; [reflexivity|].
    cbn [map fst snd]. rewrite IH.
    destruct v as [| s | | | | |]; try reflexivity.
    cbn [Guard.resolve_value]. unfold regex_pass, Guard.direct_pass. cbn [fold_left].
    rewrite (regex_pass_empty (String.length s) s (le_n _)). reflexivity.
Qed.

End ResolveFacts.

Lemma resolution_leaves_plain_steps_witness :
  Guard.resolve_step_placeholders Guard.plain_repr
    (Guard.click_step (1 # 2) (1 # 2) "Send") Guard.greeting_context
  = Guard.click_step (1 # 2) (1 # 2) "Send".
Proof.
  apply (resolution_leaves_plain_steps Guard.plain_repr
           (Guard.click_step (1 # 2) (1 # 2) "Send") Guard.greeting_context).
  intros k s Hin. unfold Guard.click_step in Hin.
  apply elem_of_cons in Hin as [Hin|Hin]; [injection Hin as -> ->; reflexivity|].
  apply elem_of_cons in Hin as [Hin|Hin]; [injection Hin as -> ->; reflexivity|].
  apply elem_of_cons in Hin as [Hin|Hin]; [discriminate Hin|].
  inversion Hin.
Defined.

(** ** The replay loop: the log of one item *)

Section ReplayLog.
Import Guard.

Variable py_repr : pyval -> string.
Variable SequenceMatcher_ratio : string -> string -> Q.
Variables pyautogui_loaded pyperclip_loaded : bool.
Variable screen_size : Z * Z.
Variable float_mul : Q -> Q -> Q.
Variable visual_stack : nat -> nat -> option (list Fusion.block).
Variable qwen_text : nat -> nat -> option string.
Variable clock : nat -> nat -> Q.

Local Abbreviation run_steps :=
  (run_steps py_repr SequenceMatcher_ratio pyautogui_loaded pyperclip_loaded
     screen_size float_mul visual_stack qwen_text clock).

(** X23. The log of one item is the run of a prefix of its steps: the
    entries carry the index of the item and consecutive step indices
    from the first, there are no more entries than steps, and the item
    is completed exactly when every step was executed; any other stop
    leaves the remaining steps of the item unexecuted. *)
Theorem run_log_is_a_prefix (i : nat) (steps : list dict) (k : nat) (tc : dict)
    (log : list executed) (why : stop) :
  run_steps i steps k tc = (log, why) ->
  map x_step_index log = seq k (length log)
  /\ Forall (fun e => x_item e = i) log
  /\ (length log <= length steps)%nat
  /\ (why = Completed <-> length log = length steps).
Proof.
  revert k tc log why.
  induction steps as [|st rest IH]; intros k tc log why H.
  - cbn in H. injection H as <- <-. repeat split; auto.
  - cbn [Guard.run_steps] in H.
    assert (Hstop : forall w, w <> Completed -> ([], w) = (log, why) ->
              map x_step_index log = seq k (length log)
              /\ Forall (fun e => x_item e = i) log
              /\ (length log <= length (st :: rest))%nat
              /\ (why = Completed <-> length log = length (st :: rest))).
    { intros w Hw [= <- <-]. cbn. repeat split; auto; try lia; try done. }
    destruct (visual_stack i k) as [tm|];
      [|apply (Hstop VisualStackFailed); [discriminate|exact H]].
    destruct (has_unresolved _);
      [apply (Hstop UnresolvedPlaceholder); [discriminate|exact H]|].
    match type of H with
    | (match ?g with Some _ => _ | None => _ end) = _ =>
        destruct g as [cur|]; [|apply (Hstop QwenFailed); [discriminate|exact H]]
    end.
    destruct (Guard.execute_action _ _ _ _ _ _ _ _ _) as [[tc' eff]|e];
      [|apply (Hstop (StepFailed e)); [discriminate|exact H]].
    destruct (run_steps i rest (S k) (default tc tc')) as [log' why'] eqn:Hrest.
    injection H as <- <-.
    destruct (IH _ _ _ _ Hrest) as (Hidx & Hitem & Hlen & Hiff).
    cbn. rewrite Hidx. repeat split; auto; try lia.
    + intros Hc. apply Hiff in Hc. lia.
    + intros Hc. apply Hiff. lia.
Qed.

End ReplayLog.

Lemma run_log_is_a_prefix_witness :
  exists log why,
    Guard.run_steps Guard.plain_repr Resolver.difflib_ratio true true (1000, 1000)%Z
      float_product (fun _ _ => Some []) (fun _ _ => None) (fun _ _ => 0%Q)
      0 Guard.greeting_steps 0 Guard.greeting_context = (log, why)
    /\ map Guard.x_step_index log = [0%nat]
    /\ why = Guard.UnresolvedPlaceholder.
Proof.
  destruct (Guard.run_steps Guard.plain_repr Resolver.difflib_ratio true true
              (1000, 1000)%Z float_product (fun _ _ => Some []) (fun _ _ => None)
              (fun _ _ => 0%Q)
              0 Guard.greeting_steps 0 Guard.greeting_context) as [log why] eqn:E.
  exists log, why. split; [reflexivity|].
  destruct (run_log_is_a_prefix _ _ _ _ _ _ _ _ _ _ _ _ _ _ _ E) as (Hidx & _).
  rewrite Hidx. vm_compute in E. injection E as <- <-. split; reflexivity.
Defined.

(** ** Line reconstructor: when it returns, and what the lines are *)

Section LineShape.
Import Fusion Lines.

Lemma normalize_blocks_returns (raw : list text_block) :
  Forall (fun tb => legible tb = true -> (2 <= length (bbox tb))%nat) raw ->
  exists blocks, normalize_blocks raw = Ok blocks.
Proof.
  induction 1 as [|tb raw Htb _ [rest IH]]; [eexists; reflexivity|].
  cbn [normalize_blocks]. fold (legible tb).
  destruct (legible tb); [|eauto].
  specialize (Htb eq_refl).
  destruct (bbox tb) as [|x [|y l]]; simpl in Htb; try lia.
  unfold idx. cbn. rewrite IH. cbn. eauto.
Qed.

Lemma normalize_blocks_inv (raw : list text_block) :
  forall blocks,
    normalize_blocks raw = Ok blocks ->
    Forall (fun tb => legible tb = true -> (2 <= length (bbox tb))%nat) raw
    /\ Forall (fun b => l_text b <> "") blocks
    /\ length blocks = length (filter (fun tb => legible tb = true) raw).
Proof.
  induction raw as [|tb raw IH]; intros blocks H.
  - injection H as <-. repeat split; constructor.
  - cbn [normalize_blocks] in H. fold (legible tb) in H.
    destruct (legible tb) eqn:Hl.
    + destruct (bbox tb) as [|x [|y l]] eqn:Hb; try discriminate H.
      unfold idx in H. cbn in H.
      destruct (normalize_blocks raw) as [rest|] eqn:Hrest; [|discriminate H].
      cbn in H. injection H as <-.
      destruct (IH rest eq_refl) as (H1 & H2 & H3).
      split; [constructor; [intros _; rewrite Hb; simpl; lia|exact H1]|].
      split.
      * constructor; [|exact H2]. cbn.
        unfold legible in Hl. apply andb_true_iff in Hl as [_ Hs].
        intros E. rewrite E in Hs. discriminate.
      * rewrite filter_cons_True by exact Hl. simpl. rewrite H3. reflexivity.
    + destruct (IH blocks H) as (H1 & H2 & H3).
      split; [constructor; [congruence|exact H1]|].
      split; [exact H2|].
      rewrite filter_cons_False by congruence. exact H3.
Qed.

Lemma normalize_blocks_raises (raw : list text_block) (e : exn) :
  normalize_blocks raw = Raise e -> e = IndexError.
Proof.
  induction raw as [|tb raw IH]; [discriminate|].
  cbn [normalize_blocks]. destruct (_ && _); [|exact IH].
  unfold rbind. intros H. repeat case_match; simplify_eq; eauto using @idx_raises.
Qed.

(** The grouping keeps every block, and never leaves a line empty. *)
Lemma group_step_shape (tol : Q) (lines : list line) (b : lblock) :
  concat (map line_blocks (group_step tol lines b))
    ≡ₚ (concat (map line_blocks lines) ++ [b])%list
  /\ (Forall (fun ln => line_blocks ln <> []) lines ->
      Forall (fun ln => line_blocks ln <> []) (group_step tol lines b)).
Proof.
  unfold group_step. destruct (place tol b lines) as [lines'|] eqn:Hp.
  - apply place_some in Hp as (pre & ln & post & -> & -> & _ & _). split.
    + rewrite !map_app, !concat_app. cbn [map concat line_blocks].
      rewrite <- !app_assoc. apply Permutation_app_head.
      apply Permutation_app_head. apply Permutation_app_comm.
    + rewrite !Forall_app, !Forall_cons. intros (Hpre & _ & Hpost).
      repeat split; auto. cbn. destruct (line_blocks ln); discriminate.
  - split.
    + rewrite map_app, concat_app. cbn. rewrite ?app_nil_r. reflexivity.
    + intros H. apply Forall_app. split; [exact H|].
      constructor; [discriminate|constructor].
Qed.

Lemma group_fold_shape (tol : Q) (S : list lblock) :
  forall lines,
    concat (map line_blocks (fold_left (group_step tol) S lines))
      ≡ₚ (concat (map line_blocks lines) ++ S)%list
    /\ (Forall (fun ln => line_blocks ln <> []) lines ->
        Forall (fun ln => line_blocks ln <> [])
          (fold_left (group_step tol) S lines)).
Proof.
  induction S as [|b S IH]; intros lines; cbn [fold_left].
  - rewrite app_nil_r. auto.
  - destruct (IH (group_step tol lines b)) as [Hperm Hne].
    destruct (group_step_shape tol lines b) as [Hperm1 Hne1].
    split; [|auto].
    rewrite Hperm, Hperm1, <- app_assoc. reflexivity.
Qed.

Lemma group_lines_shape (tol : Q) (blocks : list lblock) :
  concat (map line_blocks (group_lines tol blocks)) ≡ₚ blocks
  /\ Forall (fun ln => line_blocks ln <> []) (group_lines tol blocks).
Proof.
  unfold group_lines.
  destruct (group_fold_shape tol (sorted_by (fun b => (- l_y b)%Q) blocks) [])
    as [Hperm Hne].
  split; [|apply Hne; constructor].
  rewrite Hperm. cbn. apply sorted_by_perm.
Qed.

Lemma concat_length_nonempty {A : Type} (ls : list (list A)) :
  Forall (fun l => l <> []) ls -> (length ls <= length (concat ls))%nat.
Proof.
  induction 1 as [|l ls Hl _ IH]; [reflexivity|].
  cbn. rewrite length_app. destruct l; [contradiction|]. simpl. lia.
Qed.

(** X24. The line reconstruction returns exactly when every detection
    with a text that is not blank has both coordinates, and raises
    IndexError otherwise.  When it returns, no line is empty, there
    are at most as many lines as detections with a text, and there is
    no line exactly when every detection is blank. *)
Theorem reconstruction_returns_filled_lines (raw : list text_block) :
  ((exists lines, reconstruct_text_from_ocr raw = Ok lines)
   <-> Forall (fun tb => legible tb = true -> (2 <= length (bbox tb))%nat) raw)
  /\ (forall e, reconstruct_text_from_ocr raw = Raise e -> e = IndexError)
  /\ (forall lines,
        reconstruct_text_from_ocr raw = Ok lines ->
        Forall (fun s => s <> "") lines
        /\ (length lines <= length (filter (fun tb => legible tb = true) raw))%nat
        /\ (lines = [] <-> Forall (fun tb => legible tb = false) raw)).
Proof.
  unfold reconstruct_text_from_ocr, reconstruct_with.
  destruct (normalize_blocks raw) as [blocks|e0] eqn:Hn; cbn [rbind].
  - destruct (normalize_blocks_inv raw blocks Hn) as (Hloc & Htext & Hlen).
    destruct (group_lines_shape (py_float (15 # 1000)) blocks) as [Hperm Hne].
    split; [split; [auto|eauto]|]. split; [discriminate|].
    intros lines [= <-]. split; [|split].
    + apply Forall_forall. intros s (ln & -> & Hin)%list_elem_of_fmap.
      rewrite render_line_join.
      rewrite Forall_forall in Hne. specialize (Hne ln Hin).
      pose proof (sorted_by_perm l_x (line_blocks ln)) as Hs.
      destruct (sorted_by l_x (line_blocks ln)) as [|b l] eqn:E.
      { apply Permutation_nil in Hs. congruence. }
      assert (Hb : b ∈ blocks).
      { rewrite <- Hperm. apply list_elem_of_In, in_concat.
        exists (line_blocks ln). split.
        - apply in_map, list_elem_of_In. exact Hin.
        - apply list_elem_of_In. rewrite <- Hs. left. }
      rewrite Forall_forall in Htext. specialize (Htext b Hb).
      cbn [join_blocks]. destruct (l_text b); [contradiction|discriminate].
    + rewrite length_map, <- Hlen, <- (Permutation_length Hperm).
      rewrite <- (length_map line_blocks). apply concat_length_nonempty.
      apply Forall_fmap. exact Hne.
    + assert (Hb : blocks = [] <-> Forall (fun tb => legible tb = false) raw).
      { rewrite <- length_zero_iff_nil, Hlen, length_zero_iff_nil.
        clear. induction raw as [|tb raw IH].
        - split; [constructor|reflexivity].
        - destruct (legible tb) eqn:E.
          + rewrite filter_cons_True by exact E. split; [discriminate|].
            intros H. apply Forall_cons in H as [H _]. congruence.
          + rewrite filter_cons_False by congruence. rewrite IH.
            rewrite Forall_cons. tauto. }
      rewrite <- Hb. split.
      * intros E. apply map_eq_nil in E. rewrite E in Hperm.
        cbn in Hperm. apply Permutation_nil. exact Hperm.
      * intros ->. reflexivity.
  - split; [split|].
    + intros [lines H]. discriminate.
    + intros Hloc. destruct (normalize_blocks_returns raw Hloc) as [blocks Hb].
      congruence.
    + split; [|discriminate].
      intros e [= <-]. eapply normalize_blocks_raises; eauto.
Qed.

End LineShape.

(** ** Target names *)

Section NameFacts.
Import PyStr.

Lemma take_length (n : nat) (s : string) : (String.length (take n s) <= n)%nat.
Proof.
  revert s. induction n as [|n IH]; intros [|c s]; simpl; try lia.
  specialize (IH s). lia.
Qed.

Lemma all_chars_impl (p q : ascii -> bool) (s : string) :
  (forall c, p c = true -> q c = true) -> all_chars p s -> all_chars q s.
Proof.
  intros Hpq. induction s as [|c s IH]; simpl; [auto|]. intros [Hc Hs]. auto.
Qed.

Lemma all_chars_app (p : ascii -> bool) (a b : string) :
  all_chars p (a ++ b) <-> all_chars p a /\ all_chars p b.
Proof.
  induction a as [|c a IH]; [simpl; tauto|].
  rewrite append_cons. simpl. rewrite IH. tauto.
Qed.

Lemma all_chars_take (p : ascii -> bool) (n : nat) (s : string) :
  all_chars p s -> all_chars p (take n s).
Proof.
  revert s. induction n as [|n IH]; intros [|c s]; simpl; auto.
  intros [Hc Hs]. auto.
Qed.

Lemma all_chars_filter (p : ascii -> bool) (s : string) :
  all_chars p (filter_chars p s).
Proof.
  induction s as [|c s IH]; simpl; [exact I|].
  destruct (p c) eqn:E; simpl; auto.
Qed.

(** The words of a split are not empty and hold no white space. *)
Lemma split_ws_from_words (p : ascii -> bool) (s : string) :
  forall cur,
    all_chars p s ->
    all_chars (fun c => p c && negb (is_space c)) cur ->
    Forall (fun w => w <> "" /\ all_chars (fun c => p c && negb (is_space c)) w)
      (split_ws_from cur s).
Proof.
  induction s as [|c s IH]; intros cur Hs Hcur; cbn [split_ws_from].
  - destruct cur; [constructor|]. constructor; [|constructor].
    split; [discriminate|exact Hcur].
  - destruct Hs as [Hc Hs]. destruct (is_space c) eqn:Esp.
    + destruct cur.
      * apply IH; [exact Hs|exact I].
      * constructor; [split; [discriminate|exact Hcur]|].
        apply IH; [exact Hs|exact I].
    + apply IH; [exact Hs|].
      apply all_chars_app. split; [exact Hcur|].
      simpl. rewrite Hc, Esp. auto.
Qed.

Lemma join_words (q : ascii -> bool) (ws : list string) :
  Forall (fun w => w <> "" /\ all_chars q w) ws ->
  all_chars (fun c => q c || Ascii.eqb c " ") (join " " ws)
  /\ (forall c r, join " " ws = String c r -> q c = true).
Proof.
  induction 1 as [|w ws [Hne Hw] Hws [IH1 IH2]]; [split; [exact I|discriminate]|].
  assert (Hw' : all_chars (fun c => q c || Ascii.eqb c " ") w).
  { eapply all_chars_impl; [|exact Hw]. intros c ->. reflexivity. }
  cbn [join]. destruct ws as [|w2 ws].
  - split; [exact Hw'|]. intros c r ->. apply Hw.
  - split.
    + apply all_chars_app. split; [exact Hw'|].
      change (" " ++ join " " (w2 :: ws)) with (String " " (join " " (w2 :: ws))).
      split; [apply orb_true_r|exact IH1].
    + destruct w as [|c0 w]; [contradiction|].
      rewrite append_cons. intros c r [= <- _]. apply Hw.
Qed.

(** X25. A cleaned target name has at most 30 characters, all of
    them letters, digits, underscores, hyphens or single blanks: every
    other character of the recognised text is dropped, white space of
    any kind becomes a blank, and the name does not begin with
    one. *)
Theorem clean_target_name_shape (text : string) :
  (String.length (Classifier._clean_target_name text) <= 30)%nat
  /\ all_chars Classifier.name_char (Classifier._clean_target_name text)
  /\ (forall c r,
        Classifier._clean_target_name text = String c r ->
        is_space c = false /\ (is_word c = true \/ c = "-"%char)).
Proof.
  unfold Classifier._clean_target_name.
  set (p := fun c => is_word c || is_space c || Ascii.eqb c "-").
  set (q := fun c => p c && negb (is_space c)).
  pose proof (split_ws_from_words p (filter_chars p text) ""
                (all_chars_filter p text) I) as Hwords.
  fold q in Hwords. fold (split_ws (filter_chars p text)) in Hwords.
  destruct (join_words q _ Hwords) as [Hall Hfirst].
  assert (Hq : forall c, q c = true ->
             is_space c = false /\ (is_word c = true \/ c = "-"%char)).
  { intros c Hc. unfold q, p in Hc.
    apply andb_true_iff in Hc as [Hp Hs]. apply negb_true_iff in Hs.
    split; [exact Hs|]. rewrite Hs, orb_false_r in Hp.
    apply orb_true_iff in Hp as [Hw|He]; [left; exact Hw|].
    right. apply Ascii.eqb_eq. exact He. }
  split; [apply take_length|]. split.
  - apply all_chars_take. eapply all_chars_impl; [|exact Hall].
    intros c Hc. unfold Classifier.name_char.
    apply orb_true_iff in Hc as [Hc| ->]; [|apply orb_true_r].
    destruct (Hq c Hc) as [_ [-> | ->]]; reflexivity.
  - intros c r E. apply Hq.
    destruct (join " " (split_ws (filter_chars p text))) as [|c0 r0] eqn:Ej;
      [discriminate|].
    simpl in E. injection E as <- _. eapply Hfirst. reflexivity.
Qed.

End NameFacts.
